(** * RFQ Rocket backend: extraction-response parsing and content redaction

    A shallow embedding of [services/ai_extractor.py] (the class
    [AIExtractor]), of [services/redactor.py] (the class [ContentRedactor])
    and of the views of [app.py], together with the part of Python's [re]
    and [json] modules they call.  The chat service, the generator and the
    environment are parameters ([Outside]), and so are the limits of the
    interpreter that [json.loads] can run into ([Limits]).

    Python strings are sequences of Unicode code points; they are modelled
    as lists of code points ([N]).  What Python's character database says
    about code points beyond ASCII is a parameter ([UnicodeDB]). *)

From Stdlib Require Import List NArith ZArith Bool Ascii String Lia PeanoNat.
Import ListNotations.

Set Implicit Arguments.

(** ** Text *)

Definition char := N.
Definition text := list char.

Definition chr (a : ascii) : char := N_of_ascii a.
Definition str (s : string) : text := map chr (list_ascii_of_string s).
Arguments chr a%_char.
Arguments str s%_string.

(** The double quote. *)
Definition dquote : char := 34%N.

(** [s] between double quotes. *)
Definition quoted (s : string) : text := dquote :: str s ++ [dquote].
Arguments quoted s%_string.

Definition in_range (lo hi c : char) : bool := (lo <=? c)%N && (c <=? hi)%N.

Definition is_ascii (c : char) : bool := (c <? 128)%N.
Definition is_upper (c : char) : bool := in_range (chr "A") (chr "Z") c.
Definition is_lower (c : char) : bool := in_range (chr "a") (chr "z") c.
Definition is_cased (c : char) : bool := is_upper c || is_lower c.
Definition ascii_lower (c : char) : char := if is_upper c then (c + 32)%N else c.

(** [str.isspace], [str.isdecimal] and [str.isalnum] on ASCII. *)
Definition ascii_space (c : char) : bool := in_range 9%N 13%N c || in_range 28%N 32%N c.
Definition ascii_digit (c : char) : bool := in_range (chr "0") (chr "9") c.
Definition ascii_alnum (c : char) : bool := ascii_digit c || is_cased c.

(** The interpreter's character database, for the code points that are not
    ASCII.  [uni_fold c] is the code point [c] is compared by when a pattern
    ignores case: its simple lower-case mapping, or the ASCII letter that
    [sre]'s table of equivalent letters attaches it to. *)
Class UnicodeDB : Type := {
  uni_isspace : char -> bool;
  uni_isdecimal : char -> bool;
  uni_isalnum : char -> bool;
  uni_fold : char -> char
}.

(** A database in which no code point beyond ASCII is a letter, a digit or
    white space.  It gives closed statements an instance to compute with;
    the theorems below are stated for every database. *)
Definition plain_db : UnicodeDB :=
  {| uni_isspace := fun _ => false;
     uni_isdecimal := fun _ => false;
     uni_isalnum := fun _ => false;
     uni_fold := fun c => c |}.

Section Chars.
Context {db : UnicodeDB}.

Definition is_space (c : char) : bool := if is_ascii c then ascii_space c else uni_isspace c.
Definition is_digit (c : char) : bool := if is_ascii c then ascii_digit c else uni_isdecimal c.
(** [\w]: alphanumeric or underscore. *)
Definition is_word (c : char) : bool :=
  if is_ascii c then ascii_alnum c || (c =? chr "_")%N else uni_isalnum c.
Definition fold_case (c : char) : char := if is_ascii c then ascii_lower c else uni_fold c.

End Chars.

(** ** Regular expressions: the fragment of [re] the program uses *)

Inductive citem : Type :=
| CChar (c : char)
| CRange (lo hi : char)
| CSpace
| CDigit
| CWord.

Inductive atom : Type :=
| ALit (c : char)
| AAny
| ASet (negated : bool) (items : list citem).

(** Quantifiers are applied to single-character items only: that is all the
    patterns of the program do, and [re_compile] refuses anything else. *)
Inductive regex : Type :=
| REmpty
| RAtom (a : atom)
| RRep (a : atom) (lo : nat) (hi : option nat)
| RBoundary
| RSeq (r1 r2 : regex)
| RAlt (r1 r2 : regex)
| RGroup (n : nat) (r : regex).

Record flags : Type := { ignorecase : bool; dotall : bool }.

(** A span is a pair of positions; a state of the matcher is the position
    reached and the groups closed so far (latest first); a match is a start
    and the state reached. *)
Abbreviation span := (nat * nat)%type (only parsing).
Abbreviation mstate := (nat * list (nat * (nat * nat)))%type (only parsing).
Abbreviation rmatch := (nat * (nat * list (nat * (nat * nat))))%type (only parsing).

Section Matcher.
Context {db : UnicodeDB}.
Variable fl : flags.

(** Membership of a character in the lower-cased image of a range: the set
    [sre] compiles for a range of a pattern that ignores case. *)
Definition range_ci (lo hi x : char) : bool :=
  (in_range lo hi x && negb (is_upper x)) || (is_lower x && in_range lo hi (x - 32)%N).

Definition citem_match (it : citem) (c : char) : bool :=
  match it with
  | CChar p =>
      if ignorecase fl then (fold_case c =? ascii_lower p)%N else (c =? p)%N
  | CRange lo hi =>
      if ignorecase fl then range_ci lo hi (fold_case c) else in_range lo hi c
  | CSpace => is_space c
  | CDigit => is_digit c
  | CWord => is_word c
  end.

Definition atom_match (a : atom) (c : char) : bool :=
  match a with
  | ALit p =>
      if ignorecase fl && is_cased p then (fold_case c =? ascii_lower p)%N else (c =? p)%N
  | AAny => dotall fl || negb (c =? 10)%N
  | ASet neg items => xorb neg (existsb (fun it => citem_match it c) items)
  end.

Definition word_at (t : text) (i : nat) : bool :=
  match nth_error t i with Some c => is_word c | None => false end.

Definition word_before (t : text) (i : nat) : bool :=
  match i with O => false | S j => word_at t j end.

(** [\b]: the characters on the two sides differ in being word characters;
    outside the text counts as not a word character. *)
Definition boundary (t : text) (i : nat) : bool := xorb (word_before t i) (word_at t i).

(** Number of leading characters of [s] accepted by [a], at most [hi]. *)
Fixpoint run_len (a : atom) (hi : option nat) (s : text) : nat :=
  match s with
  | [] => 0
  | c :: s' =>
      match hi with
      | Some 0 => 0
      | _ =>
          if atom_match a c
          then S (run_len a (option_map pred hi) s')
          else 0
      end
  end.

(** [down n k] is [n; n-1; ...; n-k+1]: the counts a greedy repeat tries. *)
Fixpoint down (n k : nat) : list nat :=
  match k with
  | 0 => []
  | S k' => n :: down (pred n) k'
  end.

(** All the ways [r] matches in [t] from a state, in the order a
    backtracking matcher tries them: the first one is the match [re]
    reports when what follows succeeds. *)
Fixpoint rx_run (t : text) (r : regex) (st : mstate) : list mstate :=
  match r with
  | REmpty => [st]
  | RAtom a =>
      match nth_error t (fst st) with
      | Some c => if atom_match a c then [(S (fst st), snd st)] else []
      | None => []
      end
  | RRep a lo hi =>
      let n := run_len a hi (skipn (fst st) t) in
      map (fun k => (fst st + k, snd st)) (down n (S n - lo))
  | RBoundary => if boundary t (fst st) then [st] else []
  | RSeq r1 r2 => flat_map (rx_run t r2) (rx_run t r1 st)
  | RAlt r1 r2 => rx_run t r1 st ++ rx_run t r2 st
  | RGroup n r1 =>
      map (fun st' => (fst st', (n, (fst st, fst st')) :: snd st')) (rx_run t r1 st)
  end.

(** The start, the end and the groups of a match. *)
Definition m_start (m : rmatch) : nat := fst m.
Definition m_end (m : rmatch) : nat := fst (snd m).
Definition m_groups (m : rmatch) : list (nat * span) := snd (snd m).

Definition match_at (t : text) (r : regex) (i : nat) : option rmatch :=
  match rx_run t r (i, []) with
  | st :: _ => Some (i, st)
  | [] => None
  end.

(** The first match at [i] that is not empty. *)
Definition match_at_nonempty (t : text) (r : regex) (i : nat) : option rmatch :=
  match filter (fun st => negb (fst st =? i)) (rx_run t r (i, [])) with
  | st :: _ => Some (i, st)
  | [] => None
  end.

(** The scan shared by [re.search], [re.findall] and [re.sub]: positions
    are tried from left to right, a match is followed by a search from its
    end, and an empty match is followed by a search at the same position
    for a match that is not empty.  [rest] is the text from [i] on;
    positions before [resume] lie inside the previous match. *)
Fixpoint scan (t : text) (r : regex) (i resume : nat) (rest : text) : list rmatch :=
  let next res :=
    match rest with
    | [] => []
    | _ :: rest' => scan t r (S i) res rest'
    end in
  if i <? resume then next resume
  else
    match match_at t r i with
    | None => next resume
    | Some m =>
        if m_end m =? i
        then match match_at_nonempty t r i with
             | Some m' => m :: m' :: next (m_end m')
             | None => m :: next resume
             end
        else m :: next (m_end m)
    end.

Definition finditer (r : regex) (t : text) : list rmatch := scan t r 0 0 t.

(** What the scan does after position [i]. *)
Definition scan_next (t : text) (r : regex) (i : nat) (rest : text) (res : nat) : list rmatch :=
  match rest with
  | [] => []
  | _ :: rest' => scan t r (S i) res rest'
  end.

(** Matches that do not overlap and go from left to right, in the order
    they are listed. *)
Definition left_to_right (ms : list rmatch) : Prop :=
  forall a b m1 m2, a < b -> nth_error ms a = Some m1 -> nth_error ms b = Some m2 ->
    m_start m1 <= m_start m2 /\ m_end m1 <= m_start m2.

Definition slice (t : text) (i j : nat) : text := firstn (j - i) (skipn i t).

Definition m_text (t : text) (m : rmatch) : text := slice t (m_start m) (m_end m).

(** [m.group(n)]; a group that took no part in the match gives the empty
    string in [findall]. *)
Definition m_group (t : text) (m : rmatch) (n : nat) : text :=
  match find (fun g => fst g =? n) (m_groups m) with
  | Some (_, (i, j)) => slice t i j
  | None => []
  end.

Fixpoint ngroups (r : regex) : nat :=
  match r with
  | RSeq r1 r2 | RAlt r1 r2 => ngroups r1 + ngroups r2
  | RGroup _ r1 => S (ngroups r1)
  | _ => 0
  end.

(** [re.search]: the first match. *)
Definition search (r : regex) (t : text) : option rmatch := hd_error (finditer r t).

(** [re.findall] for a pattern with at most one group: the text of the
    group when there is one, of the whole match otherwise. *)
Definition findall (r : regex) (t : text) : list text :=
  map (fun m => if ngroups r =? 0 then m_text t m else m_group t m 1) (finditer r t).

(** Replace the matches [ms] (in scan order) by [repl]; [i] is the position
    of the first character of [rest] in the text. *)
Fixpoint splice (repl : text) (ms : list rmatch) (i : nat) (rest : text) : text :=
  match ms with
  | [] => rest
  | m :: ms' =>
      firstn (m_start m - i) rest ++ repl
        ++ splice repl ms' (m_end m) (skipn (m_end m - i) rest)
  end.

(** [re.sub] with a replacement that has no group reference. *)
Definition sub (r : regex) (repl : text) (t : text) : text :=
  splice repl (finditer r t) 0 t.

End Matcher.

(** ** Compiling a pattern

    The patterns are written in the source as strings; [re_compile] reads
    the part of the pattern syntax they are written in and answers [None]
    on anything else (where [re.compile] raises or the construct is not
    modelled): anchors, backreferences, lazy quantifiers, a quantifier on
    a group, a character that is not ASCII. *)

Inductive item : Type :=
| IAtom (a : atom)
| IRegex (r : regex).

Definition is_punct (c : char) : bool := is_ascii c && negb (ascii_alnum c).

Fixpoint parse_nat (s : text) (acc : nat) : nat * text :=
  match s with
  | c :: s' =>
      if ascii_digit c then parse_nat s' (10 * acc + N.to_nat (c - chr "0")) else (acc, s)
  | [] => (acc, s)
  end.

(** An escape inside a character class. *)
Definition class_escape (e : char) : option citem :=
  if (e =? chr "s")%N then Some CSpace
  else if (e =? chr "d")%N then Some CDigit
  else if (e =? chr "w")%N then Some CWord
  else if is_punct e then Some (CChar e)
  else None.

(** The items of a class, up to the closing bracket. *)
Fixpoint parse_class (s : text) (acc : list citem) : option (list citem * text) :=
  match s with
  | [] => None
  | c :: s' =>
      if negb (is_ascii c) then None
      else if (c =? chr "]")%N then
        match acc with [] => None | _ => Some (rev acc, s') end
      else if (c =? chr "\")%N then
        match s' with
        | e :: s'' =>
            match class_escape e with
            | Some it => parse_class s'' (it :: acc)
            | None => None
            end
        | [] => None
        end
      else
        match s' with
        | d :: hi :: s'' =>
            if (d =? chr "-")%N && negb (hi =? chr "]")%N then
              if (hi =? chr "\")%N || negb (is_ascii hi) || (hi <? c)%N then None
              else parse_class s'' (CRange c hi :: acc)
            else parse_class s' (CChar c :: acc)
        | _ => parse_class s' (CChar c :: acc)
        end
  end.

(** A quantifier: bounds and what is left of the pattern. *)
Definition parse_quant (s : text) : option (option (nat * option nat) * text) :=
  let lazy_or_possessive (s' : text) :=
    match s' with
    | c :: _ => (c =? chr "?")%N || (c =? chr "+")%N
    | [] => false
    end in
  let done (q : nat * option nat) (s' : text) :=
    if lazy_or_possessive s' then None else Some (Some q, s') in
  match s with
  | c :: s' =>
      if (c =? chr "*")%N then done (0, None) s'
      else if (c =? chr "+")%N then done (1, None) s'
      else if (c =? chr "?")%N then done (0, Some 1) s'
      else if (c =? chr "{")%N then
        match s' with
        | d :: _ =>
            if ascii_digit d then
              let (lo, s1) := parse_nat s' 0 in
              match s1 with
              | e :: s2 =>
                  if (e =? chr "}")%N then done (lo, Some lo) s2
                  else if (e =? chr ",")%N then
                    match s2 with
                    | f :: s3 =>
                        if (f =? chr "}")%N then done (lo, None) s3
                        else if ascii_digit f then
                          let (hi, s4) := parse_nat s2 0 in
                          match s4 with
                          | g :: s5 =>
                              if (g =? chr "}")%N && (lo <=? hi) then done (lo, Some hi) s5
                              else None
                          | [] => None
                          end
                        else None
                    | [] => None
                    end
                  else None
              | [] => None
              end
            else None
        | [] => None
        end
      else Some (None, s)
  | [] => Some (None, s)
  end.

Definition quantify (it : item) (q : option (nat * option nat)) : option regex :=
  match it, q with
  | IAtom a, None => Some (RAtom a)
  | IAtom a, Some (lo, hi) => Some (RRep a lo hi)
  | IRegex r, None => Some r
  | IRegex _, Some _ => None
  end.

(** An escape outside a character class. *)
Definition escape (e : char) : option item :=
  if (e =? chr "b")%N then Some (IRegex RBoundary)
  else if (e =? chr "s")%N then Some (IAtom (ASet false [CSpace]))
  else if (e =? chr "d")%N then Some (IAtom (ASet false [CDigit]))
  else if (e =? chr "w")%N then Some (IAtom (ASet false [CWord]))
  else if is_punct e then Some (IAtom (ALit e))
  else None.

Definition seq_of (rs : list regex) : regex := fold_right RSeq REmpty rs.

(** [parse_alt] reads branches separated by bars, [parse_seq] the pieces of
    one branch; [g] is the number of the next group. *)
Fixpoint parse_alt (fuel : nat) (s : text) (g : nat) : option (regex * text * nat) :=
  match fuel with
  | 0 => None
  | S fuel' =>
      match parse_seq fuel' s g with
      | Some (rs, s1, g1) =>
          match s1 with
          | c :: s2 =>
              if (c =? chr "|")%N then
                match parse_alt fuel' s2 g1 with
                | Some (r2, s3, g2) => Some (RAlt (seq_of rs) r2, s3, g2)
                | None => None
                end
              else Some (seq_of rs, s1, g1)
          | [] => Some (seq_of rs, s1, g1)
          end
      | None => None
      end
  end
with parse_seq (fuel : nat) (s : text) (g : nat) : option (list regex * text * nat) :=
  match fuel with
  | 0 => None
  | S fuel' =>
      match s with
      | [] => Some ([], s, g)
      | c :: s' =>
          if (c =? chr "|")%N || (c =? chr ")")%N then Some ([], s, g)
          else
            let piece (it : item) (s1 : text) (g1 : nat) :=
              match parse_quant s1 with
              | Some (q, s2) =>
                  match quantify it q with
                  | Some r =>
                      match parse_seq fuel' s2 g1 with
                      | Some (rs, s3, g2) => Some (r :: rs, s3, g2)
                      | None => None
                      end
                  | None => None
                  end
              | None => None
              end in
            if negb (is_ascii c) then None
            else if (c =? chr "(")%N then
              match s' with
              | q :: _ =>
                  if (q =? chr "?")%N then None
                  else
                    match parse_alt fuel' s' (S g) with
                    | Some (r, s1, g1) =>
                        match s1 with
                        | d :: s2 =>
                            if (d =? chr ")")%N then piece (IRegex (RGroup g r)) s2 g1 else None
                        | [] => None
                        end
                    | None => None
                    end
              | [] => None
              end
            else if (c =? chr "[")%N then
              match s' with
              | n :: s1 =>
                  let neg := (n =? chr "^")%N in
                  match parse_class (if neg then s1 else s') [] with
                  | Some (items, s2) => piece (IAtom (ASet neg items)) s2 g
                  | None => None
                  end
              | [] => None
              end
            else if (c =? chr "\")%N then
              match s' with
              | e :: s1 =>
                  match escape e with
                  | Some it => piece it s1 g
                  | None => None
                  end
              | [] => None
              end
            else if (c =? chr ".")%N then piece (IAtom AAny) s' g
            else if (c =? chr "*")%N || (c =? chr "+")%N || (c =? chr "?")%N
                    || (c =? chr "{")%N || (c =? chr "^")%N || (c =? chr "$")%N
            then None
            else piece (IAtom (ALit c)) s' g
      end
  end.

Definition re_compile (p : text) : option regex :=
  match parse_alt (2 * List.length p + 2) p 1 with
  | Some (r, [], _) => Some r
  | _ => None
  end.

(** ** Python values *)

(** A float is carried by the decimal numeral it was written as
    ([m] times ten to the [e]); its rounding to binary is not modelled. *)
Inductive pyfloat : Type :=
| FDec (neg : bool) (m : N) (e : Z)
| FInf (neg : bool)
| FNaN.

#[warnings="-register-all"]
Inductive pyval : Type :=
| PNone
| PBool (b : bool)
| PInt (z : Z)
| PFloat (f : pyfloat)
| PStr (s : text)
| PList (l : list pyval)
| PDict (d : list (text * pyval)).

(** A [dict] with string keys, in insertion order. *)
Definition pydict := list (text * pyval).

Definition text_eqb (a b : text) : bool :=
  if list_eq_dec N.eq_dec a b then true else false.

Fixpoint dict_get (k : text) (d : pydict) : option pyval :=
  match d with
  | [] => None
  | (k', v) :: d' => if text_eqb k' k then Some v else dict_get k d'
  end.

(** [d[k] = v]: an existing key keeps its place, a new one goes last. *)
Fixpoint dict_set (k : text) (v : pyval) (d : pydict) : pydict :=
  match d with
  | [] => [(k, v)]
  | (k', v') :: d' => if text_eqb k' k then (k, v) :: d' else (k', v') :: dict_set k v d'
  end.

Definition dict_keys (d : pydict) : list text := map fst d.

(** ** The clock *)

Record datetime : Type := {
  year : N; month : N; day : N;
  hour : N; minute : N; second : N; microsecond : N
}.

(** [n] written with exactly [width] decimal digits (the [%0wd] of a
    number that fits). *)
Definition zero_pad (width : nat) (n : N) : text :=
  map (fun k => (chr "0" + (n / 10 ^ N.of_nat k) mod 10)%N) (rev (seq 0 width)).

(** [datetime.isoformat()]. *)
Definition isoformat (d : datetime) : text :=
  zero_pad 4 (year d) ++ str "-" ++ zero_pad 2 (month d) ++ str "-" ++ zero_pad 2 (day d)
  ++ str "T" ++ zero_pad 2 (hour d) ++ str ":" ++ zero_pad 2 (minute d)
  ++ str ":" ++ zero_pad 2 (second d)
  ++ (if (microsecond d =? 0)%N then [] else str "." ++ zero_pad 6 (microsecond d)).

(** ** [services/redactor.py] *)

Definition IGNORECASE : flags := {| ignorecase := true; dotall := false |}.

Definition _init_redaction_patterns : list (text * list text) :=
  [ (str "government_agencies",
      [ str "\b(VA|GSA|DOD|DHS|USACE|NAVY|ARMY|AIR FORCE|MARINES)\b";
        str "\b(Department of [A-Za-z\s]+)\b";
        str "\b(U\.S\. [A-Za-z\s]+ Administration)\b";
        str "\b([A-Z]{2,5} Command)\b" ]);
    (str "contact_info",
      [ str "\b[A-Za-z0-9._%+-]+@[A-Za-z0-9.-]+\.[A-Z|a-z]{2,}\b";
        str "\b\d{3}[-.]?\d{3}[-.]?\d{4}\b";
        str "\bhttps?://[^\s]+\b";
        str "\bwww\.[^\s]+\b" ]);
    (str "federal_codes",
      [ str "\bDUNS\s*:?\s*\d+\b";
        str "\bUEI\s*:?\s*[A-Z0-9]+\b";
        str "\bSAM\s*:?\s*[A-Z0-9]+\b";
        str "\bCAGE\s*:?\s*[A-Z0-9]+\b";
        str "\bSolicitation\s*:?\s*[A-Z0-9\-]+\b";
        str "\bContract\s*:?\s*[A-Z0-9\-]+\b" ]);
    (str "specific_locations",
      [ str "\b\d+\s+[A-Za-z\s]+(Street|St|Avenue|Ave|Road|Rd|Drive|Dr|Boulevard|Blvd)\b";
        str "\b[A-Za-z\s]+\s+Building\s+\d+\b";
        str "\b[A-Za-z\s]+\s+(Base|AFB|Naval|Fort)\b" ]) ].

Definition REDACTED : text := str "[REDACTED]".

(** The patterns compiled; [None] stands for the [re.error] an ill-formed
    pattern raises when it is used. *)
Fixpoint compile_all (ps : list text) : option (list regex) :=
  match ps with
  | [] => Some []
  | p :: ps' =>
      match re_compile p, compile_all ps' with
      | Some r, Some rs => Some (r :: rs)
      | _, _ => None
      end
  end.

Fixpoint compile_table (tbl : list (text * list text)) : option (list (text * list regex)) :=
  match tbl with
  | [] => Some []
  | (category, ps) :: tbl' =>
      match compile_all ps, compile_table tbl' with
      | Some rs, Some tbl'' => Some ((category, rs) :: tbl'')
      | _, _ => None
      end
  end.

Section Redactor.
Context {db : UnicodeDB}.

(** The body of the inner loop of [_redact_text]. *)
Definition redact_pattern (category : text) (st : text * list text) (pattern : regex)
  : text * list text :=
  let (redacted_text, redactions) := st in
  let matches := findall IGNORECASE pattern redacted_text in
  match matches with
  | [] => st
  | _ :: _ =>
      (sub IGNORECASE pattern REDACTED redacted_text,
       redactions ++ map (fun m => str "Removed " ++ category ++ str ": " ++ m) matches)
  end.

Definition redact_category (st : text * list text) (entry : text * list regex)
  : text * list text :=
  fold_left (redact_pattern (fst entry)) (snd entry) st.

Definition redact_with (tbl : list (text * list regex)) (t : text) : text * list text :=
  fold_left redact_category tbl (t, []).

(** [_redact_text]; [None] is a raised exception. *)
Definition _redact_text (t : text) : option (text * list text) :=
  match compile_table _init_redaction_patterns with
  | Some tbl => Some (redact_with tbl t)
  | None => None
  end.

(** The loop of [redact_content] over the items of the copy. *)
Fixpoint redact_items (items : pydict) (acc : pydict * list text)
  : option (pydict * list text) :=
  match items with
  | [] => Some acc
  | (section_key, section_content) :: rest =>
      match section_content with
      | PStr s =>
          match _redact_text s with
          | Some (redacted_text, section_redactions) =>
              redact_items rest
                (dict_set section_key (PStr redacted_text) (fst acc),
                 snd acc ++ map (fun r => section_key ++ str ": " ++ r) section_redactions)
          | None => None
          end
      | _ => redact_items rest acc
      end
  end.

(** [redact_content]; [now] is what [datetime.utcnow()] reads, [None] the
    exception the method raises when anything inside it raises. *)
Definition redact_content (content : pydict) (now : datetime)
  : option (pydict * list text) :=
  match redact_items content (content, []) with
  | Some (redacted_content, redaction_summary) =>
      Some (dict_set (str "redaction_timestamp") (PStr (isoformat now))
              (dict_set (str "redaction_applied") (PBool true) redacted_content),
            redaction_summary)
  | None => None
  end.

End Redactor.

(** ** Exceptions and results *)

(** An exception the interpreter or a library raises.  The program looks
    at an exception in two ways only: a handler catches it or not by its
    class, and its text, [str(e)], is put in a message.  The text of these
    is a parameter ([builtin_str] below).  [JSONDecodeError] is a subclass
    of [ValueError]: a handler for [JSONDecodeError] catches neither a
    plain [ValueError] nor a [RecursionError]. *)
Inductive builtin : Type :=
| TypeError (about : pyval)
| AttributeError (about : pyval)
| KeyError (key : text)
| ReError
| JSONDecodeError
| ValueError
| RecursionError.

(** [Failure msg] is an exception of a service, whose text is [msg];
    [Wrapped prefix e] is [Exception(f"{prefix}{str(e)}")]. *)
Inductive pyexn : Type :=
| Builtin (b : builtin)
| Failure (msg : text)
| Wrapped (prefix : text) (e : pyexn).

(** A call returns a value or raises. *)
Inductive result (A : Type) : Type :=
| Ok (a : A)
| Raise (e : pyexn).
Arguments Ok {A} a.
Arguments Raise {A} e.

Definition bind (A B : Type) (r : result A) (k : A -> result B) : result B :=
  match r with
  | Ok a => k a
  | Raise e => Raise e
  end.

Notation "x <- r ;; k" := (bind r (fun x => k))
  (at level 61, r at next level, right associativity).
Notation "' p <- r ;; k" := (bind r (fun x => let 'p := x in k))
  (at level 61, p pattern, r at next level, right associativity).

(** The limits of the interpreter the decoder can run into.
    [int_max_str_digits] is [sys.get_int_max_str_digits()], the longest
    integer numeral [int] converts: 4300 unless it is set otherwise, 0 when
    there is no limit.  [json_max_depth] is the number of objects and
    arrays, one inside the other, that the decoder can enter before the
    interpreter raises [RecursionError]; it is what the recursion limit
    leaves at the depth of the call. *)
Class Limits : Type := {
  int_max_str_digits : nat;
  json_max_depth : nat
}.

(** ** [json.loads]

    The decoder of CPython's [json] module on a [str], with its default
    settings.  It returns the value or raises: [JSONDecodeError] on a text
    that is not JSON, and, at the limits of the interpreter ([Limits]),
    [ValueError] on an integer numeral that is too long and
    [RecursionError] on objects and arrays nested too deep. *)

Definition is_json_ws (c : char) : bool :=
  (c =? chr " ")%N || (c =? 9)%N || (c =? 10)%N || (c =? 13)%N.

Fixpoint skip_ws (s : text) : text :=
  match s with
  | c :: s' => if is_json_ws c then skip_ws s' else s
  | [] => []
  end.

Definition hex_val (c : char) : option N :=
  if ascii_digit c then Some (c - chr "0")%N
  else if in_range (chr "a") (chr "f") c then Some (c - chr "a" + 10)%N
  else if in_range (chr "A") (chr "F") c then Some (c - chr "A" + 10)%N
  else None.

Definition hex4 (a b c d : char) : option N :=
  match hex_val a, hex_val b, hex_val c, hex_val d with
  | Some x, Some y, Some z, Some w => Some (((x * 16 + y) * 16 + z) * 16 + w)%N
  | _, _, _, _ => None
  end.

Definition simple_escape (e : char) : option char :=
  if (e =? dquote)%N || (e =? chr "\")%N || (e =? chr "/")%N then Some e
  else if (e =? chr "b")%N then Some 8%N
  else if (e =? chr "f")%N then Some 12%N
  else if (e =? chr "n")%N then Some 10%N
  else if (e =? chr "r")%N then Some 13%N
  else if (e =? chr "t")%N then Some 9%N
  else None.

Definition is_high_surrogate (u : N) : bool := in_range 55296%N 56319%N u.
Definition is_low_surrogate (u : N) : bool := in_range 56320%N 57343%N u.
Definition join_surrogates (hi lo : N) : N :=
  (65536 + (hi - 55296) * 1024 + (lo - 56320))%N.

(** [scanstring] in strict mode, from the character after the opening
    quote; [acc] is what was decoded so far, reversed. *)
Fixpoint scanstring (s : text) (acc : text) : option (text * text) :=
  match s with
  | [] => None
  | c :: s1 =>
      if (c =? dquote)%N then Some (rev acc, s1)
      else if (c <=? 31)%N then None
      else if (c =? chr "\")%N then
        match s1 with
        | [] => None
        | e :: s2 =>
            if (e =? chr "u")%N then
              match s2 with
              | h1 :: h2 :: h3 :: h4 :: s3 =>
                  match hex4 h1 h2 h3 h4 with
                  | None => None
                  | Some u =>
                      match s3 with
                      | b :: v :: g1 :: g2 :: g3 :: g4 :: (_ :: _) as s4 =>
                          if is_high_surrogate u && (b =? chr "\")%N && (v =? chr "u")%N then
                            match hex4 g1 g2 g3 g4 with
                            | None => None
                            | Some u2 =>
                                if is_low_surrogate u2
                                then scanstring s4 (join_surrogates u u2 :: acc)
                                else scanstring s3 (u :: acc)
                            end
                          else scanstring s3 (u :: acc)
                      | _ => scanstring s3 (u :: acc)
                      end
                  end
              | _ => None
              end
            else
              match simple_escape e with
              | Some d => scanstring s2 (d :: acc)
              | None => None
              end
        end
      else scanstring s1 (c :: acc)
  end.

Fixpoint take_digits (s : text) : text * text :=
  match s with
  | c :: s' =>
      if ascii_digit c then let (ds, r) := take_digits s' in (c :: ds, r) else ([], s)
  | [] => ([], [])
  end.

Definition digits_value (ds : text) : N :=
  fold_left (fun acc d => (10 * acc + (d - chr "0"))%N) ds 0%N.

(** [strip_prefix p s] is what follows [p] in [s], when [s] starts with [p]. *)
Fixpoint strip_prefix (p s : text) : option text :=
  match p, s with
  | [], _ => Some s
  | a :: p', b :: s' => if (a =? b)%N then strip_prefix p' s' else None
  | _ :: _, [] => None
  end.

Section Decoder.
Context {lim : Limits}.

Local Abbreviation decode_error := (Raise (Builtin JSONDecodeError)).

(** [int] refuses a numeral of more digits than the limit, when there is
    one; the sign does not count. *)
Definition too_many_digits (ds : text) : bool :=
  (0 <? int_max_str_digits) && (int_max_str_digits <? List.length ds).

(** A number: integer part, then a fraction and an exponent when they are
    complete.  With neither the value is an [int], which raises
    [ValueError] when the numeral is too long; otherwise it is a [float]. *)
Definition scan_number (s : text) : result (pyval * text) :=
  let (neg, s1) :=
    match s with
    | c :: s' => if (c =? chr "-")%N then (true, s') else (false, s)
    | [] => (false, s)
    end in
  let int_part :=
    match s1 with
    | d :: s2 =>
        if (d =? chr "0")%N then Some ([d], s2)
        else if ascii_digit d then Some (take_digits s1)
        else None
    | [] => None
    end in
  match int_part with
  | None => decode_error
  | Some (ids, s2) =>
      let (fds, s3) :=
        match s2 with
        | c :: s' =>
            if (c =? chr ".")%N then
              match take_digits s' with
              | ([], _) => ([], s2)
              | (ds, r) => (ds, r)
              end
            else ([], s2)
        | [] => ([], s2)
        end in
      let '(ex, s4) :=
        match s3 with
        | c :: s' =>
            if (c =? chr "e")%N || (c =? chr "E")%N then
              let (eneg, s'') :=
                match s' with
                | sg :: r =>
                    if (sg =? chr "-")%N then (true, r)
                    else if (sg =? chr "+")%N then (false, r)
                    else (false, s')
                | [] => (false, s')
                end in
              match take_digits s'' with
              | ([], _) => (None, s3)
              | (ds, r) =>
                  (Some (if eneg then (- Z.of_N (digits_value ds))%Z
                         else Z.of_N (digits_value ds)), r)
              end
            else (None, s3)
        | [] => (None, s3)
        end in
      match fds, ex with
      | [], None =>
          if too_many_digits ids then Raise (Builtin ValueError)
          else Ok (PInt (if neg then (- Z.of_N (digits_value ids))%Z
                         else Z.of_N (digits_value ids)), s4)
      | _, _ =>
          Ok (PFloat (FDec neg (digits_value (ids ++ fds))
                        (match ex with Some e => e | None => 0%Z end
                         - Z.of_nat (List.length fds))%Z), s4)
      end
  end.

Definition scan_constant (s : text) : result (pyval * text) :=
  match strip_prefix (str "null") s with
  | Some r => Ok (PNone, r)
  | None =>
  match strip_prefix (str "true") s with
  | Some r => Ok (PBool true, r)
  | None =>
  match strip_prefix (str "false") s with
  | Some r => Ok (PBool false, r)
  | None =>
  match strip_prefix (str "NaN") s with
  | Some r => Ok (PFloat FNaN, r)
  | None =>
  match strip_prefix (str "Infinity") s with
  | Some r => Ok (PFloat (FInf false), r)
  | None =>
  match strip_prefix (str "-Infinity") s with
  | Some r => Ok (PFloat (FInf true), r)
  | None => scan_number s
  end end end end end end.

(** [scan_once] reads one value; [parse_members] and [parse_elements] read
    what follows the opening brace or bracket of an object or an array that
    is not empty.  The text is read from left to right and the first
    failure is the outcome: [JSONDecodeError] where the text is not JSON,
    [ValueError] at an integer numeral that is too long, [RecursionError]
    at the opening brace or bracket of an object or array when [depth], the
    number of those that can still be entered, is zero.  A call spends one
    unit of [fuel] and two calls in a row read at least one character, so
    twice the length of the text is enough ([json_loads_fuel]). *)
Fixpoint scan_once (fuel depth : nat) (s : text) : result (pyval * text) :=
  match fuel with
  | 0 => decode_error
  | S fuel' =>
      match s with
      | [] => decode_error
      | c :: s1 =>
          if (c =? dquote)%N then
            match scanstring s1 [] with
            | Some (v, r) => Ok (PStr v, r)
            | None => decode_error
            end
          else if (c =? chr "{")%N then
            match depth with
            | 0 => Raise (Builtin RecursionError)
            | S depth' =>
                match skip_ws s1 with
                | d :: s2 =>
                    if (d =? chr "}")%N then Ok (PDict [], s2)
                    else parse_members fuel' depth' (d :: s2) []
                | [] => decode_error
                end
            end
          else if (c =? chr "[")%N then
            match depth with
            | 0 => Raise (Builtin RecursionError)
            | S depth' =>
                match skip_ws s1 with
                | d :: s2 =>
                    if (d =? chr "]")%N then Ok (PList [], s2)
                    else parse_elements fuel' depth' (d :: s2) []
                | [] => decode_error
                end
            end
          else scan_constant s
      end
  end
with parse_members (fuel depth : nat) (s : text) (acc : pydict) : result (pyval * text) :=
  match fuel with
  | 0 => decode_error
  | S fuel' =>
      match s with
      | [] => decode_error
      | q :: s1 =>
          if (q =? dquote)%N then
            match scanstring s1 [] with
            | None => decode_error
            | Some (key, s2) =>
                match skip_ws s2 with
                | [] => decode_error
                | c :: s3 =>
                    if (c =? chr ":")%N then
                      match scan_once fuel' depth (skip_ws s3) with
                      | Raise e => Raise e
                      | Ok (v, s4) =>
                          let acc' := dict_set key v acc in
                          match skip_ws s4 with
                          | [] => decode_error
                          | d :: s5 =>
                              if (d =? chr "}")%N then Ok (PDict acc', s5)
                              else if (d =? chr ",")%N
                              then parse_members fuel' depth (skip_ws s5) acc'
                              else decode_error
                          end
                      end
                    else decode_error
                end
            end
          else decode_error
      end
  end
with parse_elements (fuel depth : nat) (s : text) (acc : list pyval) : result (pyval * text) :=
  match fuel with
  | 0 => decode_error
  | S fuel' =>
      match scan_once fuel' depth s with
      | Raise e => Raise e
      | Ok (v, s1) =>
          match skip_ws s1 with
          | [] => decode_error
          | d :: s2 =>
              if (d =? chr "]")%N then Ok (PList (acc ++ [v]), s2)
              else if (d =? chr ",")%N
              then parse_elements fuel' depth (skip_ws s2) (acc ++ [v])
              else decode_error
          end
      end
  end.

(** [s.startswith('\ufeff')] *)
Definition starts_with_bom (s : text) : bool :=
  match s with
  | c :: _ => (c =? 65279)%N
  | [] => false
  end.

(** [json.loads] on a [str]: a text that starts with a byte order mark is
    refused; otherwise one value is read after the leading white space, and
    only white space may follow it. *)
Definition json_loads (s : text) : result pyval :=
  if starts_with_bom s then decode_error
  else
    match scan_once (2 * List.length s + 2) json_max_depth (skip_ws s) with
    | Ok (v, r) =>
        match skip_ws r with
        | [] => Ok v
        | _ :: _ => decode_error
        end
    | Raise e => Raise e
    end.

End Decoder.

(** ** [services/ai_extractor.py] *)

Definition DOTALL : flags := {| ignorecase := false; dotall := true |}.

Definition not_specified : pyval := PStr (str "Not specified").

Definition _manual_parse_response (response_text : text) : pyval :=
  PDict
    [ (str "project_overview", PStr (str "AI extraction completed but formatting failed"));
      (str "scope_of_work", PStr (firstn 500 response_text ++ str "..."));
      (str "deliverables", not_specified);
      (str "timeline", not_specified);
      (str "location", not_specified);
      (str "submission_requirements", not_specified);
      (str "technical_requirements", not_specified);
      (str "qualifications", not_specified);
      (str "evaluation_criteria", not_specified);
      (str "extracted_sections", PList [PStr (str "raw_content")]);
      (str "confidence_score", PFloat (FDec false 5 (-1))) ].

Section Extractor.
Context {db : UnicodeDB} {lim : Limits}.

(** [_parse_extraction_response].  The handler catches [JSONDecodeError]
    only: any other exception of [json.loads] leaves the method. *)
Definition _parse_extraction_response (response_text : text) : result pyval :=
  match re_compile (str "\{.*\}") with
  | None => Raise (Builtin ReError)
  | Some pattern =>
      match search DOTALL pattern response_text with
      | Some json_match =>
          let json_str := m_text response_text json_match in
          match json_loads json_str with
          | Ok v => Ok v
          | Raise (Builtin JSONDecodeError) => Ok (_manual_parse_response response_text)
          | Raise e => Raise e
          end
      | None => Ok (_manual_parse_response response_text)
      end
  end.

End Extractor.

(** ** The vocabulary of the specification *)

(** The nine section keys. *)
Definition section_keys : list text :=
  [ str "project_overview"; str "scope_of_work"; str "deliverables"; str "timeline";
    str "location"; str "submission_requirements"; str "technical_requirements";
    str "qualifications"; str "evaluation_criteria" ].

Definition k_extracted_sections : text := str "extracted_sections".
Definition k_confidence_score : text := str "confidence_score".
Definition k_redaction_applied : text := str "redaction_applied".
Definition k_redaction_timestamp : text := str "redaction_timestamp".

Definition is_str (v : pyval) : bool :=
  match v with PStr _ => true | _ => false end.

Fixpoint starts_with (p s : text) : bool :=
  match p, s with
  | [], _ => true
  | a :: p', b :: s' => (a =? b)%N && starts_with p' s'
  | _ :: _, [] => false
  end.

(** The compiled table of patterns. *)
Definition redaction_table : list (text * list regex) :=
  Eval vm_compute in
    match compile_table _init_redaction_patterns with
    | Some tbl => tbl
    | None => []
    end.

Definition brace_pattern : regex :=
  Eval vm_compute in
    match re_compile (str "\{.*\}") with
    | Some r => r
    | None => REmpty
    end.


(** ** The redaction as a function of the text

    What the two loops of [_redact_text] compute, written by recursion on
    the table: the text a pattern is applied to is the text the patterns
    before it have left, and the entries come out category after category,
    pattern after pattern, match after match. *)

Definition entry_of (category m : text) : text :=
  str "Removed " ++ category ++ str ": " ++ m.

Definition tagged (section_key r : text) : text := section_key ++ str ": " ++ r.

Section Ordered.
Context {db : UnicodeDB}.

Definition text_after_patterns (ps : list regex) (t : text) : text :=
  fold_left (fun t' p => sub IGNORECASE p REDACTED t') ps t.

Fixpoint entries_patterns (category : text) (ps : list regex) (t : text) : list text :=
  match ps with
  | [] => []
  | p :: ps' =>
      map (entry_of category) (findall IGNORECASE p t)
        ++ entries_patterns category ps' (sub IGNORECASE p REDACTED t)
  end.

Definition text_after_table (tbl : list (text * list regex)) (t : text) : text :=
  fold_left (fun t' e => text_after_patterns (snd e) t') tbl t.

Fixpoint entries_table (tbl : list (text * list regex)) (t : text) : list text :=
  match tbl with
  | [] => []
  | (category, ps) :: tbl' =>
      entries_patterns category ps t ++ entries_table tbl' (text_after_patterns ps t)
  end.

(** The redacted text of a section and its audit entries. *)
Definition redacted (t : text) : text := text_after_table redaction_table t.
Definition redactions (t : text) : list text := entries_table redaction_table t.

(** What [redact_content] does to one item of the record. *)
Definition redact_value (v : pyval) : pyval :=
  match v with
  | PStr s => PStr (redacted s)
  | _ => v
  end.

Definition item_entries (kv : text * pyval) : list text :=
  match snd kv with
  | PStr s => map (tagged (fst kv)) (redactions s)
  | _ => []
  end.

(** The summary, section after section. *)
Definition ordered_summary (content : pydict) : list text := flat_map item_entries content.

(** The record before the two stamps are set. *)
Definition redacted_items (content : pydict) : pydict :=
  map (fun kv => (fst kv, redact_value (snd kv))) content.

Definition stamped (now : datetime) (d : pydict) : pydict :=
  dict_set k_redaction_timestamp (PStr (isoformat now))
    (dict_set k_redaction_applied (PBool true) d).

End Ordered.

Arguments _redact_text : simpl never.
Arguments redacted : simpl never.
Arguments redactions : simpl never.
Arguments isoformat : simpl never.

(** A Python [dict] has no key twice. *)
Definition dict_ok (d : pydict) : Prop := NoDup (dict_keys d).

(** The limits of an interpreter with its default settings, in a call that
    leaves the decoder [depth] objects and arrays to enter; 994 is what a
    recursion limit of 1000 leaves in a call from a script. *)
Definition cpython_limits (depth : nat) : Limits :=
  {| int_max_str_digits := 4300; json_max_depth := depth |}.

Definition sample_limits : Limits := cpython_limits 994.

(** The decoder raises nothing but [JSONDecodeError], [ValueError] and
    [RecursionError]. *)
Definition decoder_error (e : pyexn) : Prop :=
  e = Builtin JSONDecodeError \/ e = Builtin ValueError \/ e = Builtin RecursionError.

(** ** Scenarios of the specification *)

(** A reading of the clock for closed statements. *)
Definition epoch : datetime :=
  {| year := 1970; month := 1; day := 1; hour := 0; minute := 0; second := 0;
     microsecond := 0 |}.

(** The end-to-end scenario. *)
Definition scenario_record : pydict :=
  [ (str "location", PStr (str "Wright-Patterson AFB, Ohio"));
    (str "technical_requirements", PStr (str "Contact: rfq@agency.gov")) ].

(** The literal examples, each with its category. *)
Definition completeness_examples : list (text * text) :=
  [ (str "DOD", str "government_agencies");
    (str "jane@example.com", str "contact_info");
    (str "555-123-4567", str "contact_info");
    (str "https://example.com/x", str "contact_info");
    (str "DUNS: 123456789", str "federal_codes");
    (str "123 Main Street", str "specific_locations");
    (str "Smith AFB", str "specific_locations") ].

(** The result of redacting a record: the section [k] reads [[REDACTED]]
    and the summary is one entry, of section [k] and of [category]. *)
Definition single_redaction (k category : text) (res : option (pydict * list text)) : Prop :=
  match res with
  | Some (out, [e]) =>
      dict_get k out = Some (PStr REDACTED)
      /\ starts_with (tagged k (entry_of category [])) e = true
  | _ => False
  end.

(** A second reading of the clock, one second later. *)
Definition epoch_later : datetime :=
  {| year := 1970; month := 1; day := 1; hour := 0; minute := 0; second := 1;
     microsecond := 0 |}.

(** The record without its fields that are not strings. *)
Definition string_fields (content : pydict) : pydict :=
  filter (fun kv => is_str (snd kv)) content.

(** A field of a value that is a record. *)
Definition record_get (k : text) (v : pyval) : option pyval :=
  match v with
  | PDict d => dict_get k d
  | _ => None
  end.

(** The sections the fallback marks as not specified. *)
Definition unspecified_in_fallback : list text :=
  [ str "deliverables"; str "timeline"; str "location"; str "submission_requirements";
    str "technical_requirements"; str "qualifications"; str "evaluation_criteria" ].

Definition fallback_notice : text := str "AI extraction completed but formatting failed".

(** The record the specification describes for the primary path: the
    decoded record with every missing section key set to "Not specified",
    a missing [extracted_sections] to the empty list and a missing
    [confidence_score] to 0.0. *)
Definition spec_filled (d : pydict) : pydict :=
  let fill (k : text) (v : pyval) (acc : pydict) :=
    match dict_get k acc with
    | Some _ => acc
    | None => dict_set k v acc
    end in
  fill k_confidence_score (PFloat (FDec false 0 (-1)))
    (fill k_extracted_sections (PList [])
       (fold_left (fun acc k => fill k not_specified acc) section_keys d)).

(** The fallback is taken: no brace-delimited literal is found, or the one
    found is not JSON ([json.loads] raises [JSONDecodeError]). *)
Definition fallback_taken {db : UnicodeDB} {lim : Limits} (response_text : text) : Prop :=
  match search DOTALL brace_pattern response_text with
  | None => True
  | Some json_match =>
      json_loads (m_text response_text json_match) = Raise (Builtin JSONDecodeError)
  end.

(** What closing a literal at offset [k] after the opening brace gives. *)
Definition close_at (t : text) (i k : nat) : list mstate :=
  match nth_error t (S i + k) with
  | Some d => if (d =? chr "}")%N then [(S (S i + k), [])] else []
  | None => []
  end.

(** A record with a section, a key that is not a section and the two
    metadata fields. *)
Definition metadata_record : pydict :=
  [ (str "location", PStr (str "Smith AFB"));
    (str "notes", PStr (str "call 555-123-4567"));
    (k_extracted_sections, PList [PStr (str "location")]);
    (k_confidence_score, PFloat (FDec false 95 (-2))) ].

(** A literal with one section only. *)
Definition overview_only : text :=
  str "{" ++ quoted "project_overview" ++ str ": " ++ quoted "x" ++ str "}".

(** A literal whose only member is an integer of [n] digits. *)
Definition integer_answer (n : nat) : text :=
  str "{" ++ quoted "n" ++ str ": " ++ repeat (chr "1") n ++ str "}".

(** One digit more than [int] converts by default. *)
Definition long_integer_answer : text := integer_answer 4301.

(** ** Vocabulary of the idempotence argument *)

(** The atoms of a pattern, and whether some atom of it accepts [c]. *)
Fixpoint atoms_of (r : regex) : list atom :=
  match r with
  | REmpty | RBoundary => []
  | RAtom a | RRep a _ _ => [a]
  | RSeq r1 r2 | RAlt r1 r2 => atoms_of r1 ++ atoms_of r2
  | RGroup _ r1 => atoms_of r1
  end.

Definition may_match {db : UnicodeDB} (fl : flags) (r : regex) (c : char) : bool :=
  existsb (fun a => atom_match fl a c) (atoms_of r).

(** The least number of characters a match of [r] takes. *)
Fixpoint min_len (r : regex) : nat :=
  match r with
  | REmpty | RBoundary => 0
  | RAtom _ => 1
  | RRep _ lo _ => lo
  | RSeq r1 r2 => min_len r1 + min_len r2
  | RAlt r1 r2 => Nat.min (min_len r1) (min_len r2)
  | RGroup _ r1 => min_len r1
  end.

(** The pieces of a sequence, and a sequence between two word boundaries. *)
Fixpoint seq_items (r : regex) : list regex :=
  match r with
  | RSeq r1 r2 => r1 :: seq_items r2
  | REmpty => []
  | _ => [r]
  end.

Definition framed (core : list regex) : regex := seq_of (RBoundary :: core ++ [RBoundary]).

Definition core_of (p : regex) : list regex := removelast (tl (seq_items p)).

(** The patterns of the table, in the order they are applied. *)
Definition all_patterns : list regex := List.concat (map snd redaction_table).

Definition not_space : atom := ASet true [CSpace].

(** A pattern that ends in a run of characters that are not white space:
    what comes before the run, when [p] is such a pattern. *)
Definition url_prefix (p : regex) : option (list regex) :=
  match rev (core_of p) with
  | RRep (ASet true [CSpace]) 1 None :: rpre => Some (rev rpre)
  | _ => None
  end.

(** No code point is both white space and a word character. *)
Definition db_consistent {db : UnicodeDB} : Prop :=
  forall c, is_space c = true -> is_word c = false.

(** [i] lies in none of the matches [ms]. *)
Definition in_gap (ms : list rmatch) (i : nat) : Prop :=
  forall m, In m ms -> i < m_start m \/ m_end m <= i.

(** [p] has no match in [t]. *)
Definition quiet {db : UnicodeDB} (p : regex) (t : text) : Prop :=
  forall i, match_at IGNORECASE t p i = None.

(** The text with the characters from [s] to [e] replaced by [repl]. *)
Definition replace_span (repl : text) (s e : nat) (t : text) : text :=
  firstn s t ++ repl ++ skipn e t.

(** The two texts agree on [n] characters from [i1] and [i2], and a word
    boundary of the first in that stretch is one of the second. *)
Definition agree {db : UnicodeDB} (t1 : text) (i1 : nat) (t2 : text) (i2 : nat) (n : nat) : Prop :=
  (forall k, k < n -> exists c, nth_error t1 (i1 + k) = Some c /\ nth_error t2 (i2 + k) = Some c)
  /\ (forall k, k <= n -> boundary t1 (i1 + k) = true -> boundary t2 (i2 + k) = true).

(** A text in which the placeholder stands between two word characters. *)
Definition probe : text := str "w[REDACTED]w".

Section Behaviour.
Context {db : UnicodeDB}.

(** A pattern none of whose atoms accepts a bracket, and which has no match
    that starts inside the placeholder. *)
Definition plain_ok (p : regex) : bool :=
  negb (may_match IGNORECASE p (chr "["))
  && negb (may_match IGNORECASE p (chr "]"))
  && forallb (fun i => match rx_run IGNORECASE probe p (i, []) with
                       | [] => true
                       | _ :: _ => false
                       end) (seq 1 10).

(** A pattern that ends in a run of characters that are not white space,
    after a prefix that starts with an atom accepting no character of the
    placeholder, ends with a literal separator that is not a word character,
    and accepts no opening bracket. *)
Definition url_ok (p : regex) : bool :=
  match url_prefix p with
  | Some pre =>
      match pre, rev pre with
      | RAtom a1 :: _, RAtom (ALit sep) :: _ =>
          forallb (fun c => negb (atom_match IGNORECASE a1 c)) REDACTED
          && negb (is_cased sep) && negb (is_word sep)
          && negb (may_match IGNORECASE (seq_of pre) (chr "["))
      | _, _ => false
      end
  | None => false
  end.

(** What the idempotence argument asks of a pattern. *)
Definition well_behaved (p : regex) : Prop :=
  p = framed (core_of p)
  /\ 1 <= min_len p
  /\ (plain_ok p = true \/ url_ok p = true).

End Behaviour.

(** The matches replaced one at a time, the last one first. *)
Definition replace_all (repl : text) (ms : list rmatch) (t : text) : text :=
  fold_right (fun m acc => replace_span repl (m_start m) (m_end m) acc) t ms.

(** Matches of [t] that are not empty, lie from [lo] on and follow one
    another without overlap. *)
Fixpoint spans_ok (t : text) (ms : list rmatch) (lo : nat) : Prop :=
  match ms with
  | [] => True
  | m :: ms' =>
      lo <= m_start m /\ m_start m < m_end m /\ m_end m <= List.length t
      /\ spans_ok t ms' (m_end m)
  end.

(** Matches that start and end at word boundaries. *)
Definition at_boundaries {db : UnicodeDB} (t : text) (ms : list rmatch) : Prop :=
  forall m, In m ms -> boundary t (m_start m) = true /\ boundary t (m_end m) = true.

(** Two characters that the word test and the atoms [atoms] do not tell
    apart, and two texts that are so character by character. *)
Definition same_class {db : UnicodeDB} (fl : flags) (atoms : list atom) (c1 c2 : char) : Prop :=
  is_word c1 = is_word c2
  /\ forall a, In a atoms -> atom_match fl a c1 = atom_match fl a c2.

Definition alike {db : UnicodeDB} (fl : flags) (atoms : list atom) (t1 t2 : text) : Prop :=
  Forall2 (same_class fl atoms) t1 t2.

(** All the atoms of the table. *)
Definition all_atoms : list atom := flat_map atoms_of all_patterns.

(** A reading of the clock with a fraction of a second. *)
Definition epoch_micro : datetime :=
  {| year := 1970; month := 1; day := 1; hour := 0; minute := 0; second := 0;
     microsecond := 1 |}.

(** [p] has no match in [t] at the positions of [t]. *)
Definition no_match_in {db : UnicodeDB} (p : regex) (t : text) : bool :=
  forallb (fun i => match rx_run IGNORECASE t p (i, []) with
                    | [] => true
                    | _ :: _ => false
                    end) (seq 0 (S (List.length t))).

(** A value that redaction leaves as it is and finds nothing in. *)
Definition settled {db : UnicodeDB} (v : pyval) : Prop :=
  match v with
  | PStr s => redacted s = s /\ redactions s = []
  | _ => True
  end.

(** A record all of whose values are settled. *)
Definition all_settled {db : UnicodeDB} (d : pydict) : Prop :=
  Forall (fun kv => settled (snd kv)) d.

(** ** The library calls at sample inputs *)

(** [re.findall(pattern, string, flags)] and
    [re.sub(pattern, repl, string, flags=flags)] with the pattern as the
    string it is written as; [None] is [re.error]. *)
Definition re_findall {db : UnicodeDB} (pattern t : text) (fl : flags) : option (list text) :=
  option_map (fun r => findall fl r t) (re_compile pattern).

Definition re_sub {db : UnicodeDB} (pattern repl t : text) (fl : flags) : option text :=
  option_map (fun r => sub fl r repl t) (re_compile pattern).

(** The [n]th pattern of a category of the table. *)
Definition pattern_of (category : string) (n : nat) : text :=
  match find (fun e => text_eqb (fst e) (str category)) _init_redaction_patterns with
  | Some (_, ps) => nth n ps []
  | None => []
  end.

(** What the redactor asks of one pattern: the list [findall] gives and the
    text [sub] gives. *)
Definition found_and_replaced (category : string) (n : nat) (t : string)
  : option (list text) * option text :=
  (re_findall (db := plain_db) (pattern_of category n) (str t) IGNORECASE,
   re_sub (db := plain_db) (pattern_of category n) REDACTED (str t) IGNORECASE).

(** A text written with single quotes for its double quotes. *)
Definition single_quoted (s : string) : text :=
  map (fun c => if (c =? chr "'")%N then dquote else c) (str s).
Arguments single_quoted s%_string.

(** ** Vocabulary of the facts about a redacted text *)

(** [p] occurs in [t]. *)
Definition occurs (p t : text) : Prop := exists a b, t = a ++ p ++ b.

(** A text without word character. *)
Definition wordless {db : UnicodeDB} (t : text) : Prop := Forall (fun c => is_word c = false) t.


(** ** What lies outside the program *)

(** The arguments of [client.chat.completions.create]; a message is a role
    and a content. *)
Record chat_request : Type := {
  model : text;
  messages : list (text * text);
  temperature : pyfloat;
  max_tokens : N
}.

(** What the program calls and does not define: the environment
    ([os.getenv]); the chat service, of whose answer the program reads
    [response.choices[0].message.content], which is [None] when the message
    has no content; the generator of [services/rfq_generator.py], taken to
    leave its arguments as they are; the text the interpreter gives for a
    value that is not a string in an f-string, and for an exception it
    raises. *)
Class Outside : Type := {
  os_getenv : text -> option text;
  chat_create : chat_request -> result (option text);
  generate_rfq : pydict -> pyval -> result pyval;
  format_value : pyval -> text;
  builtin_str : builtin -> text
}.

(** [str(e)]. *)
Fixpoint exn_str {outside : Outside} (e : pyexn) : text :=
  match e with
  | Builtin b => builtin_str b
  | Failure msg => msg
  | Wrapped prefix e' => prefix ++ exn_str e'
  end.

(** ** Operations on values *)

(** The float nearest to [m] times ten to the [e] is zero: the number is
    at most half the least positive float, two to the -1074. *)
Definition float_is_zero (f : pyfloat) : bool :=
  match f with
  | FDec _ m e => (m =? 0)%N || ((e <? 0)%Z && (Z.of_N m * 2 ^ 1075 <=? 10 ^ (- e))%Z)
  | FInf _ | FNaN => false
  end.

(** [bool(v)]. *)
Definition truthy (v : pyval) : bool :=
  match v with
  | PNone => false
  | PBool b => b
  | PInt z => negb (z =? 0)%Z
  | PFloat f => negb (float_is_zero f)
  | PStr s => match s with [] => false | _ :: _ => true end
  | PList l => match l with [] => false | _ :: _ => true end
  | PDict d => match d with [] => false | _ :: _ => true end
  end.

(** [p] is a substring of [s]. *)
Fixpoint has_infix (p s : text) : bool :=
  starts_with p s || match s with [] => false | _ :: s' => has_infix p s' end.

(** [x in v] for a string [x]: a key of a [dict], an element of a [list], a
    substring of a [str]. *)
Definition py_in (x : text) (v : pyval) : result bool :=
  match v with
  | PDict d => Ok (match dict_get x d with Some _ => true | None => false end)
  | PList l => Ok (existsb (fun e => match e with PStr s => text_eqb s x | _ => false end) l)
  | PStr s => Ok (has_infix x s)
  | _ => Raise (Builtin (TypeError v))
  end.

(** [v[k]] for a string [k]. *)
Definition subscript (v : pyval) (k : text) : result pyval :=
  match v with
  | PDict d =>
      match dict_get k d with
      | Some x => Ok x
      | None => Raise (Builtin (KeyError k))
      end
  | _ => Raise (Builtin (TypeError v))
  end.

(** [v.get(k, default)]. *)
Definition get_or (v : pyval) (k : text) (default : pyval) : result pyval :=
  match v with
  | PDict d => Ok (match dict_get k d with Some x => x | None => default end)
  | _ => Raise (Builtin (AttributeError v))
  end.

(** [ls] joined by newlines. *)
Fixpoint unlines (ls : list text) : text :=
  match ls with
  | [] => []
  | l :: ls' =>
      match ls' with
      | [] => l
      | _ :: _ => l ++ 10%N :: unlines ls'
      end
  end.

(** ** [services/ai_extractor.py]: the prompt and the call of the service *)

Section Template.
Local Open Scope string_scope.

(** The lines of the f-string of [_build_extraction_prompt] before and
    after [{content}], with single quotes for its double quotes. *)
Definition prompt_lines_before : list string :=
  [ "";
    "Analyze this government RFQ document and extract the following information in JSON format:";
    "";
    "DOCUMENT CONTENT:";
    "" ].

Definition prompt_lines_after : list string :=
  [ "";
    "";
    "Please extract and structure the following sections:";
    "";
    "1. PROJECT_OVERVIEW: Main description and purpose";
    "2. SCOPE_OF_WORK: Detailed work requirements  ";
    "3. DELIVERABLES: Expected outputs and products";
    "4. TIMELINE: Important dates, deadlines, and duration";
    "5. LOCATION: Where work will be performed (extract only general region/state)";
    "6. SUBMISSION_REQUIREMENTS: How vendors should respond";
    "7. TECHNICAL_REQUIREMENTS: Specifications and standards";
    "8. QUALIFICATIONS: Required vendor capabilities";
    "9. EVALUATION_CRITERIA: How proposals will be judged";
    "";
    "IMPORTANT RULES:";
    "- Ignore cover pages, legal boilerplate, and federal acquisition regulations";
    "- Focus on actionable business requirements";
    "- Extract actual requirements, not procedural language";
    "- If a section is not clearly present, mark it as 'Not specified'";
    "- Provide clean, business-focused content suitable for vendor consumption";
    "";
    "Return the response in this JSON format:";
    "{";
    "    'project_overview': '...',";
    "    'scope_of_work': '...',";
    "    'deliverables': '...',";
    "    'timeline': '...',";
    "    'location': '...',";
    "    'submission_requirements': '...',";
    "    'technical_requirements': '...',";
    "    'qualifications': '...',";
    "    'evaluation_criteria': '...',";
    "    'extracted_sections': ['list of sections found'],";
    "    'confidence_score': 0.95";
    "}";
    "" ].

End Template.

Module AIExtractor.
Section AIExtractor.
Context {db : UnicodeDB} {lim : Limits} {outside : Outside}.

(** [health_check]: [bool] of what [os.getenv] returns, false for [None]
    and for the empty string. *)
Definition health_check : bool :=
  match os_getenv (str "OPENAI_API_KEY") with
  | Some (_ :: _) => true
  | _ => false
  end.

(** A value as an f-string shows it. *)
Definition fstring_value (v : pyval) : text :=
  match v with
  | PStr s => s
  | _ => format_value v
  end.

Definition _build_extraction_prompt (content options : pyval) : text :=
  unlines (map single_quoted prompt_lines_before)
    ++ fstring_value content
    ++ unlines (map single_quoted prompt_lines_after).

Definition system_message : text :=
  str "You are an expert at analyzing government RFQ documents and extracting key information.".

(** The request [extract_rfq_content] sends. *)
Definition extraction_request (prompt : text) : chat_request :=
  {| model := str "gpt-4-turbo-preview";
     messages := [ (str "system", system_message); (str "user", prompt) ];
     temperature := FDec false 1 (-1);
     max_tokens := 4000 |}.

(** [extract_rfq_content]: whatever is raised inside is raised again as an
    [Exception] whose text starts with "AI extraction failed: ".  A content
    that is [None] makes [re.search] raise a [TypeError]. *)
Definition extract_rfq_content (document_content options : pyval) : result pyval :=
  let failed (e : pyexn) : result pyval := Raise (Wrapped (str "AI extraction failed: ") e) in
  let prompt := _build_extraction_prompt document_content options in
  match chat_create (extraction_request prompt) with
  | Raise e => failed e
  | Ok None => failed (Builtin (TypeError PNone))
  | Ok (Some extracted_text) =>
      match _parse_extraction_response extracted_text with
      | Ok extracted_content => Ok extracted_content
      | Raise e => failed e
      end
  end.

End AIExtractor.
End AIExtractor.

(** ** [app.py] *)

(** What a view returns: a status and the value given to [jsonify]. *)
Record response : Type := { status : nat; body : pyval }.

Module App.
Section App.
Context {db : UnicodeDB} {lim : Limits} {outside : Outside}.

(** The view of [/api/health]. *)
Definition health_check : response :=
  let api_key_ok := AIExtractor.health_check in
  {| status := 200;
     body := PDict
       [ (str "status", PStr (if api_key_ok then str "healthy" else str "error"));
         (str "services",
           PDict [ (str "ai_extractor",
                    PStr (if api_key_ok then str "ready" else str "no_api_key")) ]) ] |}.

(** [redactor.redact_content(extracted)] on a value that need not be a
    [dict]: [copy] or [items] is missing on anything else, and what is
    raised inside [redact_content] is raised again as an [Exception]. *)
Definition redact_extracted (extracted : pyval) (now : datetime)
  : result (pydict * list text) :=
  let failed (e : pyexn) : result (pydict * list text) :=
    Raise (Wrapped (str "Content redaction failed: ") e) in
  match extracted with
  | PDict content =>
      match redact_content content now with
      | Some r => Ok r
      | None => failed (Builtin ReError)
      end
  | _ => failed (Builtin (AttributeError extracted))
  end.

(** The [dict] [process_document] returns. *)
Definition document_result (extracted : pyval) (redacted : pydict) (summary : list text)
           (final_rfq confidence_score : pyval) : pyval :=
  PDict
    [ (str "success", PBool true);
      (str "extracted_content", extracted);
      (str "redacted_content", PDict redacted);
      (str "redaction_summary", PList (map PStr summary));
      (str "final_rfq", final_rfq);
      (str "confidence_score", confidence_score) ].

Definition process_document (content company_info : pyval) (now : datetime) : result pyval :=
  extracted <- AIExtractor.extract_rfq_content content (PDict []) ;;
  '(redacted, summary) <- redact_extracted extracted now ;;
  final_rfq <- generate_rfq redacted company_info ;;
  confidence_score <- get_or extracted (str "confidence_score") (PFloat (FDec false 0 (-1))) ;;
  Ok (document_result extracted redacted summary final_rfq confidence_score).

(** The two answers of [process_rfq] that are not a result. *)
Definition no_content : response :=
  {| status := 400;
     body := PDict [ (str "success", PBool false); (str "error", PStr (str "No content")) ] |}.

Definition failure (e : pyexn) : response :=
  {| status := 500;
     body := PDict [ (str "success", PBool false); (str "error", PStr (exn_str e)) ] |}.

(** The view of [/api/process-rfq]; [get_json] is what
    [request.get_json()] returns or raises, [now] what the clock reads
    when the redactor asks. *)
Definition process_rfq (get_json : result pyval) (now : datetime) : response :=
  match get_json with
  | Raise e => failure e
  | Ok data =>
      if negb (truthy data) then no_content
      else
        match py_in (str "content") data with
        | Raise e => failure e
        | Ok false => no_content
        | Ok true =>
            match
              content <- subscript data (str "content") ;;
              company_info <- get_or data (str "company_info") (PDict []) ;;
              process_document content company_info now
            with
            | Raise e => failure e
            | Ok result => {| status := 200; body := result |}
            end
        end
  end.

End App.
End App.


(** The record written in the prompt as the format of the answer. *)
Definition template_record : pyval :=
  PDict (map (fun k => (k, PStr (str "..."))) section_keys
         ++ [ (k_extracted_sections, PList [PStr (str "list of sections found")]);
              (k_confidence_score, PFloat (FDec false 95 (-2))) ]).

(** The text of the prompt after the document. *)
Definition prompt_after : text := unlines (map single_quoted prompt_lines_after).


(** Services whose chat fails, for closed statements. *)
Definition failing_outside : Outside :=
  {| os_getenv := fun _ => Some [];
     chat_create := fun _ => Raise (Failure (str "timed out"));
     generate_rfq := fun _ _ => Ok PNone;
     format_value := fun _ => [];
     builtin_str := fun _ => [] |}.

(** Is [e] the string "content"? *)
Definition is_content (e : pyval) : bool :=
  match e with
  | PStr s => text_eqb s (str "content")
  | _ => false
  end.

(** Services that answer with a text without structure and generate
    nothing, for closed statements. *)
Definition quiet_outside : Outside :=
  {| os_getenv := fun _ => None;
     chat_create := fun _ => Ok (Some (str "no structure here"));
     generate_rfq := fun _ _ => Ok PNone;
     format_value := fun _ => [];
     builtin_str := fun _ => [] |}.

(** Services whose chat answers with the literal of the long integer. *)
Definition numeric_outside : Outside :=
  {| os_getenv := fun _ => None;
     chat_create := fun _ => Ok (Some long_integer_answer);
     generate_rfq := fun _ _ => Ok PNone;
     format_value := fun _ => [];
     builtin_str := fun _ => str "text of the error" |}.

(** Two texts that differ in the case of ASCII letters only. *)
Definition same_letters (t1 t2 : text) : Prop :=
  Forall2 (fun c1 c2 => ascii_lower c1 = ascii_lower c2) t1 t2.


(** ** Vocabulary of the limits *)

(** [r] is what is left of [s] after some of its characters. *)
Definition suffix (r s : text) : Prop := exists p, s = p ++ r.






(** A literal whose member opens [depth] arrays. *)
Definition deep_answer (depth : nat) : text :=
  str "{" ++ quoted "a" ++ str ":" ++ repeat (chr "[") depth ++ str "}".



(** * Properties *)

(** Proof steps used more than once. *)

(** A [Forall] over a list that is written out, item by item. *)
Ltac split_forall :=
  repeat (cbv beta;
          match goal with
          | |- Forall _ (_ :: _) => apply Forall_cons
          | |- Forall _ [] => apply Forall_nil
          end).

(** The keys of a record that is written out are distinct. *)
Ltac no_dup_keys :=
  unfold dict_ok; vm_compute;
  repeat (constructor; [simpl; intuition discriminate|]); constructor.

(** Case analysis on every [match] of a hypothesis, or of all of them. *)
Ltac break_match_in H :=
  repeat match type of H with
         | context [match ?x with _ => _ end] => destruct x eqn:?
         end.

Ltac break_all :=
  repeat (match goal with
          | H : context [match ?x with _ => _ end] |- _ =>
              first [is_var x; destruct x | destruct x eqn:?]
          end; cbv beta match in *; try discriminate).


(** ** The matcher *)

Section MatcherFacts.
Context {db : UnicodeDB}.
Variable fl : flags.

Lemma down_In (n k x : nat) : In x (down n k) -> x <= n.
Proof.
  revert n; induction k as [|k IH]; simpl; intros n H; [contradiction|].
  destruct H as [<-|H]; [lia|]. apply IH in H. lia.
Qed.

(** The matcher only moves forward. *)
Lemma rx_run_forward (t : text) (r : regex) :
  forall st st', In st' (rx_run fl t r st) -> fst st <= fst st'.
Proof.
  induction r; simpl; intros st st' H.
  - destruct H as [<-|[]]; lia.
  - destruct (nth_error t (fst st)); [|contradiction].
    destruct (atom_match fl a c); [|contradiction].
    destruct H as [<-|[]]; simpl; lia.
  - apply in_map_iff in H. destruct H as (k & <- & _). simpl; lia.
  - destruct (boundary t (fst st)); [|contradiction].
    destruct H as [<-|[]]; lia.
  - apply in_flat_map in H. destruct H as (mid & H1 & H2).
    apply IHr1 in H1. apply IHr2 in H2. lia.
  - apply in_app_or in H. destruct H as [H|H]; [apply IHr1|apply IHr2]; exact H.
  - apply in_map_iff in H. destruct H as (st1 & <- & H). simpl. apply IHr in H. exact H.
Qed.

Lemma match_at_start (t : text) (r : regex) (i : nat) (m : rmatch) :
  match_at fl t r i = Some m -> m_start m = i /\ i <= m_end m.
Proof.
  unfold match_at. destruct (rx_run fl t r (i, [])) as [|st l] eqn:E; [discriminate|].
  intros [= <-]. split; [reflexivity|].
  apply (rx_run_forward t r (i, []) st). rewrite E. left; reflexivity.
Qed.

Lemma match_at_nonempty_start (t : text) (r : regex) (i : nat) (m : rmatch) :
  match_at_nonempty fl t r i = Some m -> m_start m = i /\ i < m_end m.
Proof.
  unfold match_at_nonempty.
  match goal with
  | |- context [filter ?f ?l] => destruct (filter f l) as [|st l'] eqn:E
  end; [discriminate|].
  intros [= <-]. split; [reflexivity|].
  assert (H : In st (st :: l')) by (left; reflexivity).
  rewrite <- E in H. apply filter_In in H. destruct H as [H1 H2].
  apply rx_run_forward in H1. simpl in H1.
  apply negb_true_iff, Nat.eqb_neq in H2. unfold m_end; simpl. lia.
Qed.

Lemma scan_eq (t : text) (r : regex) (i resume : nat) (rest : text) :
  scan fl t r i resume rest =
  if i <? resume then scan_next fl t r i rest resume
  else
    match match_at fl t r i with
    | None => scan_next fl t r i rest resume
    | Some m =>
        if m_end m =? i
        then match match_at_nonempty fl t r i with
             | Some m' => m :: m' :: scan_next fl t r i rest (m_end m')
             | None => m :: scan_next fl t r i rest resume
             end
        else m :: scan_next fl t r i rest (m_end m)
    end.
Proof. destruct rest; reflexivity. Qed.

(** Every match the scan reports starts at or after the position scanned
    and at or after the end of the previous match. *)
Lemma scan_bounds (t : text) (r : regex) (rest : text) :
  forall i resume m, In m (scan fl t r i resume rest) ->
    i <= m_start m /\ resume <= m_start m /\ m_start m <= m_end m.
Proof.
  induction rest as [|c rest IH]; intros i resume m; rewrite scan_eq; unfold scan_next.
  - destruct (i <? resume) eqn:Hlt; [intros []|].
    apply Nat.ltb_ge in Hlt.
    destruct (match_at fl t r i) as [m0|] eqn:Hm; [|intros []].
    pose proof (match_at_start _ _ _ Hm) as [Hs He].
    destruct (m_end m0 =? i).
    + destruct (match_at_nonempty fl t r i) as [m1|] eqn:Hn.
      * pose proof (match_at_nonempty_start _ _ _ Hn) as [Hs1 He1].
        intros [<-|[<-|[]]]; lia.
      * intros [<-|[]]; lia.
    + intros [<-|[]]; lia.
  - destruct (i <? resume) eqn:Hlt.
    { intros H. apply IH in H. apply Nat.ltb_lt in Hlt. lia. }
    apply Nat.ltb_ge in Hlt.
    destruct (match_at fl t r i) as [m0|] eqn:Hm.
    2:{ intros H. apply IH in H. lia. }
    pose proof (match_at_start _ _ _ Hm) as [Hs He].
    destruct (m_end m0 =? i) eqn:Hz.
    + apply Nat.eqb_eq in Hz.
      destruct (match_at_nonempty fl t r i) as [m1|] eqn:Hn.
      * pose proof (match_at_nonempty_start _ _ _ Hn) as [Hs1 He1].
        intros [<-|[<-|H]]; [lia|lia|]. apply IH in H. lia.
      * intros [<-|H]; [lia|]. apply IH in H. lia.
    + apply Nat.eqb_neq in Hz.
      intros [<-|H]; [lia|]. apply IH in H. lia.
Qed.

Lemma left_to_right_cons (m : rmatch) (ms : list rmatch) :
  m_start m <= m_end m ->
  (forall m', In m' ms -> m_end m <= m_start m') ->
  left_to_right ms -> left_to_right (m :: ms).
Proof.
  intros Hm Hall Hms a b m1 m2 Hab H1 H2.
  destruct b as [|b]; [lia|]. simpl in H2.
  destruct a as [|a]; simpl in H1.
  - injection H1 as <-. apply nth_error_In in H2. apply Hall in H2. lia.
  - apply (Hms a b); [lia|assumption|assumption].
Qed.

Lemma left_to_right_nil : left_to_right [].
Proof. intros a b m1 m2 _ H. destruct a; discriminate. Qed.

Lemma scan_left_to_right (t : text) (r : regex) (rest : text) :
  forall i resume, left_to_right (scan fl t r i resume rest).
Proof.
  induction rest as [|c rest IH]; intros i resume; rewrite scan_eq; unfold scan_next.
  - destruct (i <? resume); [apply left_to_right_nil|].
    destruct (match_at fl t r i) as [m0|] eqn:Hm; [|apply left_to_right_nil].
    pose proof (match_at_start _ _ _ Hm) as [Hs He].
    destruct (m_end m0 =? i) eqn:Hz.
    + apply Nat.eqb_eq in Hz.
      destruct (match_at_nonempty fl t r i) as [m1|] eqn:Hn.
      * pose proof (match_at_nonempty_start _ _ _ Hn) as [Hs1 He1].
        apply left_to_right_cons; [lia| |].
        { intros m' [<-|[]]. lia. }
        apply left_to_right_cons; [lia|intros m' []|apply left_to_right_nil].
      * apply left_to_right_cons; [lia|intros m' []|apply left_to_right_nil].
    + apply left_to_right_cons; [lia|intros m' []|apply left_to_right_nil].
  - destruct (i <? resume); [apply IH|].
    destruct (match_at fl t r i) as [m0|] eqn:Hm; [|apply IH].
    pose proof (match_at_start _ _ _ Hm) as [Hs He].
    destruct (m_end m0 =? i) eqn:Hz.
    + apply Nat.eqb_eq in Hz.
      destruct (match_at_nonempty fl t r i) as [m1|] eqn:Hn.
      * pose proof (match_at_nonempty_start _ _ _ Hn) as [Hs1 He1].
        apply left_to_right_cons; [lia| |].
        { intros m' [<-|H]; [lia|]. apply scan_bounds in H. lia. }
        apply left_to_right_cons; [lia| |apply IH].
        intros m' H. apply scan_bounds in H. lia.
      * apply left_to_right_cons; [lia| |apply IH].
        intros m' H. apply scan_bounds in H. lia.
    + apply Nat.eqb_neq in Hz.
      apply left_to_right_cons; [lia| |apply IH].
      intros m' H. apply scan_bounds in H. lia.
Qed.

Lemma finditer_left_to_right (r : regex) (t : text) :
  left_to_right (finditer fl r t).
Proof. apply scan_left_to_right. Qed.

End MatcherFacts.

(** ** Dictionaries *)

Lemma text_eqb_eq (a b : text) : text_eqb a b = true <-> a = b.
Proof. unfold text_eqb. destruct (list_eq_dec N.eq_dec a b); split; congruence. Qed.

Lemma text_eqb_refl (a : text) : text_eqb a a = true.
Proof. apply text_eqb_eq; reflexivity. Qed.

Lemma text_eqb_neq (a b : text) : a <> b -> text_eqb a b = false.
Proof. unfold text_eqb. destruct (list_eq_dec N.eq_dec a b); congruence. Qed.

Lemma dict_get_set_same (k : text) (v : pyval) (d : pydict) :
  dict_get k (dict_set k v d) = Some v.
Proof.
  induction d as [|[k' v'] d IH]; simpl.
  - rewrite text_eqb_refl; reflexivity.
  - destruct (text_eqb k' k) eqn:E; simpl.
    + rewrite text_eqb_refl; reflexivity.
    + rewrite E; exact IH.
Qed.

Lemma dict_get_set_other (k k0 : text) (v : pyval) (d : pydict) :
  k0 <> k -> dict_get k0 (dict_set k v d) = dict_get k0 d.
Proof.
  intros Hne. induction d as [|[k' v'] d IH]; simpl.
  - rewrite text_eqb_neq by congruence. reflexivity.
  - destruct (text_eqb k' k) eqn:E; simpl.
    + apply text_eqb_eq in E. subst k'.
      rewrite !text_eqb_neq by congruence. reflexivity.
    + destruct (text_eqb k' k0); [reflexivity|exact IH].
Qed.

Lemma dict_keys_set (k : text) (v : pyval) (d : pydict) :
  dict_keys (dict_set k v d) =
  if in_dec (list_eq_dec N.eq_dec) k (dict_keys d) then dict_keys d else dict_keys d ++ [k].
Proof.
  unfold dict_keys. induction d as [|[k' v'] d IH]; simpl.
  - reflexivity.
  - destruct (text_eqb k' k) eqn:E; simpl.
    + apply text_eqb_eq in E. subst k'.
      destruct (list_eq_dec N.eq_dec k k); [|congruence]. reflexivity.
    + assert (k' <> k) by (intros ->; rewrite text_eqb_refl in E; discriminate).
      destruct (list_eq_dec N.eq_dec k' k); [congruence|].
      rewrite IH. destruct (in_dec (list_eq_dec N.eq_dec) k (map fst d)); reflexivity.
Qed.

Lemma dict_keys_set_In (k k0 : text) (v : pyval) (d : pydict) :
  In k0 (dict_keys (dict_set k v d)) <-> k0 = k \/ In k0 (dict_keys d).
Proof.
  rewrite dict_keys_set.
  destruct (in_dec (list_eq_dec N.eq_dec) k (dict_keys d)) as [Hin|Hin].
  - split; [tauto|]. intros [->|H]; assumption.
  - rewrite in_app_iff. simpl. split; intros H.
    + destruct H as [H|[H|[]]]; auto.
    + destruct H as [->|H]; auto.
Qed.

Lemma dict_ok_set (k : text) (v : pyval) (d : pydict) :
  dict_ok d -> dict_ok (dict_set k v d).
Proof.
  unfold dict_ok. intros H. rewrite dict_keys_set.
  destruct (in_dec (list_eq_dec N.eq_dec) k (dict_keys d)) as [Hin|Hin]; [exact H|].
  apply NoDup_app; [exact H|constructor; [intros []|constructor]|].
  intros x Hx [<-|[]]. contradiction.
Qed.

Lemma dict_set_middle (k : text) (v v0 : pyval) (pre post : pydict) :
  ~ In k (dict_keys pre) ->
  dict_set k v (pre ++ (k, v0) :: post) = pre ++ (k, v) :: post.
Proof.
  induction pre as [|[k' v'] pre IH]; simpl; intros Hnin.
  - rewrite text_eqb_refl; reflexivity.
  - rewrite text_eqb_neq by tauto. f_equal. apply IH. tauto.
Qed.

Lemma dict_get_In (k : text) (v : pyval) (d : pydict) :
  dict_get k d = Some v -> In (k, v) d.
Proof.
  induction d as [|[k' v'] d IH]; simpl; [discriminate|].
  destruct (text_eqb k' k) eqn:E.
  - apply text_eqb_eq in E. intros [= ->]. left; congruence.
  - intros H; right; auto.
Qed.

Lemma dict_get_keys (k : text) (d : pydict) :
  In k (dict_keys d) <-> exists v, dict_get k d = Some v.
Proof.
  unfold dict_keys. induction d as [|[k' v'] d IH]; simpl.
  - split; [intros []|intros [v H]; discriminate].
  - destruct (text_eqb k' k) eqn:E.
    + apply text_eqb_eq in E. split; [eauto|auto].
    + assert (k' <> k) by (intros ->; rewrite text_eqb_refl in E; discriminate).
      rewrite <- IH. tauto.
Qed.

(** ** The redactor as a function *)

Section RedactorFacts.
Context {db : UnicodeDB}.

Lemma compile_table_ok : compile_table _init_redaction_patterns = Some redaction_table.
Proof. vm_compute. reflexivity. Qed.

Lemma sub_no_match (fl : flags) (r : regex) (repl t : text) :
  findall fl r t = [] -> sub fl r repl t = t.
Proof.
  unfold findall, sub. intros H. apply map_eq_nil in H. rewrite H. reflexivity.
Qed.

Lemma redact_pattern_eq (category t : text) (rs : list text) (p : regex) :
  redact_pattern category (t, rs) p =
  (sub IGNORECASE p REDACTED t, rs ++ map (entry_of category) (findall IGNORECASE p t)).
Proof.
  unfold redact_pattern.
  destruct (findall IGNORECASE p t) as [|m ms] eqn:E.
  - rewrite (sub_no_match _ _ _ _ E). simpl. rewrite app_nil_r. reflexivity.
  - reflexivity.
Qed.

Lemma redact_patterns_eq (category : text) (ps : list regex) :
  forall t rs,
    fold_left (redact_pattern category) ps (t, rs) =
    (text_after_patterns ps t, rs ++ entries_patterns category ps t).
Proof.
  induction ps as [|p ps IH]; intros t rs; cbn [fold_left entries_patterns].
  - rewrite app_nil_r. reflexivity.
  - rewrite redact_pattern_eq, IH. unfold text_after_patterns; cbn [fold_left].
    rewrite app_assoc. reflexivity.
Qed.

Lemma redact_table_eq (tbl : list (text * list regex)) :
  forall t rs,
    fold_left redact_category tbl (t, rs) =
    (text_after_table tbl t, rs ++ entries_table tbl t).
Proof.
  induction tbl as [|[category ps] tbl IH]; intros t rs; cbn [fold_left entries_table].
  - rewrite app_nil_r. reflexivity.
  - unfold redact_category at 2. cbn [fst snd]. rewrite redact_patterns_eq, IH.
    unfold text_after_table; cbn [fold_left snd]. rewrite app_assoc. reflexivity.
Qed.

(** [_redact_text] raises nothing, and returns the redacted text with its
    entries. *)
Lemma _redact_text_eq (t : text) : _redact_text t = Some (redacted t, redactions t).
Proof.
  unfold _redact_text. rewrite compile_table_ok.
  unfold redact_with. rewrite redact_table_eq, app_nil_l.
  unfold redacted, redactions. reflexivity.
Qed.

Lemma redact_items_eq (items : pydict) :
  forall acc,
    redact_items items acc =
    Some (fold_left (fun d kv =>
                       match snd kv with
                       | PStr s => dict_set (fst kv) (PStr (redacted s)) d
                       | _ => d
                       end) items (fst acc),
          snd acc ++ ordered_summary items).
Proof.
  induction items as [|[k v] items IH]; intros [d rs];
    unfold ordered_summary; cbn [redact_items fst snd fold_left flat_map].
  - rewrite app_nil_r. reflexivity.
  - destruct v; cbn [fst snd];
      try (rewrite IH; unfold ordered_summary, item_entries at 2; cbn [fst snd app];
           reflexivity).
    rewrite _redact_text_eq, IH. cbn [fst snd].
    unfold ordered_summary, item_entries at 2. cbn [fst snd]. rewrite app_assoc. reflexivity.
Qed.

Lemma redact_fold_eq (items : pydict) :
  forall pre,
    dict_ok (pre ++ items) ->
    fold_left (fun d kv =>
                 match snd kv with
                 | PStr s => dict_set (fst kv) (PStr (redacted s)) d
                 | _ => d
                 end) items (pre ++ items)
    = pre ++ redacted_items items.
Proof.
  induction items as [|[k v] items IH]; intros pre Hok; simpl.
  - reflexivity.
  - assert (Hnin : ~ In k (dict_keys pre)).
    { unfold dict_ok, dict_keys in *. rewrite map_app in Hok. simpl in Hok.
      apply NoDup_remove_2 in Hok. rewrite in_app_iff in Hok. tauto. }
    assert (Hstep : forall v', pre ++ (k, v') :: items = (pre ++ [(k, v')]) ++ items).
    { intros v'. rewrite <- app_assoc. reflexivity. }
    assert (Hok' : forall v', dict_ok ((pre ++ [(k, v')]) ++ items)).
    { intros v'. rewrite <- Hstep. unfold dict_ok, dict_keys in *.
      rewrite map_app in *. exact Hok. }
    destruct v; simpl;
      try (rewrite Hstep, IH by apply Hok'; rewrite <- app_assoc; reflexivity).
    rewrite dict_set_middle by exact Hnin.
    rewrite Hstep, IH by apply Hok'. rewrite <- app_assoc. reflexivity.
Qed.

(** [redact_content] on a well-formed record: every item is mapped in
    place, the two stamps are set, and the summary lists the entries
    section after section. *)
Lemma redact_content_eq (content : pydict) (now : datetime) :
  dict_ok content ->
  redact_content content now =
  Some (stamped now (redacted_items content), ordered_summary content).
Proof.
  intros Hok. unfold redact_content. rewrite redact_items_eq. cbn [fst snd app].
  pose proof (redact_fold_eq content [] Hok) as H. cbn [app] in H.
  rewrite H. reflexivity.
Qed.

Lemma redacted_items_keys (content : pydict) :
  dict_keys (redacted_items content) = dict_keys content.
Proof. unfold dict_keys, redacted_items. rewrite map_map. reflexivity. Qed.

Lemma redacted_items_get (k : text) (content : pydict) :
  dict_get k (redacted_items content) = option_map redact_value (dict_get k content).
Proof.
  induction content as [|[k' v'] d IH]; simpl; [reflexivity|].
  destruct (text_eqb k' k); [reflexivity|exact IH].
Qed.

End RedactorFacts.

(** ** Scenarios *)

Section Scenarios.
Context {db : UnicodeDB}.

(** C4, evaluated where it fails: redacting a record whose location is
    "Smith AFB" replaces the whole of "Smith AFB", and the one audit entry
    keeps "AFB" only, the text of the group of the pattern. *)
Theorem audit_entry_keeps_group_only (now : datetime) :
  redact_content [(str "location", PStr (str "Smith AFB"))] now =
  Some ([ (str "location", PStr (str "[REDACTED]"));
          (k_redaction_applied, PBool true);
          (k_redaction_timestamp, PStr (isoformat now)) ],
        [ str "location: Removed specific_locations: AFB" ]).
Proof. vm_compute. reflexivity. Qed.

(** C6, evaluated at the scenario of the specification: the location
    becomes "Wright-[REDACTED], Ohio", not "[REDACTED], Ohio".  The name
    class of the installation pattern has letters and white space only, so
    the match cannot start before the hyphen and "Wright-" stays in the
    text.  The rest is as the scenario has it: the technical requirements
    become "Contact: [REDACTED]" and the summary has exactly two entries,
    the first of the section location and the category specific_locations,
    the second of the section technical_requirements and the category
    contact_info. *)
Theorem end_to_end_scenario (now : datetime) :
  exists out e1 e2,
    redact_content scenario_record now = Some (out, [e1; e2])
    /\ dict_get (str "location") out = Some (PStr (str "Wright-[REDACTED], Ohio"))
    /\ dict_get (str "technical_requirements") out = Some (PStr (str "Contact: [REDACTED]"))
    /\ starts_with (str "location: Removed specific_locations: ") e1 = true
    /\ e2 = str "technical_requirements: Removed contact_info: rfq@agency.gov".
Proof.
  eexists. eexists. eexists. split.
  - lazy. reflexivity.
  - repeat split; vm_compute; reflexivity.
Qed.

(** C8: for each of the nine sections and each of the seven literals,
    redacting the record whose only section is that literal gives the
    section text "[REDACTED]" and exactly one entry, of that section and of
    the category of the literal. *)
Theorem completeness_per_category (now : datetime) :
  Forall (fun k =>
    Forall (fun ex =>
      single_redaction k (snd ex) (redact_content [(k, PStr (fst ex))] now))
      completeness_examples)
    section_keys.
Proof.
  unfold section_keys, completeness_examples.
  split_forall; vm_compute; split; reflexivity.
Qed.

End Scenarios.

(** The location of the scenario is not the "[REDACTED], Ohio" that is
    expected of it. *)
Lemma end_to_end_location_differs :
  exists out summary,
    redact_content (db := plain_db) scenario_record epoch = Some (out, summary)
    /\ dict_get (str "location") out = Some (PStr (str "Wright-[REDACTED], Ohio"))
    /\ dict_get (str "location") out <> Some (PStr (str "[REDACTED], Ohio")).
Proof.
  eexists. eexists. split; [vm_compute; reflexivity|].
  split; [vm_compute; reflexivity|].
  vm_compute. discriminate.
Qed.

(** ** The record and the summary *)

Section RecordFacts.
Context {db : UnicodeDB}.

Lemma stamped_get_other (now : datetime) (d : pydict) (k : text) :
  k <> k_redaction_applied -> k <> k_redaction_timestamp ->
  dict_get k (stamped now d) = dict_get k d.
Proof.
  intros H1 H2. unfold stamped.
  rewrite dict_get_set_other by exact H2.
  rewrite dict_get_set_other by exact H1. reflexivity.
Qed.

Lemma stamped_keys (now : datetime) (d : pydict) (k : text) :
  In k (dict_keys (stamped now d)) <->
  In k (dict_keys d) \/ k = k_redaction_applied \/ k = k_redaction_timestamp.
Proof. unfold stamped. rewrite !dict_keys_set_In. tauto. Qed.

Lemma stamped_applied (now : datetime) (d : pydict) :
  dict_get k_redaction_applied (stamped now d) = Some (PBool true).
Proof.
  unfold stamped. rewrite dict_get_set_other by (vm_compute; discriminate).
  apply dict_get_set_same.
Qed.

Lemma stamped_timestamp (now : datetime) (d : pydict) :
  dict_get k_redaction_timestamp (stamped now d) = Some (PStr (isoformat now)).
Proof. unfold stamped. apply dict_get_set_same. Qed.

Lemma redacted_items_ok (content : pydict) : dict_ok content -> dict_ok (redacted_items content).
Proof. unfold dict_ok. rewrite redacted_items_keys. auto. Qed.

Lemma ordered_summary_strings (content : pydict) :
  ordered_summary content = ordered_summary (string_fields content).
Proof.
  unfold ordered_summary, string_fields.
  induction content as [|[k v] content IH]; simpl; [reflexivity|].
  destruct v; simpl; rewrite <- IH; reflexivity.
Qed.

(** C5 as amended: two invocations on the same record, whatever the clock
    reads, give the same summary and two records that differ at most in
    [redaction_timestamp], which holds the reading of each; the summary is
    ordered by section, then category, then pattern, and the matches of one
    pattern are listed from left to right. *)
Theorem redaction_stable_up_to_timestamp (content : pydict) (now1 now2 : datetime) :
  dict_ok content ->
  exists d summary,
    redact_content content now1
      = Some (dict_set k_redaction_timestamp (PStr (isoformat now1)) d, summary)
    /\ redact_content content now2
      = Some (dict_set k_redaction_timestamp (PStr (isoformat now2)) d, summary)
    /\ summary = ordered_summary content
    /\ (forall p t, left_to_right (finditer IGNORECASE p t)).
Proof.
  intros Hok.
  exists (dict_set k_redaction_applied (PBool true) (redacted_items content)).
  exists (ordered_summary content).
  rewrite !redact_content_eq by exact Hok.
  split; [reflexivity|]. split; [reflexivity|]. split; [reflexivity|].
  intros p t. apply finditer_left_to_right.
Qed.

(** C9 as amended: a field that is not a string, other than
    [redaction_applied] and [redaction_timestamp], is the same in the
    output, and the summary is the summary of the record without its fields
    that are not strings: they are not scanned and have no entry. *)
Theorem non_string_passthrough (content : pydict) (now : datetime) (k : text) (v : pyval) :
  dict_ok content ->
  dict_get k content = Some v ->
  is_str v = false ->
  k <> k_redaction_applied ->
  k <> k_redaction_timestamp ->
  exists out summary,
    redact_content content now = Some (out, summary)
    /\ dict_get k out = Some v
    /\ summary = ordered_summary (string_fields content).
Proof.
  intros Hok Hget Hv H1 H2.
  eexists. eexists. split; [apply redact_content_eq; exact Hok|].
  split.
  - rewrite stamped_get_other by assumption.
    rewrite redacted_items_get, Hget. simpl.
    destruct v; try reflexivity. discriminate.
  - apply ordered_summary_strings.
Qed.

(** C10: every string-valued key, whatever its name, is scanned (its
    entries are in the summary) and, unless it is one of the two stamps,
    holds the redacted text in the output; no key is removed; the keys of
    the output are those of the input with [redaction_applied], which is
    true, and [redaction_timestamp]. *)
Theorem every_string_key_scanned (content : pydict) (now : datetime) :
  dict_ok content ->
  exists out summary,
    redact_content content now = Some (out, summary)
    /\ (forall k, In k (dict_keys out) <->
                  In k (dict_keys content) \/ k = k_redaction_applied
                  \/ k = k_redaction_timestamp)
    /\ dict_ok out
    /\ dict_get k_redaction_applied out = Some (PBool true)
    /\ dict_get k_redaction_timestamp out = Some (PStr (isoformat now))
    /\ (forall k s, dict_get k content = Some (PStr s) ->
          incl (map (tagged k) (redactions s)) summary
          /\ (k <> k_redaction_applied -> k <> k_redaction_timestamp ->
              dict_get k out = Some (PStr (redacted s)))).
Proof.
  intros Hok.
  eexists. eexists. split; [apply redact_content_eq; exact Hok|].
  split; [|split; [|split; [|split]]].
  - intros k. rewrite stamped_keys, redacted_items_keys. reflexivity.
  - unfold stamped. apply dict_ok_set, dict_ok_set, redacted_items_ok, Hok.
  - apply stamped_applied.
  - apply stamped_timestamp.
  - intros k s Hget. split.
    + intros e He. unfold ordered_summary. apply in_flat_map.
      exists (k, PStr s). split; [apply dict_get_In; exact Hget|exact He].
    + intros H1 H2. rewrite stamped_get_other by assumption.
      rewrite redacted_items_get, Hget. reflexivity.
Qed.

End RecordFacts.

(** C5, as stated, fails: the same record redacted at two readings of the
    clock gives two different records. *)
Lemma two_invocations_differ :
  redact_content (db := plain_db) scenario_record epoch
  <> redact_content (db := plain_db) scenario_record epoch_later.
Proof. vm_compute. discriminate. Qed.

(** C9, as stated, fails: a [redaction_applied] field that is false in the
    input is true in the output. *)
Lemma non_string_field_overwritten :
  exists out summary,
    redact_content (db := plain_db) [(k_redaction_applied, PBool false)] epoch
      = Some (out, summary)
    /\ dict_get k_redaction_applied [(k_redaction_applied, PBool false)] = Some (PBool false)
    /\ dict_get k_redaction_applied out = Some (PBool true).
Proof. eexists. eexists. repeat split; vm_compute; reflexivity. Qed.

(** ** The search for the brace-delimited literal *)

Section BraceSearch.
Context {db : UnicodeDB}.

Lemma brace_pattern_ok : re_compile (str "\{.*\}") = Some brace_pattern.
Proof. vm_compute. reflexivity. Qed.

Lemma flat_map_map_fuse (A B C : Type) (f : B -> list C) (g : A -> B) (l : list A) :
  flat_map f (map g l) = flat_map (fun x => f (g x)) l.
Proof. induction l as [|x l IH]; simpl; [reflexivity|]. rewrite IH. reflexivity. Qed.

Lemma run_len_any (s : text) : run_len DOTALL AAny None s = List.length s.
Proof. induction s as [|c s IH]; simpl; [reflexivity|]. rewrite IH. reflexivity. Qed.

Lemma brace_run (t : text) (i : nat) :
  rx_run DOTALL t brace_pattern (i, []) =
  match nth_error t i with
  | Some c =>
      if (c =? chr "{")%N
      then flat_map (close_at t i)
             (down (List.length (skipn (S i) t)) (S (List.length (skipn (S i) t))))
      else []
  | None => []
  end.
Proof.
  unfold brace_pattern. cbn [rx_run fst snd].
  destruct (nth_error t i) as [c|]; [|reflexivity].
  cbn [atom_match DOTALL ignorecase dotall andb].
  change (chr "{") with 123%N.
  destruct (c =? 123)%N; [|reflexivity].
  cbn [flat_map fst snd]. rewrite app_nil_r, run_len_any, Nat.sub_0_r.
  rewrite flat_map_map_fuse. apply flat_map_ext. intros k.
  unfold close_at. cbn [flat_map rx_run fst snd].
  destruct (nth_error t (S i + k)) as [d|]; [|reflexivity].
  cbn [atom_match DOTALL ignorecase dotall andb].
  change (chr "}") with 125%N.
  destruct (d =? 125)%N; reflexivity.
Qed.

Lemma flat_map_down_skip (f : nat -> list mstate) (n k0 : nat) :
  k0 <= n -> (forall k, k0 < k <= n -> f k = []) ->
  flat_map f (down n (S n)) = flat_map f (down k0 (S k0)).
Proof.
  intros Hle. induction Hle as [|n Hle IH]; intros Hnil; [reflexivity|].
  change (down (S n) (S (S n))) with (S n :: down n (S n)).
  cbn [flat_map]. rewrite (Hnil (S n)) by lia. apply IH.
  intros k Hk. apply Hnil. lia.
Qed.

Lemma match_at_no_brace (t : text) (i : nat) :
  (forall c, nth_error t i = Some c -> c <> chr "{") ->
  match_at DOTALL t brace_pattern i = None.
Proof.
  intros H. unfold match_at. rewrite brace_run.
  destruct (nth_error t i) as [c|] eqn:E; [|reflexivity].
  destruct (c =? chr "{")%N eqn:Ec; [|reflexivity].
  apply N.eqb_eq in Ec. exfalso. exact (H c eq_refl Ec).
Qed.

Lemma nth_error_app_mid (A : Type) (pre post : list A) (x : A) :
  nth_error (pre ++ x :: post) (List.length pre) = Some x.
Proof. rewrite nth_error_app2 by lia. rewrite Nat.sub_diag. reflexivity. Qed.

Lemma skipn_app_mid (A : Type) (pre post : list A) (x : A) :
  skipn (S (List.length pre)) (pre ++ x :: post) = post.
Proof.
  induction pre as [|a pre IH]; simpl; [reflexivity|]. exact IH.
Qed.

(** In a text whose first opening brace is followed by [body], a closing
    brace and a rest without closing brace, the match at the opening brace
    spans up to that closing brace. *)
Lemma match_at_brace (pre body post : text) :
  ~ In (chr "}") post ->
  match_at DOTALL (pre ++ chr "{" :: body ++ chr "}" :: post) brace_pattern (List.length pre)
  = Some (List.length pre, (List.length pre + List.length body + 2, [])).
Proof.
  intros Hpost. unfold match_at. rewrite brace_run.
  rewrite nth_error_app_mid, N.eqb_refl, skipn_app_mid.
  set (t := pre ++ chr "{" :: body ++ chr "}" :: post).
  set (i := List.length pre).
  rewrite (flat_map_down_skip (close_at t i) (k0 := List.length body)).
  - change (down (List.length body) (S (List.length body)))
      with (List.length body :: down (pred (List.length body)) (List.length body)).
    cbn [flat_map]. unfold close_at at 1.
    assert (E : nth_error t (S i + List.length body) = Some (chr "}")).
    { unfold t, i. rewrite nth_error_app2 by lia.
      replace (S (List.length pre) + List.length body - List.length pre)
        with (S (List.length body)) by lia.
      cbn [nth_error]. apply nth_error_app_mid. }
    rewrite E, N.eqb_refl. cbn [app].
    replace (S (S i + List.length body)) with (i + List.length body + 2) by lia.
    reflexivity.
  - rewrite length_app. simpl. lia.
  - intros k Hk. unfold close_at.
    destruct (nth_error t (S i + k)) as [d|] eqn:E; [|reflexivity].
    destruct (d =? chr "}")%N eqn:Ed; [|reflexivity].
    apply N.eqb_eq in Ed. subst d. exfalso. apply Hpost.
    unfold t, i in E. rewrite nth_error_app2 in E by lia.
    replace (S (List.length pre) + k - List.length pre) with (S k) in E by lia.
    cbn [nth_error] in E. rewrite nth_error_app2 in E by lia.
    destruct (k - List.length body) as [|j] eqn:Ej; [lia|].
    cbn [nth_error] in E. apply nth_error_In in E. exact E.
Qed.

(** The scan reports first the match at the first position that has one. *)
Lemma scan_first (fl : flags) (t : text) (r : regex) (i : nat) (m : rmatch) :
  (forall k, k < i -> match_at fl t r k = None) ->
  match_at fl t r i = Some m ->
  forall rest i0 resume,
    resume <= i0 -> i0 <= i -> i - i0 <= List.length rest ->
    hd_error (scan fl t r i0 resume rest) = Some m.
Proof.
  intros Hnone Hm. induction rest as [|c rest IH]; intros i0 resume Hr Hi Hlen;
    rewrite scan_eq; unfold scan_next.
  - simpl in Hlen. assert (i0 = i) by lia. subst i0.
    replace (i <? resume) with false by (symmetry; apply Nat.ltb_ge; lia).
    rewrite Hm. destruct (m_end m =? i); [|reflexivity].
    destruct (match_at_nonempty fl t r i); reflexivity.
  - replace (i0 <? resume) with false by (symmetry; apply Nat.ltb_ge; lia).
    destruct (Nat.eq_dec i0 i) as [->|Hne].
    + rewrite Hm. destruct (m_end m =? i); [|reflexivity].
      destruct (match_at_nonempty fl t r i); reflexivity.
    + rewrite Hnone by lia. apply IH; simpl in Hlen; lia.
Qed.

Lemma scan_none (fl : flags) (t : text) (r : regex) :
  (forall k, match_at fl t r k = None) ->
  forall rest i0 resume, scan fl t r i0 resume rest = [].
Proof.
  intros Hnone. induction rest as [|c rest IH]; intros i0 resume;
    rewrite scan_eq; unfold scan_next; rewrite Hnone;
    destruct (i0 <? resume); auto.
Qed.

Lemma slice_mid (pre mid post : text) :
  slice (pre ++ mid ++ post) (List.length pre) (List.length pre + List.length mid) = mid.
Proof.
  unfold slice. rewrite skipn_app, skipn_all, Nat.sub_diag. simpl.
  replace (List.length pre + List.length mid - List.length pre) with (List.length mid) by lia.
  rewrite firstn_app, firstn_all, Nat.sub_diag. simpl. apply app_nil_r.
Qed.

(** [re.search] of the brace pattern: from the first opening brace to the
    last closing brace. *)
Lemma search_brace (pre body post : text) :
  ~ In (chr "{") pre -> ~ In (chr "}") post ->
  exists m,
    search DOTALL brace_pattern (pre ++ chr "{" :: body ++ chr "}" :: post) = Some m
    /\ m_text (pre ++ chr "{" :: body ++ chr "}" :: post) m = chr "{" :: body ++ [chr "}"].
Proof.
  intros Hpre Hpost.
  exists (List.length pre, (List.length pre + List.length body + 2, [])). split.
  - unfold search, finditer. apply scan_first with (i := List.length pre).
    + intros k Hk. apply match_at_no_brace. intros c Hc.
      rewrite nth_error_app1 in Hc by exact Hk.
      apply nth_error_In in Hc. intros ->. contradiction.
    + apply match_at_brace. exact Hpost.
    + lia.
    + lia.
    + rewrite length_app. lia.
  - unfold m_text, m_start, m_end. cbn [fst snd].
    replace (pre ++ chr "{" :: body ++ chr "}" :: post)
      with (pre ++ (chr "{" :: body ++ [chr "}"]) ++ post).
    2:{ simpl. rewrite <- app_assoc. reflexivity. }
    replace (List.length pre + List.length body + 2)
      with (List.length pre + List.length (chr "{" :: body ++ [chr "}"])).
    2:{ simpl. rewrite length_app. simpl. lia. }
    apply slice_mid.
Qed.

(** Without an opening brace nothing is found. *)
Lemma search_no_brace (t : text) :
  ~ In (chr "{") t -> search DOTALL brace_pattern t = None.
Proof.
  intros H. unfold search, finditer. rewrite scan_none; [reflexivity|].
  intros k. apply match_at_no_brace. intros c Hc.
  apply nth_error_In in Hc. intros ->. contradiction.
Qed.

End BraceSearch.

(** ** The decoder never runs out of fuel *)

Lemma skip_ws_length (s : text) : List.length (skip_ws s) <= List.length s.
Proof.
  induction s as [|c s IH]; cbn [skip_ws]; [lia|].
  destruct (is_json_ws c); cbn [List.length]; lia.
Qed.

Lemma scanstring_shorter (n : nat) :
  forall s acc v r,
    List.length s <= n -> scanstring s acc = Some (v, r) -> List.length r < List.length s.
Proof.
  induction n as [|n IH]; intros s acc v r Hn H;
    (destruct s as [|c s1]; [discriminate|]); cbn [List.length] in Hn; [lia|].
  cbn [scanstring] in H. break_match_in H; subst; cbn [List.length] in *;
    try discriminate;
    try (injection H as <- <-; cbn [List.length]; lia);
    try (apply IH in H; cbn [List.length] in *; lia).
Qed.

Lemma take_digits_length (s : text) :
  forall ds r, take_digits s = (ds, r) -> List.length ds + List.length r = List.length s.
Proof.
  induction s as [|c s IH]; intros ds r H; cbn [take_digits] in H.
  - injection H as <- <-. reflexivity.
  - destruct (ascii_digit c).
    + destruct (take_digits s) as [ds' r'] eqn:E. injection H as <- <-.
      pose proof (IH ds' r' eq_refl). cbn [List.length]. lia.
    + injection H as <- <-. reflexivity.
Qed.

Lemma take_digits_first (d : char) (s ds r : text) :
  ascii_digit d = true -> take_digits (d :: s) = (ds, r) -> List.length r <= List.length s.
Proof.
  intros Hd H. cbn [take_digits] in H. rewrite Hd in H.
  destruct (take_digits s) as [ds' r'] eqn:E. injection H as <- <-.
  apply take_digits_length in E. lia.
Qed.

Lemma Some_eq (A : Type) (x y : A) : Some x = Some y -> x = y.
Proof. intros [= ->]. reflexivity. Qed.

Lemma Ok_eq (A : Type) (x y : A) : Ok x = Ok y -> x = y.
Proof. intros [= ->]. reflexivity. Qed.

Section DecoderFacts.
Context {lim : Limits}.

Lemma scan_number_shorter (s : text) (v : pyval) (r : text) :
  scan_number s = Ok (v, r) -> List.length r < List.length s.
Proof.
  unfold scan_number. intros H. break_all;
    repeat match goal with
           | E : (_, _) = (_, _) |- _ => apply pair_equal_spec in E; destruct E; subst
           | E : Some _ = Some _ |- _ => apply Some_eq in E
           | E : Ok _ = Ok _ |- _ => apply Ok_eq in E
           | E : _ :: _ = _ :: _ |- _ => injection E as ? ?; subst
           end;
    repeat match goal with
           | Hd : ascii_digit ?d = true, E : take_digits (?d :: _) = _ |- _ =>
               apply (@take_digits_first _ _ _ _ Hd) in E
           | E : take_digits _ = _ |- _ => apply take_digits_length in E
           end;
    repeat match goal with
           | E : _ :: _ = _ |- _ => apply (f_equal (@List.length _)) in E
           | E : _ = _ :: _ |- _ => apply (f_equal (@List.length _)) in E
           end;
    cbn [List.length] in *; try discriminate; lia.
Qed.

Lemma strip_prefix_length (p : text) :
  forall s r, strip_prefix p s = Some r -> List.length r + List.length p = List.length s.
Proof.
  induction p as [|a p IH]; intros s r H; cbn [strip_prefix] in H.
  - injection H as <-. cbn [List.length]. lia.
  - destruct s as [|b s]; [discriminate|]. destruct (a =? b)%N; [|discriminate].
    apply IH in H. cbn [List.length]. lia.
Qed.

Lemma scan_constant_shorter (s : text) (v : pyval) (r : text) :
  scan_constant s = Ok (v, r) -> List.length r < List.length s.
Proof.
  unfold scan_constant. intros H. break_match_in H;
    repeat match goal with
           | E : strip_prefix _ _ = Some _ |- _ => apply strip_prefix_length in E
           end;
    try (apply scan_number_shorter in H; exact H);
    injection H as <- <-; cbn [List.length str map list_ascii_of_string] in *; lia.
Qed.

(** What is left after a value is shorter than the text it was read from. *)
Lemma scan_shorter (fuel : nat) :
  (forall depth s v r, scan_once fuel depth s = Ok (v, r) -> List.length r < List.length s)
  /\ (forall depth s acc v r, parse_members fuel depth s acc = Ok (v, r) ->
                              List.length r < List.length s)
  /\ (forall depth s acc v r, parse_elements fuel depth s acc = Ok (v, r) ->
                              List.length r < List.length s).
Proof.
  induction fuel as [|fuel (IH1 & IH2 & IH3)].
  - repeat split; intros; discriminate.
  - split; [|split].
    + intros depth s v r H. cbn [scan_once] in H.
      destruct s as [|c s1]; [discriminate|].
      destruct (c =? dquote)%N.
      { destruct (scanstring s1 []) as [[v0 r0]|] eqn:E; [|discriminate].
        injection H as <- <-. apply scanstring_shorter with (n := List.length s1) in E; [|lia].
        cbn [List.length]. lia. }
      destruct (c =? chr "{")%N.
      { destruct depth as [|depth]; [discriminate|].
        pose proof (skip_ws_length s1) as Hw.
        destruct (skip_ws s1) as [|d s2] eqn:E; [discriminate|].
        destruct (d =? chr "}")%N.
        - injection H as <- <-. cbn [List.length] in *. lia.
        - apply IH2 in H. cbn [List.length] in *. lia. }
      destruct (c =? chr "[")%N.
      { destruct depth as [|depth]; [discriminate|].
        pose proof (skip_ws_length s1) as Hw.
        destruct (skip_ws s1) as [|d s2] eqn:E; [discriminate|].
        destruct (d =? chr "]")%N.
        - injection H as <- <-. cbn [List.length] in *. lia.
        - apply IH3 in H. cbn [List.length] in *. lia. }
      apply scan_constant_shorter in H. exact H.
    + intros depth s acc v r H. cbn [parse_members] in H.
      destruct s as [|q s1]; [discriminate|].
      destruct (q =? dquote)%N; [|discriminate].
      destruct (scanstring s1 []) as [[key s2]|] eqn:Ek; [|discriminate].
      apply scanstring_shorter with (n := List.length s1) in Ek; [|lia].
      pose proof (skip_ws_length s2) as Hw2.
      destruct (skip_ws s2) as [|c s3]; [discriminate|].
      destruct (c =? chr ":")%N; [|discriminate].
      pose proof (skip_ws_length s3) as Hw3.
      destruct (scan_once fuel depth (skip_ws s3)) as [[v0 s4]|e] eqn:Ev; [|discriminate].
      apply IH1 in Ev.
      pose proof (skip_ws_length s4) as Hw4.
      destruct (skip_ws s4) as [|d s5]; [discriminate|].
      destruct (d =? chr "}")%N.
      * injection H as <- <-. cbn [List.length] in *. lia.
      * destruct (d =? chr ",")%N; [|discriminate].
        pose proof (skip_ws_length s5) as Hw5.
        apply IH2 in H. cbn [List.length] in *. lia.
    + intros depth s acc v r H. cbn [parse_elements] in H.
      destruct (scan_once fuel depth s) as [[v0 s1]|e] eqn:Ev; [|discriminate].
      apply IH1 in Ev.
      pose proof (skip_ws_length s1) as Hw1.
      destruct (skip_ws s1) as [|d s2]; [discriminate|].
      destruct (d =? chr "]")%N.
      * injection H as <- <-. cbn [List.length] in *. lia.
      * destruct (d =? chr ",")%N; [|discriminate].
        pose proof (skip_ws_length s2) as Hw2.
        apply IH3 in H. cbn [List.length] in *. lia.
Qed.

(** With fuel above twice the length of the text, more fuel changes
    nothing. *)
Lemma scan_fuel (f1 : nat) :
  (forall depth s f2, 2 * List.length s < f1 -> 2 * List.length s < f2 ->
                      scan_once f1 depth s = scan_once f2 depth s)
  /\ (forall depth s acc f2, 2 * List.length s + 1 < f1 -> 2 * List.length s + 1 < f2 ->
                             parse_members f1 depth s acc = parse_members f2 depth s acc)
  /\ (forall depth s acc f2, 2 * List.length s + 1 < f1 -> 2 * List.length s + 1 < f2 ->
                             parse_elements f1 depth s acc = parse_elements f2 depth s acc).
Proof.
  induction f1 as [|f1 (IH1 & IH2 & IH3)].
  - repeat split; intros; lia.
  - split; [|split].
    + intros depth s [|f2] H1 H2; [lia|]. cbn [scan_once].
      destruct s as [|c s1]; [reflexivity|]. cbn [List.length] in H1, H2.
      destruct (c =? dquote)%N; [reflexivity|].
      pose proof (skip_ws_length s1) as Hw.
      destruct (c =? chr "{")%N.
      { destruct depth as [|depth]; [reflexivity|].
        destruct (skip_ws s1) as [|d s2]; [reflexivity|].
        destruct (d =? chr "}")%N; [reflexivity|].
        apply IH2; cbn [List.length] in *; lia. }
      destruct (c =? chr "[")%N; [|reflexivity].
      destruct depth as [|depth]; [reflexivity|].
      destruct (skip_ws s1) as [|d s2]; [reflexivity|].
      destruct (d =? chr "]")%N; [reflexivity|].
      apply IH3; cbn [List.length] in *; lia.
    + intros depth s acc [|f2] H1 H2; [lia|]. cbn [parse_members].
      destruct s as [|q s1]; [reflexivity|]. cbn [List.length] in H1, H2.
      destruct (q =? dquote)%N; [|reflexivity].
      destruct (scanstring s1 []) as [[key s2]|] eqn:Ek; [|reflexivity].
      apply scanstring_shorter with (n := List.length s1) in Ek; [|lia].
      pose proof (skip_ws_length s2) as Hw2.
      destruct (skip_ws s2) as [|c s3]; [reflexivity|].
      destruct (c =? chr ":")%N; [|reflexivity].
      pose proof (skip_ws_length s3) as Hw3. cbn [List.length] in Hw2.
      rewrite (IH1 depth (skip_ws s3) f2) by lia.
      destruct (scan_once f2 depth (skip_ws s3)) as [[v0 s4]|e] eqn:Ev; [|reflexivity].
      apply (proj1 (scan_shorter f2)) in Ev.
      pose proof (skip_ws_length s4) as Hw4.
      destruct (skip_ws s4) as [|d s5]; [reflexivity|].
      destruct (d =? chr "}")%N; [reflexivity|].
      destruct (d =? chr ",")%N; [|reflexivity].
      pose proof (skip_ws_length s5) as Hw5. cbn [List.length] in Hw4.
      apply IH2; lia.
    + intros depth s acc [|f2] H1 H2; [lia|]. cbn [parse_elements].
      rewrite (IH1 depth s f2) by lia.
      destruct (scan_once f2 depth s) as [[v0 s1]|e] eqn:Ev; [|reflexivity].
      apply (proj1 (scan_shorter f2)) in Ev.
      pose proof (skip_ws_length s1) as Hw1.
      destruct (skip_ws s1) as [|d s2]; [reflexivity|].
      destruct (d =? chr "]")%N; [reflexivity|].
      destruct (d =? chr ",")%N; [|reflexivity].
      pose proof (skip_ws_length s2) as Hw2. cbn [List.length] in Hw1.
      apply IH3; lia.
Qed.

(** The fuel [json_loads] gives is enough: the result is the one any
    larger amount gives, so a [JSONDecodeError] is never for want of
    fuel. *)
Lemma json_loads_fuel (s : text) (fuel depth : nat) :
  2 * List.length s + 2 <= fuel ->
  scan_once fuel depth (skip_ws s) = scan_once (2 * List.length s + 2) depth (skip_ws s).
Proof.
  intros H. pose proof (skip_ws_length s) as Hw.
  apply (proj1 (scan_fuel fuel)); lia.
Qed.

(** ** What the decoder raises *)

Local Ltac raised H := injection H as <-; unfold decoder_error; auto.

Lemma scan_number_raises (s : text) (e : pyexn) :
  scan_number s = Raise e -> e = Builtin JSONDecodeError \/ e = Builtin ValueError.
Proof.
  unfold scan_number. intros H. break_all;
    match goal with
    | E : Raise _ = Raise _ |- _ => injection E as <-; auto
    end.
Qed.

Lemma scan_constant_raises (s : text) (e : pyexn) :
  scan_constant s = Raise e -> e = Builtin JSONDecodeError \/ e = Builtin ValueError.
Proof.
  unfold scan_constant. intros H. break_match_in H; try discriminate.
  apply scan_number_raises in H. exact H.
Qed.

(** The decoder raises [JSONDecodeError], [ValueError] or [RecursionError],
    and nothing else. *)
Lemma scan_raises (fuel : nat) :
  (forall depth s e, scan_once fuel depth s = Raise e -> decoder_error e)
  /\ (forall depth s acc e, parse_members fuel depth s acc = Raise e -> decoder_error e)
  /\ (forall depth s acc e, parse_elements fuel depth s acc = Raise e -> decoder_error e).
Proof.
  induction fuel as [|fuel (IH1 & IH2 & IH3)].
  - repeat split; intros; cbn [scan_once parse_members parse_elements] in *;
      match goal with E : Raise _ = Raise _ |- _ => raised E end.
  - split; [|split].
    + intros depth s e H. cbn [scan_once] in H.
      destruct s as [|c s1]; [raised H|].
      destruct (c =? dquote)%N.
      { destruct (scanstring s1 []) as [[v0 r0]|]; [discriminate|raised H]. }
      destruct (c =? chr "{")%N.
      { destruct depth as [|depth]; [raised H|].
        destruct (skip_ws s1) as [|d s2]; [raised H|].
        destruct (d =? chr "}")%N; [discriminate|]. exact (IH2 _ _ _ _ H). }
      destruct (c =? chr "[")%N.
      { destruct depth as [|depth]; [raised H|].
        destruct (skip_ws s1) as [|d s2]; [raised H|].
        destruct (d =? chr "]")%N; [discriminate|]. exact (IH3 _ _ _ _ H). }
      apply scan_constant_raises in H. unfold decoder_error. tauto.
    + intros depth s acc e H. cbn [parse_members] in H.
      destruct s as [|q s1]; [raised H|].
      destruct (q =? dquote)%N; [|raised H].
      destruct (scanstring s1 []) as [[key s2]|]; [|raised H].
      destruct (skip_ws s2) as [|c s3]; [raised H|].
      destruct (c =? chr ":")%N; [|raised H].
      destruct (scan_once fuel depth (skip_ws s3)) as [[v0 s4]|e0] eqn:Ev.
      2:{ injection H as <-. exact (IH1 _ _ _ Ev). }
      destruct (skip_ws s4) as [|d s5]; [raised H|].
      destruct (d =? chr "}")%N; [discriminate|].
      destruct (d =? chr ",")%N; [|raised H]. exact (IH2 _ _ _ _ H).
    + intros depth s acc e H. cbn [parse_elements] in H.
      destruct (scan_once fuel depth s) as [[v0 s1]|e0] eqn:Ev.
      2:{ injection H as <-. exact (IH1 _ _ _ Ev). }
      destruct (skip_ws s1) as [|d s2]; [raised H|].
      destruct (d =? chr "]")%N; [discriminate|].
      destruct (d =? chr ",")%N; [|raised H]. exact (IH3 _ _ _ _ H).
Qed.

Lemma json_loads_raises (s : text) (e : pyexn) :
  json_loads s = Raise e -> decoder_error e.
Proof.
  unfold json_loads. intros H.
  destruct (starts_with_bom s); [raised H|].
  destruct (scan_once _ _ _) as [[v r]|e0] eqn:E.
  - destruct (skip_ws r); [discriminate|raised H].
  - injection H as <-. exact (proj1 (scan_raises _) _ _ _ E).
Qed.

End DecoderFacts.

(** ** The library calls at sample inputs

    The values are the ones CPython's [re] and [json] give. *)

Example installation_name_stops_at_hyphen :
  found_and_replaced "specific_locations" 2 "Wright-Patterson AFB, Ohio"
  = (Some [str "AFB"], Some (str "Wright-[REDACTED], Ohio")).
Proof. vm_compute. reflexivity. Qed.

Example installation_name_without_hyphen :
  found_and_replaced "specific_locations" 2 "Wright Patterson AFB, Ohio"
  = (Some [str "AFB"], Some (str "[REDACTED], Ohio")).
Proof. vm_compute. reflexivity. Qed.

Example street_address :
  found_and_replaced "specific_locations" 0 "at 12 Main Street Stop"
  = (Some [str "Street"], Some (str "at [REDACTED] Stop")).
Proof. vm_compute. reflexivity. Qed.

Example phone_numbers :
  found_and_replaced "contact_info" 1 "call 555-123-4567 or 5551234567."
  = (Some [str "555-123-4567"; str "5551234567"],
     Some (str "call [REDACTED] or [REDACTED].")).
Proof. vm_compute. reflexivity. Qed.

Example url_ends_at_word_character :
  found_and_replaced "contact_info" 2 "see https://a.gov/x?y=1. ok"
  = (Some [str "https://a.gov/x?y=1"], Some (str "see [REDACTED]. ok")).
Proof. vm_compute. reflexivity. Qed.

Example www_in_brackets :
  found_and_replaced "contact_info" 3 "(www.example.com)"
  = (Some [str "www.example.com"], Some (str "([REDACTED])")).
Proof. vm_compute. reflexivity. Qed.

Example email_top_level_needs_letters :
  found_and_replaced "contact_info" 0 "Mail RFQ@AGENCY.GOV, or a.b@c.d1"
  = (Some [str "RFQ@AGENCY.GOV"], Some (str "Mail [REDACTED], or a.b@c.d1")).
Proof. vm_compute. reflexivity. Qed.

Example department_ignores_case :
  found_and_replaced "government_agencies" 1 "the department of Veterans Affairs, now"
  = (Some [str "department of Veterans Affairs"], Some (str "the [REDACTED], now")).
Proof. vm_compute. reflexivity. Qed.

Example command_needs_short_name :
  found_and_replaced "government_agencies" 3 "Pacific command and NORTHCOM Command"
  = (Some [], Some (str "Pacific command and NORTHCOM Command")).
Proof. vm_compute. reflexivity. Qed.

Example duns_numbers :
  found_and_replaced "federal_codes" 0 "DUNS: 123456789 duns7 DUNS :x"
  = (Some [str "DUNS: 123456789"; str "duns7"],
     Some (str "[REDACTED] [REDACTED] DUNS :x")).
Proof. vm_compute. reflexivity. Qed.

Example contract_takes_the_word_contractor :
  found_and_replaced "federal_codes" 5 "Contract: W912-20-C-0001- and contractor"
  = (Some [str "Contract: W912-20-C-0001"; str "contractor"],
     Some (str "[REDACTED]- and [REDACTED]")).
Proof. vm_compute. reflexivity. Qed.

Example brace_search_is_greedy :
  option_map (fun m => (m_start m, m_end m))
    (search (db := plain_db) DOTALL brace_pattern
       (single_quoted "a {'x': {'y': 1}}" ++ [10%N] ++ str " b } c"))
  = Some (2, 22).
Proof. vm_compute. reflexivity. Qed.

Example brace_search_needs_order :
  search (db := plain_db) DOTALL brace_pattern (str "} {") = None.
Proof. vm_compute. reflexivity. Qed.

Example json_values :
  json_loads (lim := sample_limits) (single_quoted "{'a': [1, 2.5, true, null, 'xA\n']}")
  = Ok (PDict [(str "a", PList [PInt 1; PFloat (FDec false 25 (-1)); PBool true; PNone;
                                PStr (str "xA" ++ [10%N])])]).
Proof. vm_compute. reflexivity. Qed.

Example json_numbers :
  json_loads (lim := sample_limits) (single_quoted "{'a': 1e5, 'b': -7, 'k': NaN}")
  = Ok (PDict [(str "a", PFloat (FDec false 1 5)); (str "b", PInt (-7));
               (str "k", PFloat FNaN)]).
Proof. vm_compute. reflexivity. Qed.

Example json_white_space_around :
  json_loads (lim := sample_limits) (single_quoted " {'a':1} ")
  = Ok (PDict [(str "a", PInt 1)]).
Proof. vm_compute. reflexivity. Qed.

Example json_last_duplicate_wins :
  json_loads (lim := sample_limits) (single_quoted "{'a' : -0.0e3, 'a': 2}")
  = Ok (PDict [(str "a", PInt 2)]).
Proof. vm_compute. reflexivity. Qed.

Example json_errors :
  map (json_loads (lim := sample_limits))
    [ single_quoted "{'a':1,}"; single_quoted "{} x"; single_quoted "[1,]";
      single_quoted "{'a': 01}"; single_quoted "{'a': '" ++ [9%N] ++ single_quoted "'}";
      []; 65279%N :: str "{}" ]
  = repeat (Raise (Builtin JSONDecodeError)) 7.
Proof. vm_compute. reflexivity. Qed.

(** An integer numeral of 4300 digits is converted, with or without a sign;
    one more digit and [int] raises [ValueError].  A numeral with a fraction
    or an exponent is a [float], which has no limit. *)
Example json_integer_limit :
  let ones := repeat (chr "1") in
  map (json_loads (lim := sample_limits))
    [ ones 4300; ones 4301; chr "-" :: ones 4300; chr "-" :: ones 4301;
      ones 4301 ++ str ".0"; str "1e" ++ ones 4301 ]
  = [ Ok (PInt (Z.of_N (digits_value (ones 4300))));
      Raise (Builtin ValueError);
      Ok (PInt (- Z.of_N (digits_value (ones 4300))));
      Raise (Builtin ValueError);
      Ok (PFloat (FDec false (digits_value (ones 4301 ++ str "0")) (-1)));
      Ok (PFloat (FDec false 1 (Z.of_N (digits_value (ones 4301))))) ].
Proof. vm_compute. reflexivity. Qed.

(** The numeral is converted where it is read: what comes after it is not
    looked at, what comes before it is. *)
Example json_integer_limit_order :
  let ones := repeat (chr "1") in
  map (json_loads (lim := sample_limits))
    [ str "[" ++ ones 4301 ++ str ", x"; str "[x, " ++ ones 4301 ++ str "]";
      single_quoted "{'n': '" ++ ones 4301 ++ single_quoted "'}" ]
  = [ Raise (Builtin ValueError); Raise (Builtin JSONDecodeError);
      Ok (PDict [(str "n", PStr (ones 4301))]) ].
Proof. vm_compute. reflexivity. Qed.

(** With room for three objects or arrays, one inside the other: a fourth
    raises [RecursionError], at its opening bracket; arrays side by side and
    brackets inside a string do not count. *)
Example json_nesting_limit :
  map (json_loads (lim := cpython_limits 3))
    [ str "[[[]]]"; str "[[[[]]]]"; single_quoted "{'a':{'a':{'a':1}}}";
      single_quoted "{'a':{'a':{'a':{}}}}"; str "[[[], [], []], [], [[]]]";
      single_quoted "[[['[[[[']]]"; str "[[[[x"; str "[1x, [[[["; str "[[[x" ]
  = [ Ok (PList [PList [PList []]]); Raise (Builtin RecursionError);
      Ok (PDict [(str "a", PDict [(str "a", PDict [(str "a", PInt 1)])])]);
      Raise (Builtin RecursionError);
      Ok (PList [PList [PList []; PList []; PList []]; PList []; PList [PList []]]);
      Ok (PList [PList [PList [PStr (str "[[[[")]]]);
      Raise (Builtin RecursionError); Raise (Builtin JSONDecodeError);
      Raise (Builtin JSONDecodeError) ].
Proof. vm_compute. reflexivity. Qed.

(** ** The extractor *)

Lemma parse_members_dict {lim : Limits} (fuel depth : nat) :
  forall s acc v r, parse_members fuel depth s acc = Ok (v, r) -> exists d, v = PDict d.
Proof.
  induction fuel as [|fuel IH]; intros s acc v r; cbn [parse_members]; [discriminate|].
  destruct s as [|q s1]; [discriminate|].
  destruct (q =? dquote)%N; [|discriminate].
  destruct (scanstring s1 []) as [[key s2]|]; [|discriminate].
  destruct (skip_ws s2) as [|c s3]; [discriminate|].
  destruct (c =? chr ":")%N; [|discriminate].
  destruct (scan_once fuel depth (skip_ws s3)) as [[v0 s4]|e]; [|discriminate].
  destruct (skip_ws s4) as [|d s5]; [discriminate|].
  destruct (d =? chr "}")%N.
  - intros [= <- _]. eexists; reflexivity.
  - destruct (d =? chr ",")%N; [|discriminate]. apply IH.
Qed.

(** A text that starts with an opening brace decodes, when it does, to a
    [dict]. *)
Lemma json_loads_object {lim : Limits} (s : text) (v : pyval) :
  json_loads (chr "{" :: s) = Ok v -> exists d, v = PDict d.
Proof.
  unfold json_loads. change (chr "{") with 123%N.
  change (starts_with_bom (123%N :: s)) with false.
  cbn [skip_ws is_json_ws]. change (is_json_ws 123%N) with false. cbv iota.
  match goal with
  | |- context [scan_once ?f ?dp ?x] =>
      generalize f, dp; intros fuel depth;
      destruct (scan_once fuel depth x) as [[v0 r]|e] eqn:E
  end; [|discriminate].
  destruct (skip_ws r); [|discriminate]. intros [= <-].
  destruct fuel as [|fuel]; [discriminate|].
  cbn [scan_once] in E. change (123 =? dquote)%N with false in E.
  change (123 =? chr "{")%N with true in E. cbv iota in E.
  destruct depth as [|depth]; [discriminate|].
  destruct (skip_ws s) as [|d s2]; [discriminate|].
  destruct (d =? chr "}")%N.
  - injection E as <- _. eexists; reflexivity.
  - apply parse_members_dict in E. exact E.
Qed.

Section ExtractorFacts.
Context {db : UnicodeDB} {lim : Limits}.

Lemma parse_eq (response_text : text) :
  _parse_extraction_response response_text =
  match search DOTALL brace_pattern response_text with
  | Some json_match =>
      match json_loads (m_text response_text json_match) with
      | Ok v => Ok v
      | Raise (Builtin JSONDecodeError) => Ok (_manual_parse_response response_text)
      | Raise e => Raise e
      end
  | None => Ok (_manual_parse_response response_text)
  end.
Proof. unfold _parse_extraction_response. rewrite brace_pattern_ok. reflexivity. Qed.

(** C1 as amended: when the text from the first opening brace to the last
    closing brace decodes, that is [json.loads] returns on it, [parse]
    returns the decoded record as it is; nothing is filled in. *)
Theorem parse_returns_decoded_as_is (pre body post : text) (v : pyval) :
  ~ In (chr "{") pre ->
  ~ In (chr "}") post ->
  json_loads (chr "{" :: body ++ [chr "}"]) = Ok v ->
  _parse_extraction_response (pre ++ chr "{" :: body ++ chr "}" :: post) = Ok v
  /\ exists d, v = PDict d.
Proof.
  intros Hpre Hpost Hv. split.
  - rewrite parse_eq.
    destruct (search_brace pre body post Hpre Hpost) as (m & -> & ->).
    rewrite Hv. reflexivity.
  - apply json_loads_object in Hv. exact Hv.
Qed.

Lemma manual_fields (response_text : text) :
  let v := _manual_parse_response response_text in
  record_get (str "scope_of_work") v = Some (PStr (firstn 500 response_text ++ str "..."))
  /\ record_get (str "project_overview") v = Some (PStr fallback_notice)
  /\ Forall (fun k => record_get k v = Some not_specified) unspecified_in_fallback
  /\ record_get k_extracted_sections v = Some (PList [PStr (str "raw_content")])
  /\ record_get k_confidence_score v = Some (PFloat (FDec false 5 (-1))).
Proof.
  cbv zeta. split; [reflexivity|]. split; [reflexivity|]. split; [|split; reflexivity].
  unfold unspecified_in_fallback. split_forall; reflexivity.
Qed.

Lemma manual_has_sections (response_text : text) :
  Forall (fun k => exists s, record_get k (_manual_parse_response response_text) = Some (PStr s))
    section_keys.
Proof.
  unfold section_keys. split_forall; eexists; reflexivity.
Qed.

(** What [parse] does, for every text: it returns the literal found, decoded
    and as it is; or it returns the fallback record, in which each of the
    nine section keys holds a text and [confidence_score] is defined; or it
    raises what [json.loads] raised on the literal found, which is not a
    [JSONDecodeError]. *)
Lemma parse_outcomes (response_text : text) :
  match _parse_extraction_response response_text with
  | Ok v =>
      (exists json_match,
          search DOTALL brace_pattern response_text = Some json_match
          /\ json_loads (m_text response_text json_match) = Ok v)
      \/ (v = _manual_parse_response response_text
          /\ Forall (fun k => exists s, record_get k v = Some (PStr s)) section_keys
          /\ exists f, record_get k_confidence_score v = Some (PFloat f))
  | Raise e =>
      e <> Builtin JSONDecodeError
      /\ exists json_match,
           search DOTALL brace_pattern response_text = Some json_match
           /\ json_loads (m_text response_text json_match) = Raise e
  end.
Proof.
  rewrite parse_eq.
  destruct (search DOTALL brace_pattern response_text) as [m|] eqn:Es; cbv beta match.
  - destruct (json_loads (m_text response_text m)) as [v|e] eqn:Ej; cbv beta match.
    + left. exists m. split; [reflexivity|exact Ej].
    + destruct e as [b|msg|prefix e]; cbv beta match;
        try (split; [discriminate|]; exists m; split; [reflexivity|exact Ej]).
      destruct b; cbv beta match;
        try (split; [discriminate|]; exists m; split; [reflexivity|exact Ej]).
      right. split; [reflexivity|].
      split; [apply manual_has_sections|]. eexists; reflexivity.
  - right. split; [reflexivity|].
    split; [apply manual_has_sections|]. eexists; reflexivity.
Qed.

(** C3 as amended: when no brace-delimited literal is found or decoding
    fails with a [JSONDecodeError], [parse] returns the record whose
    [scope_of_work] is the first 500 characters of the text, at most,
    followed by "...", whose [project_overview] is the notice that
    formatting failed, whose seven other sections are "Not specified", whose
    [extracted_sections] is ["raw_content"] and whose [confidence_score] is
    0.5. *)
Theorem fallback_record (response_text : text) :
  fallback_taken response_text ->
  exists v,
    _parse_extraction_response response_text = Ok v
    /\ record_get (str "scope_of_work") v = Some (PStr (firstn 500 response_text ++ str "..."))
    /\ List.length (firstn 500 response_text) <= 500
    /\ record_get (str "project_overview") v = Some (PStr fallback_notice)
    /\ Forall (fun k => record_get k v = Some not_specified) unspecified_in_fallback
    /\ record_get k_extracted_sections v = Some (PList [PStr (str "raw_content")])
    /\ record_get k_confidence_score v = Some (PFloat (FDec false 5 (-1))).
Proof.
  unfold fallback_taken. intros H.
  exists (_manual_parse_response response_text).
  split.
  - rewrite parse_eq.
    destruct (search DOTALL brace_pattern response_text) as [m|]; [|reflexivity].
    rewrite H. reflexivity.
  - pose proof (manual_fields response_text) as (H1 & H2 & H3 & H4 & H5).
    split; [exact H1|]. split; [apply firstn_le_length|].
    split; [exact H2|]. split; [exact H3|]. split; [exact H4|exact H5].
Qed.

(** A text without opening brace takes the fallback. *)
Lemma fallback_without_brace (response_text : text) :
  ~ In (chr "{") response_text -> fallback_taken response_text.
Proof. intros H. unfold fallback_taken. rewrite search_no_brace by exact H. exact I. Qed.

End ExtractorFacts.

(** C1, as stated, fails: a literal that has only [project_overview] is
    returned with that key only; no other section, [extracted_sections] or
    [confidence_score] is filled in. *)
Lemma primary_path_fills_nothing :
  let d := [(str "project_overview", PStr (str "x"))] in
  json_loads (lim := sample_limits) overview_only = Ok (PDict d)
  /\ _parse_extraction_response (db := plain_db) (lim := sample_limits) overview_only
     = Ok (PDict d)
  /\ dict_get (str "scope_of_work") d = None
  /\ dict_get k_confidence_score d = None
  /\ dict_get (str "scope_of_work") (spec_filled d) = Some not_specified
  /\ PDict d <> PDict (spec_filled d).
Proof.
  cbv zeta. repeat split; try (vm_compute; reflexivity).
  vm_compute. discriminate.
Qed.

(** C2, at the failing input: on a response whose literal holds an integer
    of 4301 digits, [json.loads] raises [ValueError], which the handler,
    written for [JSONDecodeError], does not catch.  [parse] raises, on an
    interpreter with its default settings and whatever room it has for
    nested objects. *)
Theorem parse_raises_on_long_integer (depth : nat) :
  _parse_extraction_response (db := plain_db) (lim := cpython_limits (S depth))
    long_integer_answer
  = Raise (Builtin ValueError).
Proof. vm_compute. reflexivity. Qed.

(** [parse] raises as well on a response that nests more objects than the
    interpreter has room for. *)
Lemma parse_raises_on_deep_nesting :
  _parse_extraction_response (db := plain_db) (lim := cpython_limits 3)
    (single_quoted "{'a':{'a':{'a':{}}}}")
  = Raise (Builtin RecursionError).
Proof. vm_compute. reflexivity. Qed.

(** And where it returns, the record need not have the section keys: the
    text "{}" is returned as the empty record, without any section key and
    without [confidence_score]. *)
Lemma empty_literal_has_no_section :
  _parse_extraction_response (db := plain_db) (lim := sample_limits) (str "{}")
  = Ok (PDict [])
  /\ Forall (fun k => record_get k (PDict []) = None) section_keys
  /\ record_get k_confidence_score (PDict []) = None.
Proof.
  split; [vm_compute; reflexivity|]. split; [|reflexivity].
  unfold section_keys. split_forall; reflexivity.
Qed.

(** C3, as stated, fails: in the fallback [project_overview] is not
    "Not specified". *)
Lemma fallback_overview_is_a_notice :
  fallback_taken (db := plain_db) (lim := sample_limits) (str "no structure here")
  /\ exists v,
       _parse_extraction_response (db := plain_db) (lim := sample_limits)
         (str "no structure here") = Ok v
       /\ record_get (str "project_overview") v = Some (PStr fallback_notice)
       /\ record_get (str "project_overview") v <> Some not_specified.
Proof.
  split; [vm_compute; exact I|].
  eexists. split; [vm_compute; reflexivity|].
  split; [vm_compute; reflexivity|]. vm_compute. discriminate.
Qed.

(** ** The theorems at concrete inputs *)

Lemma parse_returns_decoded_as_is_witness :
  _parse_extraction_response (db := plain_db) (lim := sample_limits)
    (str "Here: " ++ chr "{" :: (quoted "project_overview" ++ str ": " ++ quoted "x")
       ++ chr "}" :: str " done")
  = Ok (PDict [(str "project_overview", PStr (str "x"))])
  /\ exists d, PDict [(str "project_overview", PStr (str "x"))] = PDict d.
Proof.
  apply (@parse_returns_decoded_as_is plain_db sample_limits).
  - vm_compute. intuition discriminate.
  - vm_compute. intuition discriminate.
  - vm_compute. reflexivity.
Defined.

Lemma fallback_record_witness :
  exists v,
    _parse_extraction_response (db := plain_db) (lim := sample_limits)
      (str "no structure here") = Ok v
    /\ record_get (str "scope_of_work") v
       = Some (PStr (firstn 500 (str "no structure here") ++ str "..."))
    /\ List.length (firstn 500 (str "no structure here")) <= 500
    /\ record_get (str "project_overview") v = Some (PStr fallback_notice)
    /\ Forall (fun k => record_get k v = Some not_specified) unspecified_in_fallback
    /\ record_get k_extracted_sections v = Some (PList [PStr (str "raw_content")])
    /\ record_get k_confidence_score v = Some (PFloat (FDec false 5 (-1))).
Proof.
  apply (@fallback_record plain_db sample_limits (str "no structure here")).
  vm_compute. exact I.
Defined.

Lemma redaction_stable_up_to_timestamp_witness :
  exists d summary,
    redact_content (db := plain_db) scenario_record epoch
      = Some (dict_set k_redaction_timestamp (PStr (isoformat epoch)) d, summary)
    /\ redact_content (db := plain_db) scenario_record epoch_later
      = Some (dict_set k_redaction_timestamp (PStr (isoformat epoch_later)) d, summary)
    /\ summary = ordered_summary (db := plain_db) scenario_record
    /\ (forall p t, left_to_right (finditer (db := plain_db) IGNORECASE p t)).
Proof.
  apply (@redaction_stable_up_to_timestamp plain_db scenario_record epoch epoch_later).
  no_dup_keys.
Defined.

Lemma non_string_passthrough_witness :
  exists out summary,
    redact_content (db := plain_db) metadata_record epoch = Some (out, summary)
    /\ dict_get k_extracted_sections out = Some (PList [PStr (str "location")])
    /\ summary = ordered_summary (db := plain_db) (string_fields metadata_record).
Proof.
  apply (@non_string_passthrough plain_db metadata_record epoch
           k_extracted_sections (PList [PStr (str "location")])).
  - no_dup_keys.
  - vm_compute. reflexivity.
  - reflexivity.
  - vm_compute. discriminate.
  - vm_compute. discriminate.
Defined.

Lemma every_string_key_scanned_witness :
  exists out summary,
    redact_content (db := plain_db) metadata_record epoch = Some (out, summary)
    /\ (forall k, In k (dict_keys out) <->
                  In k (dict_keys metadata_record) \/ k = k_redaction_applied
                  \/ k = k_redaction_timestamp)
    /\ dict_ok out
    /\ dict_get k_redaction_applied out = Some (PBool true)
    /\ dict_get k_redaction_timestamp out = Some (PStr (isoformat epoch))
    /\ (forall k s, dict_get k metadata_record = Some (PStr s) ->
          incl (map (tagged k) (redactions (db := plain_db) s)) summary
          /\ (k <> k_redaction_applied -> k <> k_redaction_timestamp ->
              dict_get k out = Some (PStr (redacted (db := plain_db) s)))).
Proof.
  apply (@every_string_key_scanned plain_db metadata_record epoch).
  no_dup_keys.
Defined.

(** ** What a run of the matcher depends on *)

Section RunFacts.
Context {db : UnicodeDB}.
Variable fl : flags.

Lemma down_In_iff (n k x : nat) : k <= S n -> (In x (down n k) <-> x <= n /\ n < x + k).
Proof.
  revert n; induction k as [|k IH]; intros n Hk; simpl.
  - split; [intros []|lia].
  - destruct n as [|n].
    + assert (k = 0) by lia. subst k. simpl. split; [intros [<-|[]]; lia|lia].
    + simpl. rewrite IH by lia. split.
      * intros [<-|H]; lia.
      * intros H. destruct (Nat.eq_dec x (S n)); [left; congruence|right; lia].
Qed.

(** A run is at least [k] long when [a] accepts the first [k] characters
    and the bound allows it. *)
Lemma run_len_ge (a : atom) (s : text) :
  forall hi k,
    k <= run_len fl a hi s <->
    (forall j, j < k -> exists c, nth_error s j = Some c /\ atom_match fl a c = true)
    /\ match hi with Some h => k <= h | None => True end.
Proof.
  induction s as [|c s IH]; intros hi k; simpl.
  - split.
    + intros H. assert (k = 0) by lia. subst k. split; [intros j Hj; lia|].
      destruct hi; [lia|exact I].
    + intros [H _]. destruct k; [lia|].
      destruct (H 0) as (c & Hc & _); [lia|]. discriminate.
  - destruct hi as [[|h]|].
    + split.
      * intros H. assert (k = 0) by lia. subst k. split; [intros j Hj; lia|lia].
      * intros [_ H]. lia.
    + destruct (atom_match fl a c) eqn:Ea.
      * destruct k as [|k]; [split; [intros _; split; [intros j Hj; lia|lia]|lia]|].
        rewrite <- Nat.succ_le_mono. simpl. rewrite (IH (Some h) k). split.
        -- intros [H1 H2]. split; [|lia]. intros [|j] Hj.
           ++ exists c. split; [reflexivity|exact Ea].
           ++ apply (H1 j). lia.
        -- intros [H1 H2]. split; [|lia]. intros j Hj.
           apply (H1 (S j)). lia.
      * split.
        -- intros H. assert (k = 0) by lia. subst k. split; [intros j Hj; lia|lia].
        -- intros [H _]. destruct k; [lia|].
           destruct (H 0) as (c' & [= <-] & Hc'); [lia|]. congruence.
    + destruct (atom_match fl a c) eqn:Ea.
      * destruct k as [|k]; [split; [intros _; split; [intros j Hj; lia|exact I]|lia]|].
        rewrite <- Nat.succ_le_mono. simpl. rewrite (IH None k). split.
        -- intros [H1 _]. split; [|exact I]. intros [|j] Hj.
           ++ exists c. split; [reflexivity|exact Ea].
           ++ apply (H1 j). lia.
        -- intros [H1 _]. split; [|exact I]. intros j Hj.
           apply (H1 (S j)). lia.
      * split.
        -- intros H. assert (k = 0) by lia. subst k. split; [intros j Hj; lia|exact I].
        -- intros [H _]. destruct k; [lia|].
           destruct (H 0) as (c' & [= <-] & Hc'); [lia|]. congruence.
Qed.

Lemma nth_error_skipn (A : Type) (l : list A) (i j : nat) :
  nth_error (skipn i l) j = nth_error l (i + j).
Proof.
  revert l; induction i as [|i IH]; intros l; [reflexivity|].
  destruct l as [|x l]; simpl; [destruct j; reflexivity|apply IH].
Qed.

(** The ends of a greedy repeat: any count between the lower bound and the
    upper bound whose characters are all accepted. *)
Lemma rep_ends (t : text) (a : atom) (lo : nat) (hi : option nat) (st st' : mstate) :
  In st' (rx_run fl t (RRep a lo hi) st) <->
  snd st' = snd st
  /\ exists k, fst st' = fst st + k /\ lo <= k
       /\ (forall j, j < k -> exists c, nth_error t (fst st + j) = Some c
                                        /\ atom_match fl a c = true)
       /\ match hi with Some h => k <= h | None => True end.
Proof.
  cbn [rx_run]. rewrite in_map_iff. split.
  - intros (k & <- & Hk). apply down_In_iff in Hk; [|lia].
    split; [reflexivity|]. exists k. split; [reflexivity|]. split; [lia|].
    assert (Hle : k <= run_len fl a hi (skipn (fst st) t)) by lia.
    apply run_len_ge in Hle. destruct Hle as [H1 H2]. split; [|exact H2].
    intros j Hj. destruct (H1 j Hj) as (c & Hc & Ha).
    rewrite nth_error_skipn in Hc. eauto.
  - intros (Hs & k & Hf & Hlo & Hacc & Hhi).
    exists k. split.
    + destruct st' as [p c]. simpl in *. subst. reflexivity.
    + assert (Hle : k <= run_len fl a hi (skipn (fst st) t)).
      { apply run_len_ge. split; [|exact Hhi]. intros j Hj.
        destruct (Hacc j Hj) as (c & Hc & Ha). exists c.
        rewrite nth_error_skipn. auto. }
      apply down_In_iff; lia.
Qed.

(** Every match takes at least [min_len] characters. *)
Lemma rx_run_min_len (t : text) (r : regex) :
  forall st st', In st' (rx_run fl t r st) -> fst st + min_len r <= fst st'.
Proof.
  induction r; intros st st' H; cbn [min_len].
  - destruct H as [<-|[]]. lia.
  - cbn [rx_run] in H. destruct (nth_error t (fst st)); [|contradiction].
    destruct (atom_match fl a c); [|contradiction].
    destruct H as [<-|[]]. simpl. lia.
  - apply rep_ends in H. destruct H as (_ & k & -> & Hlo & _). lia.
  - cbn [rx_run] in H. destruct (boundary t (fst st)); [|contradiction].
    destruct H as [<-|[]]. lia.
  - cbn [rx_run] in H. apply in_flat_map in H. destruct H as (mid & H1 & H2).
    apply IHr1 in H1. apply IHr2 in H2. lia.
  - cbn [rx_run] in H. apply in_app_or in H.
    destruct H as [H|H]; [apply IHr1 in H|apply IHr2 in H];
      (eapply Nat.le_trans; [|exact H]); apply Nat.add_le_mono_l;
      [apply Nat.le_min_l|apply Nat.le_min_r].
  - cbn [rx_run] in H. apply in_map_iff in H. destruct H as (st1 & <- & H).
    apply IHr in H. simpl. lia.
Qed.

(** Every character a match takes is accepted by some atom of the pattern. *)
Lemma rx_run_consumed (t : text) (r : regex) :
  forall st st', In st' (rx_run fl t r st) ->
    forall k, fst st <= k < fst st' ->
      exists c, nth_error t k = Some c /\ may_match fl r c = true.
Proof.
  unfold may_match.
  induction r; intros st st' H k Hk; cbn [atoms_of].
  - destruct H as [<-|[]]. lia.
  - cbn [rx_run] in H. destruct (nth_error t (fst st)) as [c|] eqn:E; [|contradiction].
    destruct (atom_match fl a c) eqn:Ea; [|contradiction].
    destruct H as [<-|[]]. simpl in Hk. assert (k = fst st) by lia. subst k.
    exists c. split; [exact E|]. simpl. rewrite Ea. reflexivity.
  - apply rep_ends in H. destruct H as (_ & n & Hn & _ & Hacc & _).
    rewrite Hn in Hk. destruct (Hacc (k - fst st)) as (c & Hc & Ha); [lia|].
    replace (fst st + (k - fst st)) with k in Hc by lia.
    exists c. split; [exact Hc|]. simpl. rewrite Ha. reflexivity.
  - cbn [rx_run] in H. destruct (boundary t (fst st)); [|contradiction].
    destruct H as [<-|[]]. lia.
  - cbn [rx_run] in H. apply in_flat_map in H. destruct H as (mid & H1 & H2).
    destruct (Nat.lt_ge_cases k (fst mid)) as [Hlt|Hge].
    + destruct (IHr1 _ _ H1 k) as (c & Hc & Hm); [lia|].
      exists c. split; [exact Hc|]. rewrite existsb_app, Hm. reflexivity.
    + destruct (IHr2 _ _ H2 k) as (c & Hc & Hm); [lia|].
      exists c. split; [exact Hc|]. rewrite existsb_app, Hm. apply orb_true_r.
  - cbn [rx_run] in H. apply in_app_or in H. destruct H as [H|H].
    + destruct (IHr1 _ _ H k Hk) as (c & Hc & Hm).
      exists c. split; [exact Hc|]. rewrite existsb_app, Hm. reflexivity.
    + destruct (IHr2 _ _ H k Hk) as (c & Hc & Hm).
      exists c. split; [exact Hc|]. rewrite existsb_app, Hm. apply orb_true_r.
  - cbn [rx_run] in H. apply in_map_iff in H. destruct H as (st1 & <- & H).
    simpl in Hk. apply (IHr _ _ H k Hk).
Qed.

Lemma agree_shift (t1 t2 : text) (i1 i2 n k : nat) :
  k <= n -> agree t1 i1 t2 i2 n -> agree t1 (i1 + k) t2 (i2 + k) (n - k).
Proof.
  intros Hk [Hc Hb]. split.
  - intros j Hj. rewrite <- !Nat.add_assoc. apply Hc. lia.
  - intros j Hj. rewrite <- !Nat.add_assoc. apply Hb. lia.
Qed.

Lemma agree_shorter (t1 t2 : text) (i1 i2 n k : nat) :
  k <= n -> agree t1 i1 t2 i2 n -> agree t1 i1 t2 i2 k.
Proof.
  intros Hk [Hc Hb]. split.
  - intros j Hj. apply Hc. lia.
  - intros j Hj. apply Hb. lia.
Qed.

(** A run that stays inside a stretch on which two texts agree is a run of
    the other text, at the matching positions. *)
Lemma rx_run_transfer (r : regex) :
  forall t1 t2 i1 i2 n caps1 caps2 st1,
    agree t1 i1 t2 i2 n ->
    In st1 (rx_run fl t1 r (i1, caps1)) ->
    fst st1 <= i1 + n ->
    exists caps', In (i2 + (fst st1 - i1), caps') (rx_run fl t2 r (i2, caps2)).
Proof.
  induction r as [|a|a lo hi| |r1 IHr1 r2 IHr2|r1 IHr1 r2 IHr2|g r IHr];
    intros t1 t2 i1 i2 n caps1 caps2 st1 Hag H Hle.
  - destruct H as [<-|[]]. simpl. rewrite Nat.sub_diag, Nat.add_0_r.
    eexists. left. reflexivity.
  - cbn [rx_run fst snd] in *.
    destruct (nth_error t1 i1) as [c|] eqn:E; [|contradiction].
    destruct (atom_match fl a c) eqn:Ea; [|contradiction].
    destruct H as [<-|[]]. cbn [fst snd] in *.
    destruct Hag as [Hc _]. destruct (Hc 0) as (c' & H1 & H2); [lia|].
    rewrite Nat.add_0_r in H1, H2. rewrite H1 in E. injection E as ->.
    rewrite H2, Ea. eexists. left. f_equal. lia.
  - apply rep_ends in H. cbn [fst snd] in H.
    destruct H as (_ & k & Hk & Hlo & Hacc & Hhi).
    exists caps2. apply rep_ends. cbn [fst snd]. split; [reflexivity|].
    exists k. split; [lia|]. split; [exact Hlo|]. split; [|exact Hhi].
    intros j Hj. destruct (Hacc j Hj) as (c & Hc & Ha).
    destruct Hag as [Hch _]. destruct (Hch j) as (c' & H1 & H2); [lia|].
    rewrite H1 in Hc. injection Hc as ->. eauto.
  - cbn [rx_run fst snd] in *.
    destruct (boundary t1 i1) eqn:Eb; [|contradiction].
    destruct H as [<-|[]]. simpl.
    destruct Hag as [_ Hb]. specialize (Hb 0). rewrite !Nat.add_0_r in Hb.
    rewrite Hb by (try lia; exact Eb).
    rewrite Nat.sub_diag, Nat.add_0_r. eexists. left. reflexivity.
  - cbn [rx_run] in H. apply in_flat_map in H. destruct H as ([m cm] & H1 & H2).
    pose proof (rx_run_forward _ _ _ _ _ H1) as F1.
    pose proof (rx_run_forward _ _ _ _ _ H2) as F2. cbn [fst] in F1, F2.
    destruct (IHr1 _ _ _ _ _ _ caps2 _ Hag H1) as (c1 & G1); [cbn [fst]; lia|].
    cbn [fst] in G1.
    assert (Hag' : agree t1 m t2 (i2 + (m - i1)) (n - (m - i1))).
    { replace m with (i1 + (m - i1)) at 1 by lia. apply agree_shift; [lia|exact Hag]. }
    destruct (IHr2 _ _ _ _ _ _ c1 _ Hag' H2) as (c2 & G2); [lia|].
    exists c2. cbn [rx_run]. apply in_flat_map.
    exists (i2 + (m - i1), c1). split; [exact G1|].
    replace (i2 + (fst st1 - i1)) with (i2 + (m - i1) + (fst st1 - m)) by lia.
    exact G2.
  - cbn [rx_run] in H. apply in_app_or in H. destruct H as [H|H].
    + destruct (IHr1 _ _ _ _ _ _ caps2 _ Hag H Hle) as (c & G).
      exists c. cbn [rx_run]. apply in_or_app. left. exact G.
    + destruct (IHr2 _ _ _ _ _ _ caps2 _ Hag H Hle) as (c & G).
      exists c. cbn [rx_run]. apply in_or_app. right. exact G.
  - cbn [rx_run] in H. apply in_map_iff in H. destruct H as (st0 & <- & H).
    cbn [fst] in *.
    destruct (IHr _ _ _ _ _ _ caps2 _ Hag H Hle) as (c & G).
    eexists. cbn [rx_run]. apply in_map_iff.
    exists (i2 + (fst st0 - i1), c). split; [reflexivity|exact G].
Qed.

(** A sequence written as a list of pieces. *)
Lemma rx_run_seq_app (t : text) (l1 l2 : list regex) (st : mstate) :
  rx_run fl t (seq_of (l1 ++ l2)) st
  = flat_map (rx_run fl t (seq_of l2)) (rx_run fl t (seq_of l1) st).
Proof.
  revert st; induction l1 as [|r l1 IH]; intros st; cbn [seq_of app fold_right rx_run flat_map].
  - rewrite app_nil_r. reflexivity.
  - fold (seq_of (l1 ++ l2)). fold (seq_of l1).
    induction (rx_run fl t r st) as [|x xs IHx]; cbn [flat_map]; [reflexivity|].
    rewrite IH, IHx, flat_map_app. reflexivity.
Qed.

Lemma rx_run_seq_one (t : text) (r : regex) (st : mstate) :
  rx_run fl t (seq_of [r]) st = rx_run fl t r st.
Proof.
  cbn [seq_of fold_right rx_run].
  induction (rx_run fl t r st) as [|x xs IH]; cbn [flat_map app]; [reflexivity|].
  rewrite IH. reflexivity.
Qed.

(** A match of a framed pattern: a boundary, a match of the core, a
    boundary. *)
Lemma framed_run (t : text) (core : list regex) (st st' : mstate) :
  In st' (rx_run fl t (framed core) st) <->
  boundary t (fst st) = true
  /\ In st' (rx_run fl t (seq_of core) st)
  /\ boundary t (fst st') = true.
Proof.
  unfold framed. change (RBoundary :: core ++ [RBoundary]) with ([RBoundary] ++ core ++ [RBoundary]).
  rewrite rx_run_seq_app, rx_run_seq_one. cbn [rx_run].
  destruct (boundary t (fst st)) eqn:Eb; cbn [flat_map].
  - rewrite app_nil_r, rx_run_seq_app, in_flat_map. split.
    + intros (mid & H1 & H2). rewrite rx_run_seq_one in H2. cbn [rx_run] in H2.
      destruct (boundary t (fst mid)) eqn:Em; [|contradiction].
      destruct H2 as [<-|[]]. auto.
    + intros (_ & H1 & H2). exists st'. split; [exact H1|].
      rewrite rx_run_seq_one. cbn [rx_run]. rewrite H2. left; reflexivity.
  - split; [intros []|intros (H & _); discriminate].
Qed.

End RunFacts.

(** ** The patterns of the table *)

Section TableFacts.
Context {db : UnicodeDB}.

Lemma all_patterns_well_behaved : Forall well_behaved all_patterns.
Proof.
  unfold all_patterns, redaction_table. cbn [map snd List.concat app].
  split_forall; (split; [reflexivity|]); (split; [vm_compute; lia|]);
    first [left; vm_compute; reflexivity | right; vm_compute; reflexivity].
Qed.

End TableFacts.

(** ** A text in which one stretch is replaced by the placeholder *)

Section Replaced.
Context {db : UnicodeDB}.
Variables a b : text.

Lemma length_REDACTED : List.length REDACTED = 10.
Proof. reflexivity. Qed.

Lemma nth_placeholder (k : nat) :
  k < 10 -> nth_error (a ++ REDACTED ++ b) (List.length a + k) = nth_error REDACTED k.
Proof.
  intros Hk. rewrite nth_error_app2 by lia.
  replace (List.length a + k - List.length a) with k by lia.
  apply nth_error_app1. rewrite length_REDACTED. exact Hk.
Qed.

Lemma nth_after_placeholder (k : nat) :
  nth_error (a ++ REDACTED ++ b) (List.length a + 10 + k) = nth_error b k.
Proof.
  rewrite nth_error_app2 by lia. rewrite nth_error_app2 by (rewrite length_REDACTED; lia).
  f_equal. rewrite length_REDACTED. lia.
Qed.

Lemma word_at_placeholder (k : nat) :
  k < 10 -> word_at (a ++ REDACTED ++ b) (List.length a + k) = word_at REDACTED k.
Proof. intros Hk. unfold word_at. rewrite nth_placeholder by exact Hk. reflexivity. Qed.

Lemma boundary_in_placeholder (k : nat) :
  k < 9 ->
  boundary (a ++ REDACTED ++ b) (List.length a + S k)
  = xorb (word_at REDACTED k) (word_at REDACTED (S k)).
Proof.
  intros Hk. unfold boundary. rewrite Nat.add_succ_r. cbn [word_before].
  rewrite <- Nat.add_succ_r. rewrite !word_at_placeholder by lia. reflexivity.
Qed.

Lemma boundary_placeholder_start :
  boundary (a ++ REDACTED ++ b) (List.length a) = word_before a (List.length a).
Proof.
  unfold boundary.
  replace (word_at (a ++ REDACTED ++ b) (List.length a)) with false.
  2:{ rewrite <- (Nat.add_0_r (List.length a)) at 1.
      rewrite word_at_placeholder by lia. reflexivity. }
  rewrite xorb_false_r. destruct (List.length a) as [|n] eqn:E; [reflexivity|].
  cbn [word_before]. unfold word_at. rewrite nth_error_app1 by lia. reflexivity.
Qed.

Lemma boundary_placeholder_end :
  boundary (a ++ REDACTED ++ b) (List.length a + 10) = word_at b 0.
Proof.
  unfold boundary. replace (List.length a + 10) with (S (List.length a + 9)) at 1 by lia.
  cbn [word_before]. rewrite word_at_placeholder by lia.
  change (word_at REDACTED 9) with false. rewrite xorb_false_l.
  unfold word_at. rewrite <- (Nat.add_0_r (List.length a + 10)).
  rewrite nth_after_placeholder. reflexivity.
Qed.

End Replaced.

Section Replace.
Context {db : UnicodeDB}.
Variables a x b : text.

Lemma nth_before_span (mid : text) (k : nat) :
  k < List.length a -> nth_error (a ++ mid ++ b) k = nth_error a k.
Proof. intros Hk. apply nth_error_app1. exact Hk. Qed.

Lemma nth_after_span (mid : text) (k : nat) :
  nth_error (a ++ mid ++ b) (List.length a + List.length mid + k) = nth_error b k.
Proof.
  rewrite nth_error_app2 by lia. rewrite nth_error_app2 by lia. f_equal. lia.
Qed.

Lemma word_before_span (mid : text) (k : nat) :
  k <= List.length a -> word_before (a ++ mid ++ b) k = word_before a k.
Proof.
  intros Hk. destruct k as [|k]; [reflexivity|]. cbn [word_before]. unfold word_at.
  rewrite nth_before_span by lia. reflexivity.
Qed.

Lemma boundary_before_span (mid1 mid2 : text) (k : nat) :
  k < List.length a -> boundary (a ++ mid1 ++ b) k = boundary (a ++ mid2 ++ b) k.
Proof.
  intros Hk. unfold boundary. rewrite !word_before_span by lia.
  unfold word_at. rewrite !nth_before_span by lia. reflexivity.
Qed.

Lemma boundary_after_span (mid1 mid2 : text) (k : nat) :
  boundary (a ++ mid1 ++ b) (List.length a + List.length mid1 + S k)
  = boundary (a ++ mid2 ++ b) (List.length a + List.length mid2 + S k).
Proof.
  unfold boundary. rewrite !Nat.add_succ_r. cbn [word_before].
  unfold word_at. rewrite <- !Nat.add_succ_r. rewrite !nth_after_span. reflexivity.
Qed.

(** Before the stretch the two texts agree, when the stretch starts at a
    word boundary. *)
Lemma agree_before (i n : nat) :
  i + n <= List.length a ->
  boundary (a ++ x ++ b) (List.length a) = true ->
  agree (a ++ REDACTED ++ b) i (a ++ x ++ b) i n.
Proof.
  intros Hle Hb. split.
  - intros k Hk. rewrite !nth_before_span by lia.
    destruct (nth_error a (i + k)) as [c|] eqn:E; [eauto|].
    apply nth_error_None in E. lia.
  - intros k Hk Hbk. destruct (Nat.eq_dec (i + k) (List.length a)) as [->|Hne].
    + exact Hb.
    + rewrite (boundary_before_span x REDACTED) by lia. exact Hbk.
Qed.

(** After the stretch the two texts agree, when the stretch ends at a word
    boundary or before a character that is not a word character. *)
Lemma agree_after (i n : nat) :
  List.length a + 10 <= i ->
  i + n <= List.length (a ++ REDACTED ++ b) ->
  (word_at (a ++ x ++ b) (List.length a + List.length x) = true ->
   boundary (a ++ x ++ b) (List.length a + List.length x) = true) ->
  agree (a ++ REDACTED ++ b) i (a ++ x ++ b) (i - 10 + List.length x) n.
Proof.
  intros Hi Hlen Hb. rewrite !length_app, length_REDACTED in Hlen. split.
  - intros k Hk.
    replace (i + k) with (List.length a + List.length REDACTED + (i + k - List.length a - 10))
      by (rewrite length_REDACTED; lia).
    replace (i - 10 + List.length x + k)
      with (List.length a + List.length x + (i + k - List.length a - 10)) by lia.
    rewrite !nth_after_span.
    destruct (nth_error b (i + k - List.length a - 10)) as [c|] eqn:E; [eauto|].
    apply nth_error_None in E. lia.
  - intros k Hk Hbk. destruct (Nat.eq_dec (i + k) (List.length a + 10)) as [E|Hne].
    + replace (i - 10 + List.length x + k) with (List.length a + List.length x) by lia.
      apply Hb. rewrite E, boundary_placeholder_end in Hbk.
      unfold word_at. rewrite <- (Nat.add_0_r (List.length a + List.length x)).
      rewrite nth_after_span. exact Hbk.
    + replace (i + k)
        with (List.length a + List.length REDACTED + S (i + k - List.length a - 11))
        in Hbk by (rewrite length_REDACTED; lia).
      replace (i - 10 + List.length x + k)
        with (List.length a + List.length x + S (i + k - List.length a - 11)) by lia.
      rewrite (boundary_after_span x REDACTED). exact Hbk.
Qed.

(** Inside the placeholder the text agrees with the probe. *)
Lemma agree_inside (i n : nat) :
  List.length a <= i ->
  i + n <= List.length a + 10 ->
  agree (a ++ REDACTED ++ b) i probe (i - List.length a + 1) n.
Proof.
  intros Hi Hle.
  change probe with (str "w" ++ REDACTED ++ str "w").
  split.
  - intros k Hk.
    replace (i + k) with (List.length a + (i + k - List.length a)) by lia.
    replace (i - List.length a + 1 + k)
      with (List.length (str "w") + (i + k - List.length a)) by (simpl; lia).
    rewrite !nth_placeholder by lia.
    destruct (nth_error REDACTED (i + k - List.length a)) as [c|] eqn:E; [eauto|].
    apply nth_error_None in E. rewrite length_REDACTED in E. lia.
  - intros k Hk Hbk.
    destruct (Nat.eq_dec (i + k) (List.length a)) as [E|Hne0].
    { replace (i - List.length a + 1 + k) with 1 by lia. reflexivity. }
    destruct (Nat.eq_dec (i + k) (List.length a + 10)) as [E|Hne1].
    { replace (i - List.length a + 1 + k) with 11 by lia. reflexivity. }
    replace (i + k) with (List.length a + S (i + k - List.length a - 1)) in Hbk by lia.
    replace (i - List.length a + 1 + k)
      with (List.length (str "w") + S (i + k - List.length a - 1)) by (simpl; lia).
    rewrite boundary_in_placeholder in Hbk by lia.
    rewrite boundary_in_placeholder by lia. exact Hbk.
Qed.

End Replace.

(** ** One replacement creates no match *)

Section SingleStep.
Context {db : UnicodeDB}.
Hypothesis Hdb : db_consistent.

Lemma not_space_match (c : char) :
  atom_match IGNORECASE not_space c = negb (is_space c).
Proof. unfold not_space. cbn. destruct (is_space c); reflexivity. Qed.

(** From a word character on, a run of characters that are not white space
    reaches a word boundary. *)
Lemma ns_run_boundary (t : text) :
  forall n i, List.length t - i <= n -> word_at t i = true ->
    exists k, 1 <= k
      /\ (forall j, j < k -> exists c, nth_error t (i + j) = Some c
                                      /\ atom_match IGNORECASE not_space c = true)
      /\ boundary t (i + k) = true.
Proof.
  induction n as [|n IH]; intros i Hn Hw.
  - unfold word_at in Hw. destruct (nth_error t i) eqn:E; [|discriminate].
    assert (i < List.length t) by (apply nth_error_Some; congruence). lia.
  - assert (Hw' := Hw). unfold word_at in Hw.
    destruct (nth_error t i) as [c|] eqn:E; [|discriminate].
    assert (Hi : i < List.length t) by (apply nth_error_Some; congruence).
    assert (Hc : atom_match IGNORECASE not_space c = true).
    { rewrite not_space_match. destruct (is_space c) eqn:Es; [|reflexivity].
      apply Hdb in Es. congruence. }
    destruct (word_at t (S i)) eqn:Ew.
    + destruct (IH (S i)) as (k & Hk & Hacc & Hb); [lia|exact Ew|].
      exists (S k). split; [lia|]. split.
      * intros [|j] Hj.
        -- rewrite Nat.add_0_r. eauto.
        -- rewrite Nat.add_succ_r. apply (Hacc j). lia.
      * rewrite Nat.add_succ_r. exact Hb.
    + exists 1. split; [lia|]. split.
      * intros j Hj. assert (j = 0) by lia. subst j. rewrite Nat.add_0_r. eauto.
      * rewrite Nat.add_1_r. unfold boundary. cbn [word_before].
        rewrite Hw', Ew. reflexivity.
Qed.

Lemma url_prefix_spec (p : regex) (pre : list regex) :
  url_prefix p = Some pre -> core_of p = pre ++ [RRep not_space 1 None].
Proof.
  unfold url_prefix. intros H.
  rewrite <- (rev_involutive (core_of p)).
  destruct (rev (core_of p)) as [|h rpre]; [discriminate|].
  destruct h as [| |at0 lo hi| | | |]; try discriminate.
  destruct at0 as [| |neg items]; try discriminate.
  destruct neg; try discriminate.
  destruct items as [|it items]; try discriminate.
  destruct it; try discriminate.
  destruct items; try discriminate.
  destruct lo as [|[|lo]]; try discriminate.
  destruct hi; try discriminate.
  injection H as <-. reflexivity.
Qed.

Lemma url_ok_spec (p : regex) :
  url_ok p = true ->
  exists a1 tl pre0 sep,
    core_of p = (RAtom a1 :: tl) ++ [RRep not_space 1 None]
    /\ RAtom a1 :: tl = pre0 ++ [RAtom (ALit sep)]
    /\ (forall c, In c REDACTED -> atom_match IGNORECASE a1 c = false)
    /\ is_cased sep = false
    /\ is_word sep = false
    /\ may_match IGNORECASE (seq_of (RAtom a1 :: tl)) (chr "[") = false.
Proof.
  unfold url_ok. destruct (url_prefix p) as [pre|] eqn:Ep; [|discriminate].
  apply url_prefix_spec in Ep.
  destruct pre as [|hd tl]; [discriminate|].
  destruct hd as [|a1| | | | |]; try discriminate.
  destruct (rev (RAtom a1 :: tl)) as [|lst rpre0] eqn:Er; [discriminate|].
  destruct lst as [|al| | | | |]; try discriminate.
  destruct al as [sep| |]; try discriminate.
  intros H. apply andb_true_iff in H. destruct H as [H H4].
  apply andb_true_iff in H. destruct H as [H H3].
  apply andb_true_iff in H. destruct H as [H1 H2].
  exists a1, tl, (rev rpre0), sep. split; [exact Ep|]. split.
  - rewrite <- (rev_involutive (RAtom a1 :: tl)), Er. reflexivity.
  - split.
    + intros c Hc. rewrite forallb_forall in H1. apply H1 in Hc.
      apply negb_true_iff in Hc. exact Hc.
    + split; [apply negb_true_iff; exact H2|].
      split; [apply negb_true_iff; exact H3|apply negb_true_iff; exact H4].
Qed.

Lemma seq_first_atom (fl : flags) (t : text) (a1 : atom) (tl : list regex) (st st' : mstate) :
  In st' (rx_run fl t (seq_of (RAtom a1 :: tl)) st) ->
  exists c, nth_error t (fst st) = Some c /\ atom_match fl a1 c = true.
Proof.
  cbn [seq_of fold_right rx_run]. intros H. apply in_flat_map in H.
  destruct H as (mid & H & _).
  destruct (nth_error t (fst st)) as [c|]; [|contradiction].
  destruct (atom_match fl a1 c) eqn:E; [|contradiction]. eauto.
Qed.

Lemma seq_last_atom (fl : flags) (t : text) (pre0 : list regex) (al : atom) (st st' : mstate) :
  In st' (rx_run fl t (seq_of (pre0 ++ [RAtom al])) st) ->
  exists c j, fst st' = S j /\ fst st <= j /\ nth_error t j = Some c
              /\ atom_match fl al c = true.
Proof.
  rewrite rx_run_seq_app. intros H. apply in_flat_map in H.
  destruct H as (mid & H1 & H2). rewrite rx_run_seq_one in H2. cbn [rx_run] in H2.
  apply rx_run_forward in H1.
  destruct (nth_error t (fst mid)) as [c|] eqn:E; [|contradiction].
  destruct (atom_match fl al c) eqn:Ea; [|contradiction].
  destruct H2 as [<-|[]]. exists c, (fst mid). cbn [fst]. auto.
Qed.

(** Replacing by the placeholder a stretch that starts at a word boundary
    and ends at one (or before a character that is not a word character)
    creates no match: a match of the new text starts outside the
    placeholder, where the old text has a match too. *)
Lemma replace_reflects (p : regex) (a x b : text) :
  well_behaved p ->
  boundary (a ++ x ++ b) (List.length a) = true ->
  (word_at (a ++ x ++ b) (List.length a + List.length x) = true ->
   boundary (a ++ x ++ b) (List.length a + List.length x) = true) ->
  forall i' st',
    In st' (rx_run IGNORECASE (a ++ REDACTED ++ b) p (i', [])) ->
    (i' < List.length a
     /\ exists st, In st (rx_run IGNORECASE (a ++ x ++ b) p (i', [])))
    \/ (List.length a + 10 <= i'
        /\ exists st, In st (rx_run IGNORECASE (a ++ x ++ b) p
                               (i' - 10 + List.length x, []))).
Proof.
  intros (Hfr & Hmin & Hkind) Hbl Hbr i' [j' caps'] Hrun.
  pose proof (rx_run_min_len _ _ _ _ _ Hrun) as Hlen. cbn [fst] in Hlen.
  assert (Hij : i' < j') by lia.
  assert (Hj : j' <= List.length (a ++ REDACTED ++ b)).
  { destruct (@rx_run_consumed _ _ _ _ _ _ Hrun (j' - 1)) as (c & Hc & _); [cbn [fst]; lia|].
    assert (j' - 1 < List.length (a ++ REDACTED ++ b)) by (apply nth_error_Some; congruence).
    lia. }
  destruct (le_lt_dec j' (List.length a)) as [Hc1|Hc1].
  { left. split; [lia|].
    destruct (@rx_run_transfer _ IGNORECASE p _ _ _ _ (j' - i') [] [] _
                (agree_before a x b i' (j' - i') ltac:(lia) Hbl) Hrun) as (c & Hc);
      [cbn [fst]; lia|]. eauto. }
  destruct (le_lt_dec (List.length a + 10) i') as [Hc2|Hc2].
  { right. split; [lia|].
    destruct (@rx_run_transfer _ IGNORECASE p _ _ _ _ (j' - i') [] [] _
                (@agree_after _ a x b i' (j' - i') Hc2 ltac:(lia) Hbr) Hrun) as (c & Hc);
      [cbn [fst]; lia|]. eauto. }
  destruct Hkind as [Hplain|Hurl].
  - exfalso. unfold plain_ok in Hplain.
    apply andb_true_iff in Hplain. destruct Hplain as [Hplain Hprobe].
    apply andb_true_iff in Hplain. destruct Hplain as [Hno1 Hno2].
    apply negb_true_iff in Hno1, Hno2.
    destruct (le_lt_dec i' (List.length a)) as [Hs|Hs].
    + destruct (@rx_run_consumed _ _ _ _ _ _ Hrun (List.length a)) as (c & Hc & Hm);
        [cbn [fst]; lia|].
      rewrite <- (Nat.add_0_r (List.length a)) in Hc.
      rewrite nth_placeholder in Hc by lia. injection Hc as <-.
      exact (eq_true_false_abs _ Hm Hno1).
    + destruct (le_lt_dec j' (List.length a + 9)) as [He|He].
      * destruct (@rx_run_transfer _ IGNORECASE p _ _ _ _ (j' - i') [] [] _
                    (@agree_inside _ a b i' (j' - i') ltac:(lia) ltac:(lia)) Hrun) as (c & Hc);
          [cbn [fst]; lia|].
        rewrite forallb_forall in Hprobe.
        specialize (Hprobe (i' - List.length a + 1)).
        rewrite in_seq in Hprobe.
        destruct (rx_run IGNORECASE probe p (i' - List.length a + 1, [])); [contradiction|].
        assert (false = true) by (apply Hprobe; lia). discriminate.
      * destruct (@rx_run_consumed _ _ _ _ _ _ Hrun (List.length a + 9)) as (c & Hc & Hm);
          [cbn [fst]; lia|].
        rewrite nth_placeholder in Hc by lia. injection Hc as <-.
        exact (eq_true_false_abs _ Hm Hno2).
  - apply url_ok_spec in Hurl.
    destruct Hurl as (a1 & tl & pre0 & sep & Hcore & Hpre & Hfirst & Hsc & Hsw & Hno).
    rewrite Hfr in Hrun. apply framed_run in Hrun. cbn [fst] in Hrun.
    destruct Hrun as (Hb1 & Hrun & Hb2).
    rewrite Hcore, rx_run_seq_app in Hrun. apply in_flat_map in Hrun.
    destruct Hrun as ([m' cm] & Hp & Hr). rewrite rx_run_seq_one in Hr.
    apply rep_ends in Hr. cbn [fst snd] in Hr.
    destruct Hr as (_ & k & Hk & Hk1 & Hacc & _).
    (* the match starts before the placeholder *)
    assert (Hi : i' < List.length a).
    { destruct (le_lt_dec (List.length a) i') as [Hge|]; [|assumption]. exfalso.
      pose proof Hp as Hp0. apply seq_first_atom in Hp0.
      destruct Hp0 as (c & Hc & Ha). cbn [fst] in Hc.
      replace i' with (List.length a + (i' - List.length a)) in Hc by lia.
      rewrite nth_placeholder in Hc by lia.
      apply nth_error_In in Hc. apply Hfirst in Hc. congruence. }
    (* the prefix ends before the placeholder *)
    assert (Hm : m' <= List.length a).
    { destruct (le_lt_dec m' (List.length a)) as [|Hgt]; [assumption|]. exfalso.
      destruct (@rx_run_consumed _ _ _ _ _ _ Hp (List.length a)) as (c & Hc & Hmm);
        [cbn [fst]; lia|].
      rewrite <- (Nat.add_0_r (List.length a)) in Hc.
      rewrite nth_placeholder in Hc by lia. injection Hc as <-.
      exact (eq_true_false_abs _ Hmm Hno). }
    pose proof (rx_run_forward _ _ _ _ _ Hp) as Hfw. cbn [fst] in Hfw.
    destruct (@rx_run_transfer _ IGNORECASE (seq_of (RAtom a1 :: tl)) _ _ _ _ (m' - i')
                [] [] _ (agree_before a x b i' (m' - i') ltac:(lia) Hbl) Hp) as (c1 & Hp');
      [cbn [fst]; lia|].
    cbn [fst] in Hp'. replace (i' + (m' - i')) with m' in Hp' by lia.
    assert (Hb1' : boundary (a ++ x ++ b) i' = true).
    { rewrite (boundary_before_span a b x REDACTED) by lia. exact Hb1. }
    left. split; [exact Hi|].
    assert (Hgoal : forall e,
               (1 <= e - m' /\ (forall j, j < e - m' ->
                  exists c, nth_error (a ++ x ++ b) (m' + j) = Some c
                            /\ atom_match IGNORECASE not_space c = true)
                /\ m' <= e /\ boundary (a ++ x ++ b) e = true) ->
               exists st, In st (rx_run IGNORECASE (a ++ x ++ b) p (i', []))).
    { intros e (He1 & He2 & He3 & He4). exists (e, c1).
      rewrite Hfr. apply framed_run. cbn [fst]. split; [exact Hb1'|]. split; [|exact He4].
      rewrite Hcore, rx_run_seq_app. apply in_flat_map.
      exists (m', c1). split; [exact Hp'|].
      rewrite rx_run_seq_one. apply rep_ends. cbn [fst snd]. split; [reflexivity|].
      exists (e - m'). split; [lia|]. split; [exact He1|]. split; [exact He2|exact I]. }
    destruct (Nat.eq_dec m' (List.length a)) as [Heq|Hne].
    + (* the prefix ends at the stretch: the stretch starts with a word character *)
      rewrite Hpre in Hp.
      apply seq_last_atom in Hp. destruct Hp as (c & j & Hj1 & Hj2 & Hc & Ha).
      cbn [fst] in Hj1, Hj2. cbn [atom_match] in Ha.
      rewrite Hsc, andb_false_r in Ha. apply N.eqb_eq in Ha. subst c.
      assert (Hwb : word_before (a ++ x ++ b) (List.length a) = false).
      { rewrite <- Heq, Hj1. cbn [word_before]. unfold word_at.
        rewrite nth_before_span by lia. rewrite nth_before_span in Hc by lia.
        rewrite Hc. exact Hsw. }
      assert (Hwa : word_at (a ++ x ++ b) (List.length a) = true).
      { unfold boundary in Hbl. rewrite Hwb in Hbl. exact Hbl. }
      destruct (@ns_run_boundary (a ++ x ++ b) (List.length (a ++ x ++ b)) (List.length a))
        as (k2 & Hk2 & Hacc2 & Hb2'); [lia|exact Hwa|].
      apply (Hgoal (List.length a + k2)). rewrite Heq.
      replace (List.length a + k2 - List.length a) with k2 by lia.
      split; [exact Hk2|]. split; [exact Hacc2|]. split; [lia|exact Hb2'].
    + (* the run reaches the stretch, which starts at a boundary *)
      apply (Hgoal (List.length a)). split; [lia|]. split; [|split; [lia|exact Hbl]].
      intros j Hj0. destruct (Hacc j) as (c & Hc & Ha); [lia|].
      rewrite nth_before_span in Hc by lia. rewrite nth_before_span by lia. eauto.
Qed.

End SingleStep.

(** ** All the replacements of one pattern *)

Section AllReplacements.
Context {db : UnicodeDB}.

Lemma match_at_In (fl : flags) (t : text) (r : regex) (i : nat) (m : rmatch) :
  match_at fl t r i = Some m -> fst m = i /\ In (snd m) (rx_run fl t r (i, [])).
Proof.
  unfold match_at. destruct (rx_run fl t r (i, [])) as [|st l]; [discriminate|].
  intros [= <-]. split; [reflexivity|left; reflexivity].
Qed.

Lemma match_at_nonempty_In (fl : flags) (t : text) (r : regex) (i : nat) (m : rmatch) :
  match_at_nonempty fl t r i = Some m -> fst m = i /\ In (snd m) (rx_run fl t r (i, [])).
Proof.
  unfold match_at_nonempty.
  match goal with
  | |- context [filter ?f ?l] => destruct (filter f l) as [|st l'] eqn:E
  end; [discriminate|].
  intros [= <-]. split; [reflexivity|].
  assert (H : In st (st :: l')) by (left; reflexivity).
  rewrite <- E in H. apply filter_In in H. apply H.
Qed.

(** Every match the scan reports is a run of the matcher from its start. *)
Lemma scan_sound (fl : flags) (t : text) (r : regex) (rest : text) :
  forall i resume m, In m (scan fl t r i resume rest) ->
    In (snd m) (rx_run fl t r (fst m, [])).
Proof.
  assert (Hm : forall i m, match_at fl t r i = Some m ->
                           In (snd m) (rx_run fl t r (fst m, []))).
  { intros i m H. apply match_at_In in H. destruct H as [-> H]. exact H. }
  assert (Hn : forall i m, match_at_nonempty fl t r i = Some m ->
                           In (snd m) (rx_run fl t r (fst m, []))).
  { intros i m H. apply match_at_nonempty_In in H. destruct H as [-> H]. exact H. }
  induction rest as [|c rest IH]; intros i resume m; rewrite scan_eq; unfold scan_next.
  - destruct (i <? resume); [intros []|].
    destruct (match_at fl t r i) as [m0|] eqn:E0; [|intros []].
    destruct (m_end m0 =? i).
    + destruct (match_at_nonempty fl t r i) as [m1|] eqn:E1.
      * intros [<-|[<-|[]]]; eauto.
      * intros [<-|[]]; eauto.
    + intros [<-|[]]; eauto.
  - destruct (i <? resume); [apply IH|].
    destruct (match_at fl t r i) as [m0|] eqn:E0; [|apply IH].
    destruct (m_end m0 =? i).
    + destruct (match_at_nonempty fl t r i) as [m1|] eqn:E1.
      * intros [<-|[<-|H]]; eauto.
      * intros [<-|H]; eauto.
    + intros [<-|H]; eauto.
Qed.

Lemma left_to_right_tail (m : rmatch) (ms : list rmatch) :
  left_to_right (m :: ms) -> left_to_right ms.
Proof.
  intros H a b m1 m2 Hab H1 H2. apply (H (S a) (S b)); [lia|exact H1|exact H2].
Qed.

Lemma left_to_right_spans (t : text) (ms : list rmatch) :
  forall lo,
    left_to_right ms ->
    (forall m, In m ms -> lo <= m_start m /\ m_start m < m_end m /\ m_end m <= List.length t) ->
    spans_ok t ms lo.
Proof.
  induction ms as [|m ms IH]; intros lo Hs Hall; cbn [spans_ok]; [exact I|].
  destruct (Hall m (or_introl eq_refl)) as (H1 & H2 & H3).
  split; [exact H1|]. split; [exact H2|]. split; [exact H3|].
  apply IH; [apply (left_to_right_tail Hs)|].
  intros m' Hin. destruct (Hall m' (or_intror Hin)) as (_ & G2 & G3).
  split; [|split; assumption].
  apply In_nth_error in Hin. destruct Hin as (n & Hn).
  apply (Hs 0 (S n) m m'); [lia|reflexivity|exact Hn].
Qed.

(** The matches of a well-behaved pattern are not empty, lie in the text,
    follow one another and start and end at word boundaries. *)
Lemma finditer_spans (p : regex) (t : text) :
  well_behaved p ->
  spans_ok t (finditer IGNORECASE p t) 0 /\ at_boundaries t (finditer IGNORECASE p t).
Proof.
  intros (Hfr & Hmin & _).
  assert (Hrun : forall m, In m (finditer IGNORECASE p t) ->
                           In (snd m) (rx_run IGNORECASE t p (fst m, []))).
  { intros m. apply scan_sound. }
  split.
  - apply left_to_right_spans; [apply finditer_left_to_right|].
    intros m Hin. apply Hrun in Hin.
    pose proof (rx_run_min_len _ _ _ _ _ Hin) as Hlen. cbn [fst] in Hlen.
    unfold m_start, m_end. split; [lia|]. split; [lia|].
    destruct (@rx_run_consumed _ _ _ _ _ _ Hin (fst (snd m) - 1)) as (c & Hc & _);
      [cbn [fst]; lia|].
    assert (fst (snd m) - 1 < List.length t) by (apply nth_error_Some; congruence).
    lia.
  - intros m Hin. apply Hrun in Hin. rewrite Hfr in Hin.
    apply framed_run in Hin. cbn [fst] in Hin. unfold m_start, m_end. tauto.
Qed.

Lemma firstn_shorter (t1 t2 : text) (c e : nat) :
  firstn e t1 = firstn e t2 -> c <= e -> firstn c t1 = firstn c t2.
Proof.
  intros H Hc.
  replace c with (Nat.min c e) by lia.
  rewrite <- !firstn_firstn, H. reflexivity.
Qed.

Lemma firstn_same_length (t1 t2 : text) (e : nat) :
  firstn e t1 = firstn e t2 -> e <= List.length t2 -> e <= List.length t1.
Proof.
  intros H He. apply (f_equal (@List.length char)) in H.
  rewrite !length_firstn in H. lia.
Qed.

Lemma firstn_same_nth (t1 t2 : text) (e k : nat) :
  firstn e t1 = firstn e t2 -> k < e -> nth_error t1 k = nth_error t2 k.
Proof.
  intros H Hk. apply (f_equal (fun l => nth_error l k)) in H.
  rewrite !nth_error_firstn in H.
  replace (k <? e) with true in H by (symmetry; apply Nat.ltb_lt; exact Hk).
  exact H.
Qed.

Lemma firstn_same_boundary (t1 t2 : text) (e k : nat) :
  firstn e t1 = firstn e t2 -> k < e -> boundary t1 k = boundary t2 k.
Proof.
  intros H Hk. unfold boundary. f_equal.
  - destruct k as [|k]; [reflexivity|]. cbn [word_before]. unfold word_at.
    rewrite (firstn_same_nth _ _ H) by lia. reflexivity.
  - unfold word_at. rewrite (firstn_same_nth _ _ H) by lia. reflexivity.
Qed.

(** Replacing the matches leaves the text before the first of them as it
    is. *)
Lemma replace_all_prefix (t : text) (ms : list rmatch) :
  forall lo c,
    spans_ok t ms lo ->
    match ms with [] => True | m :: _ => c <= m_start m end ->
    c <= List.length t ->
    firstn c (replace_all REDACTED ms t) = firstn c t.
Proof.
  induction ms as [|m ms IH]; intros lo c Hok Hc Hlen; cbn [replace_all fold_right].
  - reflexivity.
  - fold (replace_all REDACTED ms t).
    destruct Hok as (H1 & H2 & H3 & Hok).
    assert (He : firstn (m_end m) (replace_all REDACTED ms t) = firstn (m_end m) t).
    { apply (IH (m_end m)); [exact Hok| |exact H3].
      destruct ms as [|m2 ms2]; [exact I|]. apply Hok. }
    pose proof (firstn_same_length _ _ He H3) as Hl.
    unfold replace_span. rewrite firstn_app.
    rewrite length_firstn.
    replace (c - Nat.min (m_start m) (List.length (replace_all REDACTED ms t))) with 0 by lia.
    rewrite firstn_0, app_nil_r, firstn_firstn.
    replace (Nat.min c (m_start m)) with c by lia.
    apply (firstn_shorter _ _ He). lia.
Qed.

(** [splice] replaces the matches of a scan one by one. *)
Lemma splice_replace_all (ms : list rmatch) :
  forall pre rest,
    spans_ok (pre ++ rest) ms (List.length pre) ->
    pre ++ splice REDACTED ms (List.length pre) rest = replace_all REDACTED ms (pre ++ rest).
Proof.
  induction ms as [|m ms IH]; intros pre rest Hok; cbn [splice replace_all fold_right].
  - reflexivity.
  - fold (replace_all REDACTED ms (pre ++ rest)).
    destruct Hok as (H1 & H2 & H3 & Hok).
    set (t := pre ++ rest) in *.
    assert (Ht : firstn (m_end m) t ++ skipn (m_end m) t = t) by apply firstn_skipn.
    assert (Hle : List.length (firstn (m_end m) t) = m_end m)
      by (apply firstn_length_le; exact H3).
    assert (IH' := IH (firstn (m_end m) t) (skipn (m_end m) t)).
    rewrite Ht, Hle in IH'. specialize (IH' Hok).
    rewrite <- IH'. unfold replace_span.
    rewrite firstn_app, Hle, firstn_firstn.
    replace (m_start m - m_end m) with 0 by lia.
    replace (Nat.min (m_start m) (m_end m)) with (m_start m) by lia.
    rewrite firstn_0, app_nil_r.
    rewrite skipn_app, Hle, Nat.sub_diag.
    rewrite (skipn_all2 (firstn (m_end m) t)) by lia.
    cbn [skipn app].
    unfold t. rewrite firstn_app, skipn_app.
    rewrite (firstn_all2 pre) by lia. rewrite (skipn_all2 pre) by lia.
    cbn [app]. rewrite <- app_assoc. reflexivity.
Qed.

Lemma sub_replace_all (p : regex) (t : text) :
  well_behaved p ->
  sub IGNORECASE p REDACTED t = replace_all REDACTED (finditer IGNORECASE p t) t.
Proof.
  intros Hp. unfold sub.
  apply (splice_replace_all (finditer IGNORECASE p t) [] t).
  apply finditer_spans. exact Hp.
Qed.

End AllReplacements.

(** ** A redacted text has no match left *)

Section Idempotence.
Context {db : UnicodeDB}.
Hypothesis Hdb : db_consistent.

(** A match of a pattern in the text after the replacements comes from a
    match of the pattern in the text before them, outside the stretches
    that were replaced. *)
Lemma replace_all_reflects (p : regex) (t : text) :
  well_behaved p ->
  forall ms lo,
    spans_ok t ms lo -> at_boundaries t ms ->
    forall i' st',
      In st' (rx_run IGNORECASE (replace_all REDACTED ms t) p (i', [])) ->
      exists i st,
        In st (rx_run IGNORECASE t p (i, []))
        /\ in_gap ms i /\ (i' < lo -> i = i') /\ (lo <= i' -> lo <= i).
Proof.
  intros Hp. induction ms as [|m ms IH]; intros lo Hok Hb i' st' Hrun.
  - exists i', st'. split; [exact Hrun|]. split; [intros m []|]. split; auto.
  - cbn [replace_all fold_right] in Hrun. fold (replace_all REDACTED ms t) in Hrun.
    set (T1 := replace_all REDACTED ms t) in *.
    destruct Hok as (H1 & H2 & H3 & Hok).
    destruct (Hb m (or_introl eq_refl)) as [Hbs Hbe].
    assert (Hb' : at_boundaries t ms) by (intros m' Hin; apply Hb; right; exact Hin).
    assert (He : firstn (m_end m) T1 = firstn (m_end m) t).
    { apply replace_all_prefix with (lo := m_end m); [exact Hok| |exact H3].
      destruct ms as [|m2 ms2]; [exact I|]. apply Hok. }
    pose proof (firstn_same_length _ _ He H3) as Hl.
    set (a := firstn (m_start m) T1).
    set (x := firstn (m_end m - m_start m) (skipn (m_start m) T1)).
    set (b := skipn (m_end m) T1).
    assert (HT : T1 = a ++ x ++ b).
    { unfold a, x, b. rewrite <- (firstn_skipn (m_start m) T1) at 1. f_equal.
      rewrite <- (firstn_skipn (m_end m - m_start m) (skipn (m_start m) T1)) at 1. f_equal.
      rewrite skipn_skipn. f_equal. lia. }
    assert (Ha : List.length a = m_start m) by (apply firstn_length_le; lia).
    assert (Hx : List.length x = m_end m - m_start m).
    { unfold x. rewrite length_firstn, length_skipn. lia. }
    assert (Hbl : boundary (a ++ x ++ b) (List.length a) = true).
    { rewrite <- HT, Ha. rewrite (firstn_same_boundary _ _ He) by lia. exact Hbs. }
    assert (Hbr : word_at (a ++ x ++ b) (List.length a + List.length x) = true ->
                  boundary (a ++ x ++ b) (List.length a + List.length x) = true).
    { rewrite <- HT, Ha, Hx. replace (m_start m + (m_end m - m_start m)) with (m_end m) by lia.
      unfold T1. destruct ms as [|m2 ms2].
      - intros _. exact Hbe.
      - destruct Hok as (G1 & G2 & G3 & Hok2).
        destruct (Nat.eq_dec (m_end m) (m_start m2)) as [Heq|Hne].
        + intros Hw. exfalso.
          cbn [replace_all fold_right] in Hw. fold (replace_all REDACTED ms2 t) in Hw.
          unfold replace_span in Hw.
          assert (He2 : firstn (m_end m2) (replace_all REDACTED ms2 t) = firstn (m_end m2) t).
          { apply replace_all_prefix with (lo := m_end m2); [exact Hok2| |exact G3].
            destruct ms2 as [|m3 ms3]; [exact I|]. apply Hok2. }
          pose proof (firstn_same_length _ _ He2 G3) as Hl2.
          assert (Hlen : List.length (firstn (m_start m2) (replace_all REDACTED ms2 t))
                         = m_end m) by (rewrite Heq; apply firstn_length_le; lia).
          replace (m_end m)
            with (List.length (firstn (m_start m2) (replace_all REDACTED ms2 t)) + 0)
            in Hw by (rewrite Hlen; lia).
          rewrite word_at_placeholder in Hw by lia. discriminate.
        + intros _.
          assert (He' : firstn (m_start m2) (replace_all REDACTED (m2 :: ms2) t)
                        = firstn (m_start m2) t).
          { apply replace_all_prefix with (lo := m_end m).
            - cbn [spans_ok]. auto.
            - lia.
            - lia. }
          rewrite (firstn_same_boundary _ _ He') by lia. exact Hbe. }
    change (replace_span REDACTED (m_start m) (m_end m) T1) with (a ++ REDACTED ++ b) in Hrun.
    destruct (@replace_reflects _ Hdb p a x b Hp Hbl Hbr i' st' Hrun)
      as [(Hi & st1 & Hst1)|(Hi & st1 & Hst1)]; rewrite <- HT in Hst1.
    + destruct (IH (m_end m) Hok Hb' _ _ Hst1) as (i & st & Hst & Hgap & Hlt & Hge).
      assert (i = i') by (apply Hlt; lia). subst i.
      exists i', st. split; [exact Hst|]. split.
      * intros m' [<-|Hin]; [left; lia|apply Hgap; exact Hin].
      * split; auto.
    + destruct (IH (m_end m) Hok Hb' _ _ Hst1) as (i & st & Hst & Hgap & Hlt & Hge).
      assert (m_end m <= i) by (apply Hge; lia).
      exists i, st. split; [exact Hst|]. split.
      * intros m' [<-|Hin]; [right; lia|apply Hgap; exact Hin].
      * split; [intros; lia|intros; lia].
Qed.

(** Where the scan reports no match, the pattern has none (for a pattern
    that never matches the empty string). *)
Lemma scan_gap (fl : flags) (t : text) (r : regex) :
  (forall i m, match_at fl t r i = Some m -> i < m_end m) ->
  forall rest i0 resume i,
    i0 <= i -> i <= i0 + List.length rest -> resume <= i ->
    in_gap (scan fl t r i0 resume rest) i ->
    match_at fl t r i = None.
Proof.
  intros Hne. induction rest as [|c rest IH]; intros i0 resume i H0 H1 Hr;
    rewrite scan_eq; unfold scan_next; cbn [List.length] in H1.
  - assert (i = i0) by lia. subst i0.
    replace (i <? resume) with false by (symmetry; apply Nat.ltb_ge; lia).
    destruct (match_at fl t r i) as [m|] eqn:Em; [|reflexivity].
    pose proof (Hne _ _ Em) as Hm. pose proof (match_at_start _ _ _ _ Em) as [Hs _].
    replace (m_end m =? i) with false by (symmetry; apply Nat.eqb_neq; lia).
    intros Hg. destruct (Hg m (or_introl eq_refl)); lia.
  - destruct (i0 <? resume) eqn:Elt.
    { apply Nat.ltb_lt in Elt. apply IH; lia. }
    destruct (match_at fl t r i0) as [m|] eqn:Em.
    + pose proof (Hne _ _ Em) as Hm. pose proof (match_at_start _ _ _ _ Em) as [Hs _].
      replace (m_end m =? i0) with false by (symmetry; apply Nat.eqb_neq; lia).
      intros Hg. destruct (Hg m (or_introl eq_refl)) as [Hlt|Hge]; [lia|].
      apply (IH (S i0) (m_end m)); [lia|lia|lia|].
      intros m' Hin. apply Hg. right. exact Hin.
    + destruct (Nat.eq_dec i i0) as [->|Hneq]; [intros _; exact Em|].
      apply IH; lia.
Qed.

Lemma match_at_beyond (p : regex) (t : text) (i : nat) :
  well_behaved p -> List.length t < i -> match_at IGNORECASE t p i = None.
Proof.
  intros (Hfr & _) Hi. unfold match_at.
  destruct (rx_run IGNORECASE t p (i, [])) as [|st l] eqn:E; [reflexivity|].
  assert (Hin : In st (rx_run IGNORECASE t p (i, []))) by (rewrite E; left; reflexivity).
  rewrite Hfr in Hin. apply framed_run in Hin. cbn [fst] in Hin.
  destruct Hin as (Hb & _). unfold boundary in Hb.
  destruct i as [|i]; [lia|]. cbn [word_before] in Hb. unfold word_at in Hb.
  replace (nth_error t i) with (@None char) in Hb by (symmetry; apply nth_error_None; lia).
  replace (nth_error t (S i)) with (@None char) in Hb by (symmetry; apply nth_error_None; lia).
  discriminate.
Qed.

(** Outside its own matches a pattern has no match. *)
Lemma own_gap (p : regex) (t : text) (i : nat) :
  well_behaved p -> in_gap (finditer IGNORECASE p t) i -> match_at IGNORECASE t p i = None.
Proof.
  intros Hp Hg. destruct (le_lt_dec i (List.length t)) as [Hi|Hi].
  - apply (@scan_gap IGNORECASE t p) with (rest := t) (i0 := 0) (resume := 0);
      [|lia|simpl; lia|lia|exact Hg].
    intros k m Hm. apply match_at_In in Hm. destruct Hm as [Hk Hin].
    apply rx_run_min_len in Hin. cbn [fst] in Hin.
    destruct Hp as (_ & Hmin & _). unfold m_end. lia.
  - apply match_at_beyond; assumption.
Qed.

(** After the matches of [q] are replaced, [p] has no match, provided it had
    none outside the matches of [q]. *)
Lemma quiet_after_sub (p q : regex) (t : text) :
  well_behaved p -> well_behaved q ->
  (forall i, in_gap (finditer IGNORECASE q t) i -> match_at IGNORECASE t p i = None) ->
  quiet p (sub IGNORECASE q REDACTED t).
Proof.
  intros Hp Hq Hgap i'.
  destruct (match_at IGNORECASE (sub IGNORECASE q REDACTED t) p i') as [m|] eqn:E;
    [|reflexivity].
  exfalso. apply match_at_In in E. destruct E as [_ Hin].
  rewrite (sub_replace_all t Hq) in Hin.
  destruct (finditer_spans t Hq) as [Hok Hb].
  destruct (replace_all_reflects Hp _ Hok Hb _ _ Hin) as (i & st & Hst & Hg & _).
  apply Hgap in Hg. unfold match_at in Hg.
  destruct (rx_run IGNORECASE t p (i, [])); [contradiction|discriminate].
Qed.

Lemma quiet_no_match (p : regex) (t : text) :
  quiet p t -> findall IGNORECASE p t = [] /\ sub IGNORECASE p REDACTED t = t.
Proof.
  intros Hq. assert (E : finditer IGNORECASE p t = []) by (apply scan_none; exact Hq).
  unfold findall, sub. rewrite E. split; reflexivity.
Qed.

(** Once the patterns are applied in turn, none of them has a match. *)
Lemma all_quiet (ps : list regex) :
  forall done t,
    Forall well_behaved (done ++ ps) ->
    (forall p, In p done -> quiet p t) ->
    forall p, In p (done ++ ps) ->
      quiet p (fold_left (fun t' q => sub IGNORECASE q REDACTED t') ps t).
Proof.
  induction ps as [|q ps IH]; intros done t Hwb Hdone p Hin; cbn [fold_left].
  - rewrite app_nil_r in Hin. apply Hdone. exact Hin.
  - rewrite Forall_forall in Hwb.
    assert (Hq : well_behaved q) by (apply Hwb; apply in_or_app; right; left; reflexivity).
    apply (IH (done ++ [q])).
    + rewrite <- app_assoc. apply Forall_forall. exact Hwb.
    + intros p' Hp'. apply in_app_or in Hp'. destruct Hp' as [Hp'|[<-|[]]].
      * apply quiet_after_sub; [apply Hwb; apply in_or_app; left; exact Hp'|exact Hq|].
        intros i _. apply Hdone. exact Hp'.
      * apply quiet_after_sub; [exact Hq|exact Hq|]. intros i. apply own_gap. exact Hq.
    + rewrite <- app_assoc. exact Hin.
Qed.

Lemma text_after_patterns_app (ps1 ps2 : list regex) (t : text) :
  text_after_patterns (ps1 ++ ps2) t = text_after_patterns ps2 (text_after_patterns ps1 t).
Proof. unfold text_after_patterns. apply fold_left_app. Qed.

Lemma text_after_table_flat (tbl : list (text * list regex)) :
  forall t, text_after_table tbl t = text_after_patterns (List.concat (map snd tbl)) t.
Proof.
  induction tbl as [|[category ps] tbl IH]; intros t; [reflexivity|].
  cbn [map snd List.concat]. rewrite text_after_patterns_app, <- IH. reflexivity.
Qed.

Lemma quiet_patterns (category : text) (ps : list regex) (t : text) :
  (forall p, In p ps -> quiet p t) ->
  text_after_patterns ps t = t /\ entries_patterns category ps t = [].
Proof.
  induction ps as [|p ps IH]; intros Hq; [split; reflexivity|].
  destruct (quiet_no_match (Hq p (or_introl eq_refl))) as [E1 E2].
  destruct IH as [IH1 IH2]; [intros p' Hp'; apply Hq; right; exact Hp'|].
  unfold text_after_patterns in *. cbn [fold_left entries_patterns].
  rewrite E1, E2, IH1, IH2. split; reflexivity.
Qed.

Lemma quiet_table (tbl : list (text * list regex)) (t : text) :
  (forall p, In p (List.concat (map snd tbl)) -> quiet p t) ->
  text_after_table tbl t = t /\ entries_table tbl t = [].
Proof.
  induction tbl as [|[category ps] tbl IH]; intros Hq; [split; reflexivity|].
  cbn [map snd List.concat] in Hq.
  destruct (@quiet_patterns category ps t) as [E1 E2].
  { intros p Hp. apply Hq. apply in_or_app. left. exact Hp. }
  destruct IH as [IH1 IH2].
  { intros p Hp. apply Hq. apply in_or_app. right. exact Hp. }
  unfold text_after_table in *. cbn [fold_left entries_table snd].
  rewrite E1, E2, IH1, IH2. split; reflexivity.
Qed.

(** No pattern of the table has a match in a redacted text. *)
Lemma redacted_quiet (t : text) (p : regex) :
  In p all_patterns -> quiet p (redacted t).
Proof.
  intros Hin. unfold redacted. rewrite text_after_table_flat.
  apply (@all_quiet all_patterns [] t).
  - apply all_patterns_well_behaved.
  - intros p' [].
  - exact Hin.
Qed.

(** Redacting a redacted text changes nothing and finds nothing. *)
Lemma redacted_twice (t : text) :
  redacted (redacted t) = redacted t /\ redactions (redacted t) = [].
Proof.
  unfold redactions. unfold redacted at 1.
  apply quiet_table. intros p Hp. apply redacted_quiet. exact Hp.
Qed.

End Idempotence.

(** ** The time stamp has no match *)

Section Alike.
Context {db : UnicodeDB}.
Variable fl : flags.

Lemma alike_incl (atoms atoms' : list atom) (t1 t2 : text) :
  incl atoms' atoms -> alike fl atoms t1 t2 -> alike fl atoms' t1 t2.
Proof.
  intros Hi H. induction H as [|c1 c2 l1 l2 [Hw Ha] _ IH]; constructor; [|exact IH].
  split; [exact Hw|]. intros a Hin. apply Ha, Hi, Hin.
Qed.

Lemma alike_nth (atoms : list atom) (t1 t2 : text) (i : nat) :
  alike fl atoms t1 t2 ->
  match nth_error t1 i, nth_error t2 i with
  | Some c1, Some c2 => same_class fl atoms c1 c2
  | None, None => True
  | _, _ => False
  end.
Proof.
  intros H. revert i. induction H as [|c1 c2 l1 l2 Hc _ IH]; intros [|i]; cbn [nth_error];
    [exact I|exact I|exact Hc|apply IH].
Qed.

Lemma alike_skipn (atoms : list atom) (t1 t2 : text) (i : nat) :
  alike fl atoms t1 t2 -> alike fl atoms (skipn i t1) (skipn i t2).
Proof.
  intros H. revert i. induction H as [|c1 c2 l1 l2 Hc H IH]; intros [|i]; cbn [skipn];
    [constructor|constructor|constructor; assumption|apply IH].
Qed.

Lemma alike_word_at (atoms : list atom) (t1 t2 : text) (i : nat) :
  alike fl atoms t1 t2 -> word_at t1 i = word_at t2 i.
Proof.
  intros H. pose proof (alike_nth i H) as Hn. unfold word_at.
  destruct (nth_error t1 i), (nth_error t2 i); try contradiction; [apply Hn|reflexivity].
Qed.

Lemma alike_boundary (atoms : list atom) (t1 t2 : text) (i : nat) :
  alike fl atoms t1 t2 -> boundary t1 i = boundary t2 i.
Proof.
  intros H. unfold boundary. f_equal; [|apply (alike_word_at i H)].
  destruct i as [|i]; [reflexivity|]. apply (alike_word_at i H).
Qed.

Lemma alike_run_len (a : atom) (t1 t2 : text) :
  alike fl [a] t1 t2 -> forall hi, run_len fl a hi t1 = run_len fl a hi t2.
Proof.
  intros H. induction H as [|c1 c2 l1 l2 [_ Ha] _ IH]; intros hi; cbn [run_len];
    [reflexivity|].
  rewrite (Ha a (or_introl eq_refl)), IH. reflexivity.
Qed.

(** The matcher does the same on two texts it cannot tell apart. *)
Lemma rx_run_alike (r : regex) (t1 t2 : text) :
  alike fl (atoms_of r) t1 t2 -> forall st, rx_run fl t1 r st = rx_run fl t2 r st.
Proof.
  induction r as [|a|a lo hi| |r1 IHr1 r2 IHr2|r1 IHr1 r2 IHr2|g r IHr];
    intros H st; cbn [rx_run atoms_of] in *.
  - reflexivity.
  - pose proof (alike_nth (fst st) H) as Hn.
    destruct (nth_error t1 (fst st)), (nth_error t2 (fst st)); try contradiction;
      [|reflexivity].
    destruct Hn as [_ Ha]. rewrite (Ha a (or_introl eq_refl)). reflexivity.
  - rewrite (alike_run_len (alike_skipn (fst st) H)). reflexivity.
  - rewrite (alike_boundary (fst st) H). reflexivity.
  - rewrite IHr1 by (apply (alike_incl (atoms := atoms_of r1 ++ atoms_of r2));
                     [apply incl_appl, incl_refl|exact H]).
    apply flat_map_ext. intros st'. apply IHr2.
    apply (alike_incl (atoms := atoms_of r1 ++ atoms_of r2));
      [apply incl_appr, incl_refl|exact H].
  - rewrite IHr1 by (apply (alike_incl (atoms := atoms_of r1 ++ atoms_of r2));
                     [apply incl_appl, incl_refl|exact H]).
    rewrite IHr2 by (apply (alike_incl (atoms := atoms_of r1 ++ atoms_of r2));
                     [apply incl_appr, incl_refl|exact H]).
    reflexivity.
  - rewrite IHr by exact H. reflexivity.
Qed.

End Alike.

Section Timestamp.
Context {db : UnicodeDB}.

(** The atoms of the table do not tell one digit from another. *)
Lemma digits_same_class (c : char) :
  (48 <= c <= 57)%N -> same_class IGNORECASE all_atoms c 48%N.
Proof.
  intros Hc.
  assert (Hall : forallb (fun d =>
                    Bool.eqb (is_word d) (is_word 48%N)
                    && forallb (fun a => Bool.eqb (atom_match IGNORECASE a d)
                                                  (atom_match IGNORECASE a 48%N))
                         all_atoms)
                   [48; 49; 50; 51; 52; 53; 54; 55; 56; 57]%N = true)
    by (vm_compute; reflexivity).
  rewrite forallb_forall in Hall.
  assert (Hin : In c [48; 49; 50; 51; 52; 53; 54; 55; 56; 57]%N).
  { assert (Hcases : c = 48%N \/ c = 49%N \/ c = 50%N \/ c = 51%N \/ c = 52%N
                     \/ c = 53%N \/ c = 54%N \/ c = 55%N \/ c = 56%N \/ c = 57%N) by lia.
    simpl. repeat (destruct Hcases as [->|Hcases]; [tauto|]). subst c. tauto. }
  apply Hall in Hin. apply andb_true_iff in Hin. destruct Hin as [Hw Ha].
  split; [apply eqb_prop; exact Hw|].
  intros a Hin. rewrite forallb_forall in Ha. apply eqb_prop, Ha, Hin.
Qed.

Lemma same_class_refl (c : char) : same_class IGNORECASE all_atoms c c.
Proof. split; [reflexivity|]. intros a _. reflexivity. Qed.

Lemma alike_refl (t : text) : alike IGNORECASE all_atoms t t.
Proof. induction t; constructor; [apply same_class_refl|assumption]. Qed.

Lemma alike_app (t1 t2 u1 u2 : text) :
  alike IGNORECASE all_atoms t1 t2 -> alike IGNORECASE all_atoms u1 u2 ->
  alike IGNORECASE all_atoms (t1 ++ u1) (t2 ++ u2).
Proof. apply Forall2_app. Qed.

Lemma alike_zero_pad (width : nat) (n1 n2 : N) :
  alike IGNORECASE all_atoms (zero_pad width n1) (zero_pad width n2).
Proof.
  unfold zero_pad. induction (rev (seq 0 width)) as [|k l IH]; cbn [map]; constructor;
    [|exact IH].
  assert (H : forall n, same_class IGNORECASE all_atoms
                          (chr "0" + (n / 10 ^ N.of_nat k) mod 10)%N 48%N).
  { intros n. apply digits_same_class.
    assert (Hb : ((n / 10 ^ N.of_nat k) mod 10 < 10)%N)
      by (apply N.mod_upper_bound; discriminate).
    change (chr "0") with 48%N.
    generalize dependent ((n / 10 ^ N.of_nat k) mod 10)%N. intros d Hd. lia. }
  destruct (H n1) as [W1 A1]. destruct (H n2) as [W2 A2].
  split; [congruence|]. intros a Ha. rewrite (A1 a Ha), (A2 a Ha). reflexivity.
Qed.

(** A time stamp is like the one of the same shape at the epoch. *)
Lemma isoformat_alike (now : datetime) :
  alike IGNORECASE all_atoms (isoformat now)
    (isoformat (if (microsecond now =? 0)%N then epoch else epoch_micro)).
Proof.
  unfold isoformat.
  destruct (microsecond now =? 0)%N;
    cbn [year month day hour minute second microsecond epoch epoch_micro];
    [change (0 =? 0)%N with true|change (1 =? 0)%N with false]; cbv iota;
    repeat (apply alike_app;
            [first [apply alike_zero_pad | apply alike_refl]|]);
    first [apply alike_zero_pad | apply alike_refl].
Qed.

Lemma atoms_of_in_all (p : regex) : In p all_patterns -> incl (atoms_of p) all_atoms.
Proof.
  intros Hp a Ha. unfold all_atoms. apply in_flat_map. exists p. split; assumption.
Qed.

Lemma no_match_in_quiet (p : regex) (t : text) :
  well_behaved p -> no_match_in p t = true -> quiet p t.
Proof.
  intros Hp H i. destruct (le_lt_dec i (List.length t)) as [Hi|Hi].
  - unfold no_match_in in H. rewrite forallb_forall in H.
    specialize (H i). rewrite in_seq in H. unfold match_at.
    destruct (rx_run IGNORECASE t p (i, [])); [reflexivity|].
    assert (false = true) by (apply H; lia). discriminate.
  - apply match_at_beyond; assumption.
Qed.

Lemma epoch_quiet :
  Forall (fun p => no_match_in p (isoformat epoch) = true
                   /\ no_match_in p (isoformat epoch_micro) = true) all_patterns.
Proof.
  unfold all_patterns, redaction_table. cbn [map snd List.concat app].
  split_forall; split; vm_compute; reflexivity.
Qed.

(** No pattern of the table has a match in a time stamp. *)
Lemma isoformat_quiet (now : datetime) (p : regex) :
  In p all_patterns -> quiet p (isoformat now).
Proof.
  intros Hp.
  pose proof all_patterns_well_behaved as Hwb. rewrite Forall_forall in Hwb.
  pose proof epoch_quiet as Hq. rewrite Forall_forall in Hq.
  destruct (Hq p Hp) as [Q1 Q2].
  assert (Hal := @alike_incl _ IGNORECASE _ _ _ _ (atoms_of_in_all Hp) (isoformat_alike now)).
  intros i. unfold match_at. rewrite (@rx_run_alike _ IGNORECASE p _ _ Hal).
  destruct (microsecond now =? 0)%N.
  - revert i. apply no_match_in_quiet; [apply Hwb; exact Hp|exact Q1].
  - revert i. apply no_match_in_quiet; [apply Hwb; exact Hp|exact Q2].
Qed.

Lemma isoformat_settled (now : datetime) : settled (PStr (isoformat now)).
Proof.
  unfold settled, redacted, redactions. apply quiet_table.
  intros p Hp. apply isoformat_quiet. exact Hp.
Qed.

End Timestamp.

(** ** Redacting a redacted record *)

Lemma dict_set_same_value (k : text) (v : pyval) (d : pydict) :
  dict_get k d = Some v -> dict_set k v d = d.
Proof.
  induction d as [|[k' v'] d IH]; cbn [dict_get dict_set]; [discriminate|].
  destruct (text_eqb k' k) eqn:E.
  - apply text_eqb_eq in E. intros [= ->]. subst k'. reflexivity.
  - intros H. rewrite IH by exact H. reflexivity.
Qed.

Section SettledRecords.
Context {db : UnicodeDB}.

Lemma all_settled_set (k : text) (v : pyval) (d : pydict) :
  settled v -> all_settled d -> all_settled (dict_set k v d).
Proof.
  intros Hv. unfold all_settled.
  induction d as [|[k' v'] d IH]; intros Hd; cbn [dict_set].
  - constructor; [exact Hv|constructor].
  - inversion Hd as [|? ? H1 H2]; subst. destruct (text_eqb k' k).
    + constructor; [exact Hv|exact H2].
    + constructor; [exact H1|apply IH; exact H2].
Qed.

Lemma all_settled_fixed (d : pydict) :
  all_settled d -> redacted_items d = d /\ ordered_summary d = [].
Proof.
  unfold all_settled, redacted_items, ordered_summary.
  induction d as [|[k v] d IH]; intros Hd; [split; reflexivity|].
  inversion Hd as [|? ? H1 H2]; subst. destruct (IH H2) as [E1 E2].
  cbn [map flat_map fst snd]. rewrite E1, E2. cbn [snd] in H1.
  unfold item_entries. cbn [fst snd].
  destruct v; try (split; reflexivity).
  destruct H1 as [R1 R2]. cbn [redact_value]. rewrite R1, R2. split; reflexivity.
Qed.

Lemma redacted_items_settled (content : pydict) :
  db_consistent -> all_settled (redacted_items content).
Proof.
  intros Hdb. unfold all_settled, redacted_items.
  induction content as [|[k v] d IH]; cbn [map]; constructor; [|exact IH].
  cbn [fst snd]. destruct v; cbn [redact_value settled]; try exact I.
  apply redacted_twice. exact Hdb.
Qed.

(** C7: redacting the record a redaction returned finds nothing and changes
    nothing but the time stamp: the summary is empty and every other field,
    the text of every section among them, is the same. *)
Theorem redaction_idempotent (content : pydict) (now1 now2 : datetime) :
  db_consistent ->
  dict_ok content ->
  exists out1 summary1 out2,
    redact_content content now1 = Some (out1, summary1)
    /\ redact_content out1 now2 = Some (out2, [])
    /\ out2 = dict_set k_redaction_timestamp (PStr (isoformat now2)) out1
    /\ forall k, k <> k_redaction_timestamp -> dict_get k out2 = dict_get k out1.
Proof.
  intros Hdb Hok.
  set (out1 := stamped now1 (redacted_items content)).
  assert (Hok1 : dict_ok out1).
  { unfold out1, stamped. apply dict_ok_set, dict_ok_set, redacted_items_ok, Hok. }
  assert (Hs : all_settled out1).
  { unfold out1, stamped. apply all_settled_set; [apply isoformat_settled|].
    apply all_settled_set; [exact I|]. apply redacted_items_settled. exact Hdb. }
  destruct (all_settled_fixed Hs) as [E1 E2].
  exists out1, (ordered_summary content),
    (dict_set k_redaction_timestamp (PStr (isoformat now2)) out1).
  split; [apply redact_content_eq; exact Hok|].
  split.
  - rewrite (redact_content_eq now2 Hok1), E1, E2. unfold stamped at 1.
    rewrite (@dict_set_same_value k_redaction_applied (PBool true) out1);
      [reflexivity|apply stamped_applied].
  - split; [reflexivity|]. intros k Hk. apply dict_get_set_other. exact Hk.
Qed.

End SettledRecords.

(** In [plain_db] no character is both white space and a word character. *)
Lemma plain_db_consistent : db_consistent (db := plain_db).
Proof.
  intros c. unfold is_space, is_word, plain_db, uni_isspace, uni_isalnum.
  destruct (is_ascii c); [|discriminate].
  unfold ascii_space, ascii_alnum, ascii_digit, is_cased, is_upper, is_lower, in_range.
  change (chr "0") with 48%N. change (chr "9") with 57%N.
  change (chr "A") with 65%N. change (chr "Z") with 90%N.
  change (chr "a") with 97%N. change (chr "z") with 122%N. change (chr "_") with 95%N.
  intros H. apply orb_true_iff in H.
  repeat rewrite orb_false_iff. repeat rewrite andb_false_iff.
  rewrite !N.leb_gt, N.eqb_neq.
  destruct H as [H|H]; apply andb_true_iff in H; destruct H as [H1 H2];
    apply N.leb_le in H1, H2; repeat split; lia.
Qed.

Lemma redaction_idempotent_witness :
  exists out1 summary1 out2,
    redact_content (db := plain_db) scenario_record epoch = Some (out1, summary1)
    /\ redact_content (db := plain_db) out1 epoch_later = Some (out2, [])
    /\ out2 = dict_set k_redaction_timestamp (PStr (isoformat epoch_later)) out1
    /\ forall k, k <> k_redaction_timestamp -> dict_get k out2 = dict_get k out1.
Proof.
  apply (@redaction_idempotent plain_db scenario_record epoch epoch_later).
  - exact plain_db_consistent.
  - no_dup_keys.
Defined.

(** ** What a redaction does to a text *)

Lemma compile_all_In (ps : list text) :
  forall rs pattern r,
    compile_all ps = Some rs -> In pattern ps -> re_compile pattern = Some r -> In r rs.
Proof.
  induction ps as [|p ps IH]; intros rs pattern r Hc Hin Hr; [contradiction|].
  cbn [compile_all] in Hc.
  destruct (re_compile p) as [r0|] eqn:E0; [|discriminate].
  destruct (compile_all ps) as [rs0|] eqn:E1; [|discriminate].
  injection Hc as <-. destruct Hin as [->|Hin].
  - left. congruence.
  - right. eapply IH; [reflexivity|eassumption|eassumption].
Qed.

Lemma compile_table_In (tbl : list (text * list text)) :
  forall tbl' category ps pattern r,
    compile_table tbl = Some tbl' -> In (category, ps) tbl -> In pattern ps ->
    re_compile pattern = Some r -> In r (List.concat (map snd tbl')).
Proof.
  induction tbl as [|[c0 ps0] tbl IH]; intros tbl' category ps pattern r Hc Hin Hp Hr;
    [contradiction|].
  cbn [compile_table] in Hc.
  destruct (compile_all ps0) as [rs0|] eqn:E0; [|discriminate].
  destruct (compile_table tbl) as [tbl0|] eqn:E1; [|discriminate].
  injection Hc as <-. cbn [map snd List.concat]. apply in_or_app.
  destruct Hin as [Heq|Hin].
  - left. injection Heq as -> ->. eapply compile_all_In; eassumption.
  - right. eapply IH; [reflexivity|eassumption|eassumption|eassumption].
Qed.

(** A pattern of the source table, compiled, is one of [all_patterns]. *)
Lemma table_pattern_compiled (category : text) (ps : list text) (pattern : text) (r : regex) :
  In (category, ps) _init_redaction_patterns -> In pattern ps ->
  re_compile pattern = Some r -> In r all_patterns.
Proof.
  intros Hin Hp Hr. unfold all_patterns.
  eapply compile_table_In; [apply compile_table_ok|eassumption|eassumption|eassumption].
Qed.

Lemma spans_ok_In (t : text) (ms : list rmatch) :
  forall lo m, spans_ok t ms lo -> In m ms ->
    lo <= m_start m /\ m_start m < m_end m /\ m_end m <= List.length t.
Proof.
  induction ms as [|m0 ms IH]; intros lo m Hs Hin; [contradiction|].
  cbn [spans_ok] in Hs. destruct Hs as (H1 & H2 & H3 & H4).
  destruct Hin as [<-|Hin]; [split; [assumption|]; split; assumption|].
  destruct (IH _ m H4 Hin) as (K1 & K2 & K3). split; [lia|]. split; assumption.
Qed.

Section TextFacts.
Context {db : UnicodeDB}.

Lemma text_after_patterns_cons (p : regex) (ps : list regex) (t : text) :
  text_after_patterns (p :: ps) t = text_after_patterns ps (sub IGNORECASE p REDACTED t).
Proof. reflexivity. Qed.

Lemma text_after_table_cons (category : text) (ps : list regex)
      (tbl : list (text * list regex)) (t : text) :
  text_after_table ((category, ps) :: tbl) t = text_after_table tbl (text_after_patterns ps t).
Proof. reflexivity. Qed.

Lemma findall_length (fl : flags) (r : regex) (t : text) :
  List.length (findall fl r t) = List.length (finditer fl r t).
Proof. unfold findall. apply length_map. Qed.

Lemma findall_nil (fl : flags) (r : regex) (t : text) :
  finditer fl r t = [] -> findall fl r t = [].
Proof. unfold findall. intros ->. reflexivity. Qed.

(** *** Nothing logged, nothing changed *)

Lemma unlogged_patterns (category : text) (ps : list regex) :
  forall t, entries_patterns category ps t = [] -> text_after_patterns ps t = t.
Proof.
  induction ps as [|p ps IH]; intros t H; [reflexivity|].
  cbn [entries_patterns] in H. apply app_eq_nil in H. destruct H as [H1 H2].
  apply map_eq_nil in H1. rewrite text_after_patterns_cons.
  rewrite (@sub_no_match _ IGNORECASE p REDACTED t H1) in *. apply IH. exact H2.
Qed.

Lemma unlogged_table (tbl : list (text * list regex)) :
  forall t, entries_table tbl t = [] -> text_after_table tbl t = t.
Proof.
  induction tbl as [|[category ps] tbl IH]; intros t H; [reflexivity|].
  cbn [entries_table] in H. apply app_eq_nil in H. destruct H as [H1 H2].
  rewrite text_after_table_cons.
  rewrite (@unlogged_patterns category ps t H1) in *. apply IH. exact H2.
Qed.

Lemma unlogged_items (content : pydict) :
  ordered_summary content = [] -> redacted_items content = content.
Proof.
  unfold ordered_summary, redacted_items.
  induction content as [|[k v] d IH]; intros H; [reflexivity|].
  cbn [flat_map] in H. apply app_eq_nil in H. destruct H as [H1 H2].
  cbn [map fst snd]. rewrite (IH H2). f_equal. f_equal.
  unfold item_entries in H1. cbn [fst snd] in H1.
  destruct v; try reflexivity. cbn [redact_value].
  apply map_eq_nil in H1. unfold redacted. unfold redactions in H1.
  rewrite (@unlogged_table redaction_table s H1). reflexivity.
Qed.

End TextFacts.

Section RedactedText.
Context {db : UnicodeDB}.

(** X1: the output of a redaction that logged nothing is the input with the
    two stamps set: no section is changed without an entry in the
    summary. *)
Theorem empty_summary_means_unchanged (content : pydict) (now : datetime) (out : pydict) :
  dict_ok content ->
  redact_content content now = Some (out, []) ->
  out = dict_set k_redaction_timestamp (PStr (isoformat now))
          (dict_set k_redaction_applied (PBool true) content).
Proof.
  intros Hok H. rewrite redact_content_eq in H by exact Hok.
  injection H as <- Hs. rewrite (unlogged_items _ Hs). reflexivity.
Qed.

(** *** Something logged, the placeholder is there *)

Lemma sub_occurs (p : regex) (t : text) :
  finditer IGNORECASE p t <> [] -> occurs REDACTED (sub IGNORECASE p REDACTED t).
Proof.
  unfold sub. destruct (finditer IGNORECASE p t) as [|m ms]; [congruence|]. intros _.
  cbn [splice]. eexists. eexists. reflexivity.
Qed.

Lemma placeholder_patterns (category : text) (ps : list regex) :
  forall t,
    occurs REDACTED t \/ entries_patterns category ps t <> [] ->
    occurs REDACTED (text_after_patterns ps t).
Proof.
  induction ps as [|p ps IH]; intros t H.
  - destruct H as [H|H]; [exact H|]. exfalso. apply H. reflexivity.
  - rewrite text_after_patterns_cons. apply IH.
    destruct (finditer IGNORECASE p t) as [|m ms] eqn:E.
    + cbn [entries_patterns] in H.
      pose proof (findall_nil _ _ _ E) as Ef. rewrite Ef in H. cbn [map app] in H.
      rewrite (@sub_no_match _ IGNORECASE p REDACTED t Ef) in *. exact H.
    + left. apply sub_occurs. rewrite E. discriminate.
Qed.

Lemma placeholder_table (tbl : list (text * list regex)) :
  forall t,
    occurs REDACTED t \/ entries_table tbl t <> [] ->
    occurs REDACTED (text_after_table tbl t).
Proof.
  induction tbl as [|[category ps] tbl IH]; intros t H.
  - destruct H as [H|H]; [exact H|]. exfalso. apply H. reflexivity.
  - rewrite text_after_table_cons. apply IH. cbn [entries_table] in H.
    destruct (entries_patterns category ps t) as [|e es] eqn:E.
    + cbn [app] in H. rewrite (@unlogged_patterns _ category ps t E) in *. exact H.
    + left. apply (placeholder_patterns category). right. rewrite E. discriminate.
Qed.

(** X2: when [_redact_text] logs an entry, the text it returns holds the
    placeholder. *)
Theorem logged_redaction_shows_placeholder (t t' : text) (rs : list text) :
  _redact_text t = Some (t', rs) -> rs <> [] -> occurs REDACTED t'.
Proof.
  rewrite _redact_text_eq. intros [= <- <-] H.
  unfold redacted. apply placeholder_table. right. exact H.
Qed.

(** *** No character comes from elsewhere *)

Lemma firstn_In (A : Type) (n : nat) :
  forall (l : list A) (x : A), In x (firstn n l) -> In x l.
Proof.
  induction n as [|n IH]; intros [|a l] x H; cbn [firstn] in H; try contradiction.
  destruct H as [H|H]; [left; exact H|right; apply IH; exact H].
Qed.

Lemma skipn_In (A : Type) (n : nat) :
  forall (l : list A) (x : A), In x (skipn n l) -> In x l.
Proof.
  induction n as [|n IH]; intros [|a l] x H; cbn [skipn] in H; try contradiction;
    [exact H|right; apply IH; exact H].
Qed.

Lemma splice_chars (repl : text) (ms : list rmatch) :
  forall i rest c, In c (splice repl ms i rest) -> In c rest \/ In c repl.
Proof.
  induction ms as [|m ms IH]; intros i rest c H; cbn [splice] in H; [left; exact H|].
  apply in_app_or in H. destruct H as [H|H].
  - left. eapply firstn_In. exact H.
  - apply in_app_or in H. destruct H as [H|H]; [right; exact H|].
    destruct (IH _ _ _ H) as [K|K]; [left|right; exact K].
    eapply skipn_In. exact K.
Qed.

Lemma patterns_chars (ps : list regex) :
  forall t c, In c (text_after_patterns ps t) -> In c t \/ In c REDACTED.
Proof.
  induction ps as [|p ps IH]; intros t c H; [left; exact H|].
  rewrite text_after_patterns_cons in H.
  destruct (IH _ _ H) as [K|K]; [|right; exact K].
  eapply splice_chars. exact K.
Qed.

(** X3: every character of the text [_redact_text] returns is a character of
    its argument or of the placeholder. *)
Theorem redaction_adds_only_placeholder (t t' : text) (rs : list text) (c : char) :
  _redact_text t = Some (t', rs) -> In c t' -> In c t \/ In c REDACTED.
Proof.
  rewrite _redact_text_eq. intros [= <- <-]. unfold redacted.
  rewrite text_after_table_flat. apply patterns_chars.
Qed.

(** *** Texts without a word *)

Lemma wordless_word_at (t : text) (i : nat) : wordless t -> word_at t i = false.
Proof.
  intros H. unfold word_at. destruct (nth_error t i) as [c|] eqn:E; [|reflexivity].
  apply nth_error_In in E. unfold wordless in H. rewrite Forall_forall in H. apply H, E.
Qed.

Lemma wordless_boundary (t : text) (i : nat) : wordless t -> boundary t i = false.
Proof.
  intros H. unfold boundary, word_before.
  rewrite (wordless_word_at i H). destruct i as [|j]; [reflexivity|].
  rewrite (wordless_word_at j H). reflexivity.
Qed.

Lemma wordless_quiet (p : regex) (t : text) : well_behaved p -> wordless t -> quiet p t.
Proof.
  intros [Hf _] Hw i. unfold match_at.
  destruct (rx_run IGNORECASE t p (i, [])) as [|st l] eqn:E; [reflexivity|].
  exfalso. assert (Hin : In st (rx_run IGNORECASE t p (i, []))) by (rewrite E; left; reflexivity).
  rewrite Hf in Hin. apply framed_run in Hin. destruct Hin as [Hb _].
  cbn [fst] in Hb. rewrite (wordless_boundary i Hw) in Hb. discriminate.
Qed.

(** X4: a text without a letter, a digit or an underscore (the empty text
    among them) comes back as it is, with no entry. *)
Theorem wordless_text_is_untouched (t : text) :
  wordless t -> _redact_text t = Some (t, []).
Proof.
  intros Hw. rewrite _redact_text_eq. unfold redacted, redactions.
  destruct (@quiet_table _ redaction_table t) as [E1 E2].
  - intros p Hp. apply wordless_quiet; [|exact Hw].
    pose proof all_patterns_well_behaved as Hall. rewrite Forall_forall in Hall.
    apply Hall. exact Hp.
  - rewrite E1, E2. reflexivity.
Qed.

(** *** What is replaced *)

(** X5: a match of a pattern of the table is not empty, lies in the text and
    starts and ends at a word boundary: what is replaced is a stretch of
    whole words. *)
Theorem replaced_spans_are_whole_words (category : text) (ps : list text) (pattern : text)
        (r : regex) (t : text) (m : rmatch) :
  In (category, ps) _init_redaction_patterns ->
  In pattern ps ->
  re_compile pattern = Some r ->
  In m (finditer IGNORECASE r t) ->
  m_start m < m_end m /\ m_end m <= List.length t
  /\ boundary t (m_start m) = true /\ boundary t (m_end m) = true.
Proof.
  intros Hc Hp Hr Hm.
  pose proof all_patterns_well_behaved as Hall. rewrite Forall_forall in Hall.
  assert (Hw : well_behaved r).
  { apply Hall. eapply table_pattern_compiled; eassumption. }
  destruct (finditer_spans t Hw) as [Hs Hb].
  destruct (@spans_ok_In _ _ _ m Hs Hm) as (_ & K1 & K2).
  destruct (Hb m Hm) as [B1 B2].
  split; [exact K1|]. split; [exact K2|]. split; assumption.
Qed.

(** *** How much longer the text gets *)

Lemma splice_length_bound (ms : list rmatch) :
  forall T i,
    i <= List.length T -> spans_ok T ms i ->
    List.length (splice REDACTED ms i (skipn i T)) + List.length ms
    <= List.length T - i + 10 * List.length ms.
Proof.
  induction ms as [|m ms IH]; intros T i Hi Hs; cbn [splice List.length].
  - rewrite length_skipn. lia.
  - cbn [spans_ok] in Hs. destruct Hs as (H1 & H2 & H3 & H4).
    rewrite skipn_skipn. replace (m_end m - i + i) with (m_end m) by lia.
    specialize (IH T (m_end m) H3 H4).
    rewrite !length_app, length_firstn, length_skipn, length_REDACTED. lia.
Qed.

Lemma sub_length_bound (p : regex) (t : text) :
  well_behaved p ->
  List.length (sub IGNORECASE p REDACTED t) + List.length (findall IGNORECASE p t)
  <= List.length t + 10 * List.length (findall IGNORECASE p t).
Proof.
  intros Hw. destruct (finditer_spans t Hw) as [Hs _].
  rewrite findall_length. unfold sub.
  pose proof (@splice_length_bound (finditer IGNORECASE p t) t 0 (Nat.le_0_l _) Hs) as H.
  cbn [skipn] in H. lia.
Qed.

Lemma patterns_length_bound (category : text) (ps : list regex) :
  Forall well_behaved ps ->
  forall t,
    List.length (text_after_patterns ps t) + List.length (entries_patterns category ps t)
    <= List.length t + 10 * List.length (entries_patterns category ps t).
Proof.
  induction ps as [|p ps IH]; intros Hall t; [cbn; lia|].
  inversion Hall as [|? ? Hp Hps]; subst.
  rewrite text_after_patterns_cons. cbn [entries_patterns].
  rewrite length_app, length_map.
  pose proof (sub_length_bound t Hp). specialize (IH Hps (sub IGNORECASE p REDACTED t)). lia.
Qed.

Lemma table_length_bound (tbl : list (text * list regex)) :
  Forall well_behaved (List.concat (map snd tbl)) ->
  forall t,
    List.length (text_after_table tbl t) + List.length (entries_table tbl t)
    <= List.length t + 10 * List.length (entries_table tbl t).
Proof.
  induction tbl as [|[category ps] tbl IH]; intros Hall t; [cbn; lia|].
  cbn [map snd List.concat] in Hall. apply Forall_app in Hall. destruct Hall as [H1 H2].
  rewrite text_after_table_cons. cbn [entries_table]. rewrite length_app.
  pose proof (patterns_length_bound category H1 t).
  specialize (IH H2 (text_after_patterns ps t)). lia.
Qed.

(** X6: a redaction lengthens the text by nine characters for each entry it
    logs, at most: each entry stands for a stretch of one character or more
    replaced by the ten characters of the placeholder. *)
Theorem redacted_length_bound (t t' : text) (rs : list text) :
  _redact_text t = Some (t', rs) ->
  List.length t' <= List.length t + 9 * List.length rs.
Proof.
  rewrite _redact_text_eq. intros [= <- <-]. unfold redacted, redactions.
  pose proof (@table_length_bound redaction_table all_patterns_well_behaved t). lia.
Qed.

End RedactedText.

(** *** The shape of an entry *)

Lemma compile_table_categories (tbl : list (text * list text)) :
  forall tbl', compile_table tbl = Some tbl' -> map fst tbl' = map fst tbl.
Proof.
  induction tbl as [|[c0 ps0] tbl IH]; intros tbl' H; cbn [compile_table] in H.
  - injection H as <-. reflexivity.
  - destruct (compile_all ps0) as [rs0|]; [|discriminate].
    destruct (compile_table tbl) as [tbl0|]; [|discriminate].
    injection H as <-. cbn [map fst]. rewrite (IH tbl0 eq_refl). reflexivity.
Qed.

Section EntryShape.
Context {db : UnicodeDB}.

Lemma entries_patterns_shape (category : text) (ps : list regex) :
  forall t e, In e (entries_patterns category ps t) -> exists x, e = entry_of category x.
Proof.
  induction ps as [|p ps IH]; intros t e H; cbn [entries_patterns] in H; [contradiction|].
  apply in_app_or in H. destruct H as [H|H].
  - apply in_map_iff in H. destruct H as (x & <- & _). exists x. reflexivity.
  - apply (IH _ _ H).
Qed.

Lemma entries_table_shape (tbl : list (text * list regex)) :
  forall t e, In e (entries_table tbl t) ->
    exists category x, In category (map fst tbl) /\ e = entry_of category x.
Proof.
  induction tbl as [|[category ps] tbl IH]; intros t e H; cbn [entries_table] in H;
    [contradiction|].
  apply in_app_or in H. destruct H as [H|H].
  - apply entries_patterns_shape in H. destruct H as [x ->].
    exists category, x. split; [left; reflexivity|reflexivity].
  - destruct (IH _ _ H) as (c & x & Hc & ->).
    exists c, x. split; [right; exact Hc|reflexivity].
Qed.

(** X7: every entry of the summary reads [key: Removed category: x], where
    [key] is a key of the record whose value is a string and [category] is
    one of the categories of the table. *)
Theorem summary_entry_shape (content : pydict) (now : datetime) (out : pydict)
        (summary : list text) (e : text) :
  redact_content content now = Some (out, summary) ->
  In e summary ->
  exists k s category ps x,
    In (k, PStr s) content
    /\ In (category, ps) _init_redaction_patterns
    /\ e = k ++ str ": " ++ str "Removed " ++ category ++ str ": " ++ x.
Proof.
  unfold redact_content. rewrite redact_items_eq. cbn [fst snd app].
  intros [= _ <-] He. unfold ordered_summary in He.
  apply in_flat_map in He. destruct He as ([k v] & Hkv & He).
  unfold item_entries in He. cbn [fst snd] in He.
  destruct v; try contradiction.
  apply in_map_iff in He. destruct He as (r & <- & Hr).
  unfold redactions in Hr. apply entries_table_shape in Hr.
  destruct Hr as (category & x & Hc & ->).
  assert (Hcat : map fst redaction_table = map fst _init_redaction_patterns).
  { apply compile_table_categories. apply compile_table_ok. }
  rewrite Hcat in Hc. apply in_map_iff in Hc. destruct Hc as ([c ps] & Hfst & Hin).
  cbn [fst] in Hfst. subst c.
  exists k, s, category, ps, x. split; [exact Hkv|]. split; [exact Hin|reflexivity].
Qed.

End EntryShape.

(** *** At concrete inputs *)

Lemma empty_summary_means_unchanged_witness :
  [ (str "location", PStr (str "Ohio"));
    (k_redaction_applied, PBool true);
    (k_redaction_timestamp, PStr (isoformat epoch)) ]
  = dict_set k_redaction_timestamp (PStr (isoformat epoch))
      (dict_set k_redaction_applied (PBool true) [(str "location", PStr (str "Ohio"))]).
Proof.
  apply (@empty_summary_means_unchanged plain_db
           [(str "location", PStr (str "Ohio"))] epoch).
  - no_dup_keys.
  - vm_compute. reflexivity.
Defined.

Lemma logged_redaction_shows_placeholder_witness :
  occurs REDACTED (str "call [REDACTED]").
Proof.
  apply (@logged_redaction_shows_placeholder plain_db (str "call 555-123-4567")
           (str "call [REDACTED]") [str "Removed contact_info: 555-123-4567"]).
  - vm_compute. reflexivity.
  - discriminate.
Defined.

Lemma redaction_adds_only_placeholder_witness :
  In (chr "R") (str "call 555-123-4567") \/ In (chr "R") REDACTED.
Proof.
  apply (@redaction_adds_only_placeholder plain_db (str "call 555-123-4567")
           (str "call [REDACTED]") [str "Removed contact_info: 555-123-4567"]).
  - vm_compute. reflexivity.
  - vm_compute. tauto.
Defined.

Lemma wordless_text_is_untouched_witness :
  _redact_text (db := plain_db) (str "--- (?) ---") = Some (str "--- (?) ---", []).
Proof.
  apply (@wordless_text_is_untouched plain_db).
  unfold wordless. vm_compute. split_forall; reflexivity.
Defined.

Lemma replaced_spans_are_whole_words_witness :
  5 < 17 /\ 17 <= List.length (str "call 555-123-4567")
  /\ boundary (db := plain_db) (str "call 555-123-4567") 5 = true
  /\ boundary (db := plain_db) (str "call 555-123-4567") 17 = true.
Proof.
  apply (@replaced_spans_are_whole_words plain_db
           (fst (nth 1 _init_redaction_patterns ([], [])))
           (snd (nth 1 _init_redaction_patterns ([], [])))
           (pattern_of "contact_info" 1)
           (match re_compile (pattern_of "contact_info" 1) with
            | Some r => r
            | None => REmpty
            end)
           (str "call 555-123-4567") (5, (17, []))).
  - right. left. reflexivity.
  - right. left. reflexivity.
  - vm_compute. reflexivity.
  - vm_compute. left. reflexivity.
Defined.

Lemma redacted_length_bound_witness :
  List.length (str "call [REDACTED]") <= List.length (str "call 555-123-4567") + 9 * 1.
Proof.
  apply (@redacted_length_bound plain_db (str "call 555-123-4567")
           (str "call [REDACTED]") [str "Removed contact_info: 555-123-4567"]).
  vm_compute. reflexivity.
Defined.

Lemma summary_entry_shape_witness :
  exists k s category ps x,
    In (k, PStr s) [(str "notes", PStr (str "call 555-123-4567"))]
    /\ In (category, ps) _init_redaction_patterns
    /\ str "notes: Removed contact_info: 555-123-4567"
       = k ++ str ": " ++ str "Removed " ++ category ++ str ": " ++ x.
Proof.
  apply (@summary_entry_shape plain_db
           [(str "notes", PStr (str "call 555-123-4567"))] epoch
           [ (str "notes", PStr (str "call [REDACTED]"));
             (k_redaction_applied, PBool true);
             (k_redaction_timestamp, PStr (isoformat epoch)) ]
           [str "notes: Removed contact_info: 555-123-4567"]).
  - vm_compute. reflexivity.
  - left. reflexivity.
Defined.

(** ** The record the extractor returns *)

Lemma parse_members_ok {lim : Limits} (fuel depth : nat) :
  forall s acc v r,
    parse_members fuel depth s acc = Ok (v, r) -> dict_ok acc ->
    exists d, v = PDict d /\ dict_ok d.
Proof.
  induction fuel as [|fuel IH]; intros s acc v r; cbn [parse_members]; [discriminate|].
  destruct s as [|q s1]; [discriminate|].
  destruct (q =? dquote)%N; [|discriminate].
  destruct (scanstring s1 []) as [[key s2]|]; [|discriminate].
  destruct (skip_ws s2) as [|c s3]; [discriminate|].
  destruct (c =? chr ":")%N; [|discriminate].
  destruct (scan_once fuel depth (skip_ws s3)) as [[v0 s4]|e]; [|discriminate].
  destruct (skip_ws s4) as [|d s5]; [discriminate|].
  destruct (d =? chr "}")%N.
  - intros [= <- _] Hok. eexists. split; [reflexivity|]. apply dict_ok_set. exact Hok.
  - destruct (d =? chr ",")%N; [|discriminate]. intros H Hok.
    apply (IH _ _ _ _ H). apply dict_ok_set. exact Hok.
Qed.

(** A text that starts with an opening brace decodes, when it does, to a
    [dict] without a key twice. *)
Lemma json_loads_object_ok {lim : Limits} (s : text) (v : pyval) :
  json_loads (chr "{" :: s) = Ok v -> exists d, v = PDict d /\ dict_ok d.
Proof.
  unfold json_loads. change (chr "{") with 123%N.
  change (starts_with_bom (123%N :: s)) with false.
  cbn [skip_ws is_json_ws]. change (is_json_ws 123%N) with false. cbv iota.
  match goal with
  | |- context [scan_once ?f ?dp ?x] =>
      generalize f, dp; intros fuel depth;
      destruct (scan_once fuel depth x) as [[v0 r]|e] eqn:E
  end; [|discriminate].
  destruct (skip_ws r); [|discriminate]. intros [= <-].
  destruct fuel as [|fuel]; [discriminate|].
  cbn [scan_once] in E. change (123 =? dquote)%N with false in E.
  change (123 =? chr "{")%N with true in E. cbv iota in E.
  destruct depth as [|depth]; [discriminate|].
  destruct (skip_ws s) as [|d s2]; [discriminate|].
  destruct (d =? chr "}")%N.
  - injection E as <- _. eexists. split; [reflexivity|]. constructor.
  - apply parse_members_ok in E; [exact E|constructor].
Qed.

Lemma skipn_nth_cons (A : Type) (i : nat) :
  forall (l : list A) (x : A), nth_error l i = Some x -> skipn i l = x :: skipn (S i) l.
Proof.
  induction i as [|i IH]; intros [|a l] x H; cbn [nth_error] in H; try discriminate.
  - injection H as ->. reflexivity.
  - cbn [skipn]. rewrite (IH l x H). reflexivity.
Qed.

Lemma flat_map_nil (A B : Type) (f : A -> list B) (l : list A) :
  (forall x, f x = []) -> flat_map f l = [].
Proof.
  intros H. induction l as [|a l IH]; cbn [flat_map]; [reflexivity|].
  rewrite H, IH. reflexivity.
Qed.

Lemma manual_ok (response_text : text) :
  exists d, _manual_parse_response response_text = PDict d /\ dict_ok d.
Proof.
  eexists. split; [reflexivity|]. unfold dict_ok. cbn [dict_keys map fst].
  vm_compute. repeat (constructor; [simpl; intuition discriminate|]). constructor.
Qed.

Section ParsedRecord.
Context {db : UnicodeDB} {lim : Limits}.

Lemma close_at_end (t : text) (i k : nat) (st : nat * list (nat * (nat * nat))) :
  In st (close_at t i k) -> fst st = S (S i + k).
Proof.
  unfold close_at. destruct (nth_error t (S i + k)) as [d|]; [|contradiction].
  destruct (d =? chr "}")%N; [|contradiction].
  intros [<-|[]]. reflexivity.
Qed.

(** What [re.search] finds for the brace pattern starts with an opening
    brace. *)
Lemma search_brace_text (t : text) (m : nat * (nat * list (nat * (nat * nat)))) :
  search DOTALL brace_pattern t = Some m -> exists s, m_text t m = chr "{" :: s.
Proof.
  unfold search, finditer. intros H.
  assert (Hin : In m (scan DOTALL t brace_pattern 0 0 t)).
  { destruct (scan DOTALL t brace_pattern 0 0 t); [discriminate|].
    injection H as ->. left. reflexivity. }
  apply scan_sound in Hin. rewrite brace_run in Hin.
  destruct (nth_error t (fst m)) as [c|] eqn:En; [|contradiction].
  destruct (c =? chr "{")%N eqn:Ec; [|contradiction].
  apply N.eqb_eq in Ec. subst c.
  apply in_flat_map in Hin. destruct Hin as (k & _ & Hk).
  apply close_at_end in Hk.
  unfold m_text, slice, m_start, m_end. rewrite (skipn_nth_cons _ _ En), Hk.
  replace (S (S (fst m) + k) - fst m) with (S (S k)) by lia.
  cbn [firstn]. eexists. reflexivity.
Qed.

(** What [_parse_extraction_response] returns is a [dict], and it raises
    nothing but the [ValueError] and the [RecursionError] of the decoder. *)
Lemma parse_dict (response_text : text) :
  match _parse_extraction_response response_text with
  | Ok v => exists d, v = PDict d /\ dict_ok d
  | Raise e => e = Builtin ValueError \/ e = Builtin RecursionError
  end.
Proof.
  pose proof (parse_outcomes response_text) as H.
  destruct (_parse_extraction_response response_text) as [v|e].
  - destruct H as [(m & Es & Ej)|(-> & _)]; [|apply manual_ok].
    destruct (search_brace_text _ Es) as [s Hs]. rewrite Hs in Ej.
    exact (json_loads_object_ok _ Ej).
  - destruct H as (Hne & m & _ & Ej). apply json_loads_raises in Ej.
    destruct Ej as [->|[->| ->]]; [contradiction|left|right]; reflexivity.
Qed.

(** X8: whatever the answer of the service, what
    [_parse_extraction_response] returns is a [dict] (never a list, a number
    or a string, which are JSON too) without a key twice, and
    [redact_content] returns on it: in the pipeline the redaction does not
    fail.  When it does not return, what it raises is the [ValueError] or
    the [RecursionError] of [json.loads], which its handler does not
    catch. *)
Theorem parsed_record_is_redactable (response_text : text) (now : datetime) :
  match _parse_extraction_response response_text with
  | Ok v =>
      exists d out summary,
        v = PDict d /\ dict_ok d /\ redact_content d now = Some (out, summary)
  | Raise e => e = Builtin ValueError \/ e = Builtin RecursionError
  end.
Proof.
  pose proof (parse_dict response_text) as H.
  destruct (_parse_extraction_response response_text) as [v|e]; [|exact H].
  destruct H as (d & -> & Hd).
  exists d. eexists. eexists. split; [reflexivity|]. split; [exact Hd|].
  apply redact_content_eq. exact Hd.
Qed.

(** X9: when no closing brace comes after an opening brace, nothing is
    searched further: the fallback record is returned. *)
Theorem unclosed_brace_takes_fallback (response_text : text) :
  (forall i j, nth_error response_text i = Some (chr "{") ->
               nth_error response_text j = Some (chr "}") -> j < i) ->
  _parse_extraction_response response_text = Ok (_manual_parse_response response_text).
Proof.
  intros H. rewrite parse_eq.
  assert (Hs : search DOTALL brace_pattern response_text = None).
  { unfold search, finditer. rewrite scan_none; [reflexivity|].
    intros k. unfold match_at. rewrite brace_run.
    destruct (nth_error response_text k) as [c|] eqn:En; [|reflexivity].
    destruct (c =? chr "{")%N eqn:Ec; [|reflexivity].
    apply N.eqb_eq in Ec. subst c.
    rewrite flat_map_nil; [reflexivity|].
    intros x. unfold close_at.
    destruct (nth_error response_text (S k + x)) as [d|] eqn:Ed; [|reflexivity].
    destruct (d =? chr "}")%N eqn:E; [|reflexivity].
    apply N.eqb_eq in E. subst d. specialize (H _ _ En Ed). lia. }
  rewrite Hs. reflexivity.
Qed.

End ParsedRecord.

Lemma unclosed_brace_takes_fallback_witness :
  _parse_extraction_response (db := plain_db) (lim := sample_limits) (str "} so {")
  = Ok (_manual_parse_response (str "} so {")).
Proof.
  apply (@unclosed_brace_takes_fallback plain_db sample_limits (str "} so {")).
  intros i j Hi Hj.
  assert (Ei : i = 5).
  { do 6 (destruct i as [|i]; [vm_compute in Hi; try discriminate; try reflexivity|]).
    destruct i; discriminate. }
  assert (Ej : j = 0).
  { destruct j as [|j]; [reflexivity|].
    do 5 (destruct j as [|j]; [vm_compute in Hj; discriminate|]).
    destruct j; discriminate. }
  lia.
Defined.

(** ** The prompt and the call of the service *)

Lemma not_In_forallb (c : char) (l : text) :
  forallb (fun x => negb (x =? c)%N) l = true -> ~ In c l.
Proof.
  intros H Hin. rewrite forallb_forall in H. specialize (H c Hin).
  rewrite N.eqb_refl in H. discriminate.
Qed.

(** The text after the document: some lines without brace, then the
    record of the template between braces, then a newline.  The record has
    an array in it, so decoding it enters an object and an array. *)
Lemma prompt_after_split {lim : Limits} :
  exists a b,
    prompt_after = a ++ chr "{" :: b ++ chr "}" :: [10%N]
    /\ ~ In (chr "{") a
    /\ json_loads (chr "{" :: b ++ [chr "}"])
       = if 2 <=? json_max_depth then Ok template_record
         else Raise (Builtin RecursionError).
Proof.
  exists (firstn 920 prompt_after), (firstn 354 (skipn 921 prompt_after)).
  split; [vm_compute; reflexivity|]. split.
  - apply not_In_forallb. vm_compute. reflexivity.
  - destruct lim as [digits [|[|depth]]]; vm_compute; reflexivity.
Qed.

Section Extraction.
Context {db : UnicodeDB} {lim : Limits} {outside : Outside}.

(** X10: an answer that repeats the prompt built for a document without opening
    brace is decoded to the record of the template, each section "..." and
    the confidence 0.95: the literal found is the one the prompt shows as
    the format.  That is so on every interpreter that has room for an array
    inside an object; one that has not raises [RecursionError]. *)
Theorem echoed_prompt_parses_as_template (content : text) (options : pyval) :
  ~ In (chr "{") content ->
  _parse_extraction_response (AIExtractor._build_extraction_prompt (PStr content) options)
  = if 2 <=? json_max_depth then Ok template_record
    else Raise (Builtin RecursionError).
Proof.
  intros Hc. unfold AIExtractor._build_extraction_prompt, AIExtractor.fstring_value.
  fold prompt_after.
  destruct prompt_after_split as (a & b & -> & Ha & Hj).
  set (before := unlines (map single_quoted prompt_lines_before)).
  assert (Hb : ~ In (chr "{") before).
  { apply not_In_forallb. vm_compute. reflexivity. }
  rewrite parse_eq.
  replace (before ++ content ++ a ++ chr "{" :: b ++ chr "}" :: [10%N])
    with ((before ++ content ++ a) ++ chr "{" :: b ++ chr "}" :: [10%N])
    by (rewrite <- !app_assoc; reflexivity).
  destruct (@search_brace _ (before ++ content ++ a) b [10%N]) as (m & -> & ->).
  - intros H. apply in_app_or in H. destruct H as [H|H]; [exact (Hb H)|].
    apply in_app_or in H. destruct H as [H|H]; [exact (Hc H)|exact (Ha H)].
  - intros [H|[]]. discriminate.
  - rewrite Hj. destruct (2 <=? json_max_depth); reflexivity.
Qed.

(** X11: when the service answers with a text, [extract_rfq_content]
    returns what [_parse_extraction_response] returns on it, a [dict], or
    raises when that raises (the [ValueError] or the [RecursionError] of
    [json.loads]); it raises too when the service raises or answers without
    content.  What it raises is always an [Exception] whose text is "AI
    extraction failed: " followed by the text of the cause. *)
Theorem extraction_fails_only_with_the_service (document_content options : pyval) :
  match chat_create (AIExtractor.extraction_request
                       (AIExtractor._build_extraction_prompt document_content options)) with
  | Ok (Some answer) =>
      match _parse_extraction_response answer with
      | Ok v =>
          exists d,
            v = PDict d
            /\ AIExtractor.extract_rfq_content document_content options = Ok (PDict d)
      | Raise e =>
          (e = Builtin ValueError \/ e = Builtin RecursionError)
          /\ AIExtractor.extract_rfq_content document_content options
             = Raise (Wrapped (str "AI extraction failed: ") e)
      end
  | Ok None =>
      AIExtractor.extract_rfq_content document_content options
      = Raise (Wrapped (str "AI extraction failed: ") (Builtin (TypeError PNone)))
  | Raise e =>
      AIExtractor.extract_rfq_content document_content options
      = Raise (Wrapped (str "AI extraction failed: ") e)
  end.
Proof.
  unfold AIExtractor.extract_rfq_content.
  destruct (chat_create _) as [[answer|]|e]; [|reflexivity|reflexivity].
  pose proof (parse_dict answer) as H.
  destruct (_parse_extraction_response answer) as [v|e].
  - destruct H as (d & -> & _). exists d. split; reflexivity.
  - split; [exact H|reflexivity].
Qed.

End Extraction.

Lemma echoed_prompt_parses_as_template_witness :
  _parse_extraction_response (db := plain_db) (lim := sample_limits)
    (AIExtractor._build_extraction_prompt (outside := quiet_outside)
       (PStr (str "Paint the hangar.")) (PDict []))
  = Ok template_record.
Proof.
  apply (@echoed_prompt_parses_as_template plain_db sample_limits quiet_outside).
  apply not_In_forallb. vm_compute. reflexivity.
Defined.

(** ** The fallback record in the pipeline *)

Section FallbackPipeline.
Context {db : UnicodeDB}.

Lemma fixed_texts_quiet :
  Forall (fun p => no_match_in p fallback_notice = true
                   /\ no_match_in p (str "Not specified") = true) all_patterns.
Proof.
  unfold all_patterns, redaction_table. cbn [map snd List.concat app].
  split_forall; split; vm_compute; reflexivity.
Qed.

Lemma settled_of_no_match (s : text) :
  (forall p, In p all_patterns -> no_match_in p s = true) -> settled (PStr s).
Proof.
  intros H. unfold settled, redacted, redactions. apply quiet_table.
  intros p Hp. pose proof all_patterns_well_behaved as Hwb. rewrite Forall_forall in Hwb.
  apply no_match_in_quiet; [apply Hwb; exact Hp|apply H; exact Hp].
Qed.

Lemma fixed_texts_settled :
  settled (PStr fallback_notice) /\ settled (PStr (str "Not specified")).
Proof.
  pose proof fixed_texts_quiet as H. rewrite Forall_forall in H.
  split; apply settled_of_no_match; intros p Hp; apply (H p Hp).
Qed.

(** X12: redacting the fallback record touches [scope_of_work] only: every
    entry of the summary is one of that section, its text is the redacted
    prefix of the answer, and every other field but the two stamps comes
    out as it went in. *)
Theorem fallback_record_redaction (response_text : text) (now : datetime) :
  exists d out t' rs,
    _manual_parse_response response_text = PDict d
    /\ _redact_text (firstn 500 response_text ++ str "...") = Some (t', rs)
    /\ redact_content d now = Some (out, map (tagged (str "scope_of_work")) rs)
    /\ dict_get (str "scope_of_work") out = Some (PStr t')
    /\ forall k, k <> str "scope_of_work" -> k <> k_redaction_applied ->
                 k <> k_redaction_timestamp -> dict_get k out = dict_get k d.
Proof.
  destruct fixed_texts_settled as [[N1 N2] [S1 S2]].
  destruct (manual_ok response_text) as (d & Hd & Hok).
  unfold _manual_parse_response in Hd. injection Hd as Hd.
  set (scope := firstn 500 response_text ++ str "...") in *.
  exists d, (stamped now (redacted_items d)), (redacted scope), (redactions scope).
  split; [subst d; reflexivity|]. split; [apply _redact_text_eq|].
  split; [|split].
  - rewrite (redact_content_eq now Hok). f_equal. f_equal.
    subst d. unfold ordered_summary, not_specified, item_entries.
    cbn [flat_map fst snd]. fold fallback_notice.
    rewrite N2, S2. cbn [map app]. apply app_nil_r.
  - rewrite stamped_get_other by (intros E; vm_compute in E; discriminate).
    rewrite redacted_items_get. subst d. reflexivity.
  - intros k K1 K2 K3. rewrite stamped_get_other by assumption.
    rewrite redacted_items_get.
    destruct (dict_get k d) as [v|] eqn:E; [|reflexivity].
    apply dict_get_In in E. subst d. unfold not_specified in E.
    cbn [In] in E. fold fallback_notice in E.
    repeat (destruct E as [E|E];
            [injection E as <- <-; cbn [option_map redact_value];
             first [congruence | rewrite N1; reflexivity | rewrite S1; reflexivity
                   | reflexivity]|]).
    contradiction.
Qed.

End FallbackPipeline.

(** ** The views of [app.py] *)

Section Views.
Context {db : UnicodeDB} {lim : Limits} {outside : Outside}.

(** X13: the health view answers 200 in every case, with a status that is
    "healthy" when the key of the service is set to a string that is not
    empty and "error" when it is missing or empty. *)
Theorem health_view_reports_the_key :
  status App.health_check = 200
  /\ record_get (str "status") (body App.health_check)
     = Some (PStr (match os_getenv (str "OPENAI_API_KEY") with
                   | Some (_ :: _) => str "healthy"
                   | Some [] | None => str "error"
                   end))
  /\ record_get (str "services") (body App.health_check)
     = Some (PDict [ (str "ai_extractor",
                      PStr (match os_getenv (str "OPENAI_API_KEY") with
                            | Some (_ :: _) => str "ready"
                            | Some [] | None => str "no_api_key"
                            end)) ]).
Proof.
  unfold App.health_check, AIExtractor.health_check.
  destruct (os_getenv (str "OPENAI_API_KEY")) as [[|c k]|];
    (split; [reflexivity|split; reflexivity]).
Qed.

Lemma response_status_differs (r1 r2 : response) : status r1 <> status r2 -> r1 <> r2.
Proof. intros H E. apply H. rewrite E. reflexivity. Qed.

(** X14: a body that is a JSON object is answered 400 "No content" exactly when
    it has no key "content"; the empty object is one of these. *)
Theorem object_without_content_is_bad_request (d : pydict) (now : datetime) :
  App.process_rfq (Ok (PDict d)) now = App.no_content
  <-> dict_get (str "content") d = None.
Proof.
  unfold App.process_rfq. cbn [truthy py_in subscript get_or bind].
  destruct d as [|kv d']; [split; reflexivity|]. cbn [negb].
  destruct (dict_get (str "content") (kv :: d')) as [content|].
  - split; [|discriminate]. intros H. exfalso. revert H.
    cbn [bind].
    destruct (App.process_document content _ now) as [r|e];
      apply response_status_differs; cbn [status App.failure App.no_content]; lia.
  - split; reflexivity.
Qed.

(** X15: a body that is not a JSON object never reaches the services.  A list
    is answered 500 when the string "content" is one of its elements and
    400 otherwise; a string is answered 500 when it contains "content" and
    400 otherwise; null, false and zero are answered 400, true and the other
    numbers 500.  The 500 is that of a [TypeError]. *)
Theorem non_object_body_is_not_processed (data : pyval) (now : datetime) :
  match data with
  | PDict _ => True
  | PList l =>
      App.process_rfq (Ok data) now
      = if existsb is_content l then App.failure (Builtin (TypeError data)) else App.no_content
  | PStr s =>
      App.process_rfq (Ok data) now
      = if has_infix (str "content") s then App.failure (Builtin (TypeError data))
        else App.no_content
  | _ =>
      App.process_rfq (Ok data) now
      = if truthy data then App.failure (Builtin (TypeError data)) else App.no_content
  end.
Proof.
  destruct data as [|b|z|f|s|l|d]; try exact I; unfold App.process_rfq.
  - reflexivity.
  - destruct b; reflexivity.
  - cbn [truthy py_in]. destruct (z =? 0)%Z; reflexivity.
  - cbn [truthy py_in]. destruct (float_is_zero f); reflexivity.
  - cbn [truthy py_in subscript bind]. destruct s as [|c s']; [reflexivity|].
    cbn [negb]. destruct (has_infix (str "content") (c :: s')); reflexivity.
  - cbn [truthy py_in subscript bind]. destruct l as [|e l']; [reflexivity|].
    cbn [negb]. unfold is_content.
    destruct (existsb _ (e :: l')); reflexivity.
Qed.

(** What [process_document] does once the service has answered with a
    text.  When the parser returns, it returns a [dict], the [dict] is
    redacted, and the redaction does not fail.  When the parser raises, the
    extractor wraps what it raised. *)
Lemma process_document_answered (content company_info : pyval) (answer : text)
      (now : datetime) :
  chat_create (AIExtractor.extraction_request
                 (AIExtractor._build_extraction_prompt content (PDict [])))
  = Ok (Some answer) ->
  match _parse_extraction_response answer with
  | Ok v =>
      exists extracted redacted summary,
        v = PDict extracted
        /\ redact_content extracted now = Some (redacted, summary)
        /\ App.process_document content company_info now
           = match generate_rfq redacted company_info with
             | Ok final_rfq =>
                 Ok (App.document_result (PDict extracted) redacted summary final_rfq
                       (match dict_get (str "confidence_score") extracted with
                        | Some c => c
                        | None => PFloat (FDec false 0 (-1))
                        end))
             | Raise e => Raise e
             end
  | Raise e =>
      (e = Builtin ValueError \/ e = Builtin RecursionError)
      /\ App.process_document content company_info now
         = Raise (Wrapped (str "AI extraction failed: ") e)
  end.
Proof.
  intros Hc. pose proof (parse_dict answer) as H.
  unfold App.process_document, AIExtractor.extract_rfq_content. rewrite Hc.
  destruct (_parse_extraction_response answer) as [v|e].
  - destruct H as (extracted & -> & Hok).
    exists extracted. eexists. eexists. split; [reflexivity|].
    split; [apply redact_content_eq; exact Hok|].
    cbn [bind App.redact_extracted].
    rewrite (redact_content_eq now Hok). cbn [bind].
    destruct (generate_rfq _ company_info); reflexivity.
  - split; [exact H|reflexivity].
Qed.

(** X16: a request whose body is an object with a key "content", when the
    service answers with a text that the parser returns on, is answered 200
    unless the generator raises: what the parser returns is a [dict] and
    the redaction cannot fail.  The result holds the parsed record as it was
    before redaction, the redacted record, the summary, what the generator
    returned, and the confidence of the parsed record, 0.0 when it has none.
    When the parser raises, which it does on the [ValueError] and the
    [RecursionError] of [json.loads] only, the request is answered 500 with
    "AI extraction failed: " and the text of the error. *)
Theorem answered_request_outcome (d : pydict) (content : pyval) (answer : text)
        (now : datetime) :
  dict_get (str "content") d = Some content ->
  chat_create (AIExtractor.extraction_request
                 (AIExtractor._build_extraction_prompt content (PDict [])))
  = Ok (Some answer) ->
  match _parse_extraction_response answer with
  | Ok v =>
      exists extracted redacted summary,
        v = PDict extracted
        /\ redact_content extracted now = Some (redacted, summary)
        /\ App.process_rfq (Ok (PDict d)) now
           = match generate_rfq redacted
                     (match dict_get (str "company_info") d with
                      | Some c => c
                      | None => PDict []
                      end) with
             | Ok final_rfq =>
                 {| status := 200;
                    body := App.document_result (PDict extracted) redacted summary final_rfq
                              (match dict_get (str "confidence_score") extracted with
                               | Some c => c
                               | None => PFloat (FDec false 0 (-1))
                               end) |}
             | Raise e => App.failure e
             end
  | Raise e =>
      (e = Builtin ValueError \/ e = Builtin RecursionError)
      /\ App.process_rfq (Ok (PDict d)) now
         = {| status := 500;
              body := PDict [ (str "success", PBool false);
                              (str "error",
                               PStr (str "AI extraction failed: " ++ exn_str e)) ] |}
  end.
Proof.
  intros Hd Hc.
  pose proof (@process_document_answered content
                (match dict_get (str "company_info") d with
                 | Some c => c
                 | None => PDict []
                 end) answer now Hc) as H.
  assert (Hrfq : App.process_rfq (Ok (PDict d)) now
                 = match App.process_document content
                           (match dict_get (str "company_info") d with
                            | Some c => c
                            | None => PDict []
                            end) now with
                   | Ok result => {| status := 200; body := result |}
                   | Raise e => App.failure e
                   end).
  { unfold App.process_rfq. cbn [truthy py_in subscript get_or bind].
    destruct d as [|kv d']; [discriminate|]. cbn [negb].
    rewrite Hd. cbn [bind]. reflexivity. }
  destruct (_parse_extraction_response answer) as [v|e].
  - destruct H as (extracted & redacted & summary & -> & Hr & Hdoc).
    exists extracted, redacted, summary. split; [reflexivity|]. split; [exact Hr|].
    rewrite Hrfq, Hdoc. destruct (generate_rfq redacted _); reflexivity.
  - destruct H as [He Hdoc]. split; [exact He|].
    rewrite Hrfq, Hdoc. reflexivity.
Qed.

(** X17: when the service raises, the request is answered 500 and the error
    reads "AI extraction failed: " followed by the text of what the service
    raised. *)
Theorem service_failure_is_reported (d : pydict) (content : pyval) (e : pyexn)
        (now : datetime) :
  dict_get (str "content") d = Some content ->
  chat_create (AIExtractor.extraction_request
                 (AIExtractor._build_extraction_prompt content (PDict [])))
  = Raise e ->
  App.process_rfq (Ok (PDict d)) now
  = {| status := 500;
       body := PDict [ (str "success", PBool false);
                       (str "error", PStr (str "AI extraction failed: " ++ exn_str e)) ] |}.
Proof.
  intros Hd Hc.
  unfold App.process_rfq. cbn [truthy py_in subscript get_or bind].
  destruct d as [|kv d']; [discriminate|]. cbn [negb].
  rewrite Hd. cbn [bind].
  unfold App.process_document, AIExtractor.extract_rfq_content. rewrite Hc.
  reflexivity.
Qed.

End Views.

Lemma answered_request_outcome_witness :
  exists extracted redacted summary,
    _manual_parse_response (str "no structure here") = PDict extracted
    /\ redact_content (db := plain_db) extracted epoch = Some (redacted, summary)
    /\ App.process_rfq (db := plain_db) (lim := sample_limits) (outside := quiet_outside)
         (Ok (PDict [(str "content", PStr (str "Paint the hangar."))])) epoch
       = match generate_rfq (Outside := quiet_outside) redacted
                 (match dict_get (str "company_info")
                          [(str "content", PStr (str "Paint the hangar."))] with
                  | Some c => c
                  | None => PDict []
                  end) with
         | Ok final_rfq =>
             {| status := 200;
                body := App.document_result (PDict extracted) redacted summary final_rfq
                          (match dict_get (str "confidence_score") extracted with
                           | Some c => c
                           | None => PFloat (FDec false 0 (-1))
                           end) |}
         | Raise e => App.failure (outside := quiet_outside) e
         end.
Proof.
  apply (@answered_request_outcome plain_db sample_limits quiet_outside
           [(str "content", PStr (str "Paint the hangar."))]
           (PStr (str "Paint the hangar.")) (str "no structure here") epoch).
  - reflexivity.
  - reflexivity.
Defined.

Lemma service_failure_is_reported_witness :
  App.process_rfq (db := plain_db) (lim := sample_limits) (outside := failing_outside)
    (Ok (PDict [(str "content", PStr (str "Paint the hangar."))])) epoch
  = {| status := 500;
       body := PDict [ (str "success", PBool false);
                       (str "error",
                        PStr (str "AI extraction failed: "
                              ++ exn_str (outside := failing_outside)
                                   (Failure (str "timed out")))) ] |}.
Proof.
  apply (@service_failure_is_reported plain_db sample_limits failing_outside
           [(str "content", PStr (str "Paint the hangar."))]
           (PStr (str "Paint the hangar.")) (Failure (str "timed out")) epoch).
  - reflexivity.
  - reflexivity.
Defined.

(** ** A text that comes back unlogged *)

Section Unlogged.
Context {db : UnicodeDB}.

Lemma unlogged_patterns_quiet (category : text) (ps : list regex) :
  forall t, entries_patterns category ps t = [] ->
    forall p, In p ps -> finditer IGNORECASE p t = [].
Proof.
  induction ps as [|p0 ps IH]; intros t H p Hp; [contradiction|].
  cbn [entries_patterns] in H. apply app_eq_nil in H. destruct H as [H1 H2].
  apply map_eq_nil in H1.
  rewrite (@sub_no_match _ IGNORECASE p0 REDACTED t H1) in H2.
  destruct Hp as [<-|Hp].
  - unfold findall in H1. apply map_eq_nil in H1. exact H1.
  - apply (IH t H2 p Hp).
Qed.

Lemma unlogged_table_quiet (tbl : list (text * list regex)) :
  forall t, entries_table tbl t = [] ->
    forall p, In p (List.concat (map snd tbl)) -> finditer IGNORECASE p t = [].
Proof.
  induction tbl as [|[category ps] tbl IH]; intros t H p Hp; [contradiction|].
  cbn [entries_table] in H. apply app_eq_nil in H. destruct H as [H1 H2].
  rewrite (@unlogged_patterns _ category ps t H1) in H2.
  cbn [map snd List.concat] in Hp. apply in_app_or in Hp. destruct Hp as [Hp|Hp].
  - apply (unlogged_patterns_quiet _ _ _ H1 p Hp).
  - apply (IH t H2 p Hp).
Qed.

(** X18: when [_redact_text] logs nothing, no pattern of the table has a
    match in its argument: a text in which [re.search] finds one of the
    patterns never comes back without an entry. *)
Theorem unlogged_text_has_no_match (t t' : text) (category : text) (ps : list text)
        (pattern : text) (r : regex) :
  _redact_text t = Some (t', []) ->
  In (category, ps) _init_redaction_patterns ->
  In pattern ps ->
  re_compile pattern = Some r ->
  search IGNORECASE r t = None.
Proof.
  rewrite _redact_text_eq. intros [= _ Hrs] Hc Hp Hr.
  unfold search. unfold redactions in Hrs.
  rewrite (unlogged_table_quiet _ _ Hrs r); [reflexivity|].
  fold all_patterns. eapply table_pattern_compiled; eassumption.
Qed.

End Unlogged.

Lemma unlogged_text_has_no_match_witness :
  search (db := plain_db) IGNORECASE
    (match re_compile (pattern_of "contact_info" 1) with
     | Some r => r
     | None => REmpty
     end) (str "Paint the hangar.")
  = None.
Proof.
  apply (@unlogged_text_has_no_match plain_db (str "Paint the hangar.")
           (str "Paint the hangar.")
           (fst (nth 1 _init_redaction_patterns ([], [])))
           (snd (nth 1 _init_redaction_patterns ([], [])))
           (pattern_of "contact_info" 1)).
  - vm_compute. reflexivity.
  - right. left. reflexivity.
  - right. left. reflexivity.
  - vm_compute. reflexivity.
Defined.

(** ** The case of the letters *)

Section CaseBlind.
Context {db : UnicodeDB}.

(** The atoms of the table and the word test do not tell a capital letter
    from its small letter. *)
Lemma letter_same_class (c : char) :
  is_upper c = true -> same_class IGNORECASE all_atoms c (c + 32)%N.
Proof.
  intros Hc.
  assert (Hall : forallb (fun d =>
                    Bool.eqb (is_word d) (is_word (d + 32)%N)
                    && forallb (fun a => Bool.eqb (atom_match IGNORECASE a d)
                                                  (atom_match IGNORECASE a (d + 32)%N))
                         all_atoms)
                   (map N.of_nat (seq 65 26)) = true)
    by (vm_compute; reflexivity).
  rewrite forallb_forall in Hall.
  assert (Hin : In c (map N.of_nat (seq 65 26))).
  { unfold is_upper, in_range in Hc. apply andb_true_iff in Hc. destruct Hc as [H1 H2].
    apply N.leb_le in H1, H2. change (chr "A") with 65%N in H1. change (chr "Z") with 90%N in H2.
    apply in_map_iff. exists (N.to_nat c). split; [apply N2Nat.id|].
    apply in_seq. lia. }
  apply Hall in Hin. apply andb_true_iff in Hin. destruct Hin as [Hw Ha].
  split; [apply eqb_prop; exact Hw|].
  intros a Hin. rewrite forallb_forall in Ha. apply eqb_prop, Ha, Hin.
Qed.

Lemma case_same_class (c1 c2 : char) :
  ascii_lower c1 = ascii_lower c2 -> same_class IGNORECASE all_atoms c1 c2.
Proof.
  unfold ascii_lower.
  destruct (is_upper c1) eqn:U1, (is_upper c2) eqn:U2; intros E.
  - assert (c1 = c2) by lia. subst c2. apply same_class_refl.
  - subst c2. apply letter_same_class. exact U1.
  - subst c1. destruct (letter_same_class c2 U2) as [Hw Ha].
    split; [symmetry; exact Hw|]. intros a Hin. symmetry. apply Ha, Hin.
  - subst c2. apply same_class_refl.
Qed.

Lemma same_letters_alike (t1 t2 : text) :
  same_letters t1 t2 -> alike IGNORECASE all_atoms t1 t2.
Proof.
  intros H. induction H as [|c1 c2 l1 l2 Hc _ IH]; constructor; [|exact IH].
  apply case_same_class. exact Hc.
Qed.

Lemma same_letters_refl (t : text) : same_letters t t.
Proof. induction t; constructor; [reflexivity|assumption]. Qed.

Lemma same_letters_app (t1 t2 u1 u2 : text) :
  same_letters t1 t2 -> same_letters u1 u2 -> same_letters (t1 ++ u1) (t2 ++ u2).
Proof. apply Forall2_app. Qed.

Lemma same_letters_firstn (n : nat) :
  forall t1 t2, same_letters t1 t2 -> same_letters (firstn n t1) (firstn n t2).
Proof.
  induction n as [|n IH]; intros t1 t2 H; [constructor|].
  destruct H as [|c1 c2 l1 l2 Hc H]; cbn [firstn]; constructor; [exact Hc|apply IH; exact H].
Qed.

Lemma same_letters_skipn (n : nat) :
  forall t1 t2, same_letters t1 t2 -> same_letters (skipn n t1) (skipn n t2).
Proof.
  induction n as [|n IH]; intros t1 t2 H; [exact H|].
  destruct H as [|c1 c2 l1 l2 Hc H]; cbn [skipn]; [constructor|apply IH; exact H].
Qed.

Lemma same_letters_slice (t1 t2 : text) (i j : nat) :
  same_letters t1 t2 -> same_letters (slice t1 i j) (slice t2 i j).
Proof. intros H. unfold slice. apply same_letters_firstn, same_letters_skipn, H. Qed.

(** The scan finds the same matches in two texts the matcher runs alike
    on. *)
Lemma scan_same (fl : flags) (t1 t2 : text) (r : regex) :
  (forall st, rx_run fl t1 r st = rx_run fl t2 r st) ->
  forall rest1 rest2 i resume,
    List.length rest1 = List.length rest2 ->
    scan fl t1 r i resume rest1 = scan fl t2 r i resume rest2.
Proof.
  intros Hrun.
  assert (H1 : forall i, match_at fl t1 r i = match_at fl t2 r i)
    by (intros i; unfold match_at; rewrite Hrun; reflexivity).
  assert (H2 : forall i, match_at_nonempty fl t1 r i = match_at_nonempty fl t2 r i)
    by (intros i; unfold match_at_nonempty; rewrite Hrun; reflexivity).
  induction rest1 as [|c1 rest1 IH]; intros [|c2 rest2] i resume Hlen;
    try discriminate; rewrite !scan_eq; unfold scan_next; rewrite H1, H2.
  - reflexivity.
  - injection Hlen as Hlen.
    destruct (i <? resume); [apply IH; exact Hlen|].
    destruct (match_at fl t2 r i) as [m|]; [|apply IH; exact Hlen].
    destruct (m_end m =? i).
    + destruct (match_at_nonempty fl t2 r i) as [m'|];
        [do 2 f_equal|f_equal]; apply IH; exact Hlen.
    + f_equal. apply IH. exact Hlen.
Qed.

Lemma finditer_same_letters (p : regex) (t1 t2 : text) :
  In p all_patterns -> same_letters t1 t2 ->
  finditer IGNORECASE p t1 = finditer IGNORECASE p t2.
Proof.
  intros Hp H. unfold finditer. apply scan_same.
  - apply rx_run_alike. apply (alike_incl (atoms_of_in_all Hp)).
    apply same_letters_alike. exact H.
  - apply (Forall2_length H).
Qed.

Lemma splice_same_letters (ms : list (nat * (nat * list (nat * (nat * nat))))) :
  forall i r1 r2,
    same_letters r1 r2 ->
    same_letters (splice REDACTED ms i r1) (splice REDACTED ms i r2).
Proof.
  induction ms as [|m ms IH]; intros i r1 r2 H; cbn [splice]; [exact H|].
  apply same_letters_app; [apply same_letters_firstn; exact H|].
  apply same_letters_app; [apply same_letters_refl|].
  apply IH. apply same_letters_skipn. exact H.
Qed.

Lemma findall_same_letters (p : regex) (t1 t2 : text) :
  In p all_patterns -> same_letters t1 t2 ->
  Forall2 same_letters (findall IGNORECASE p t1) (findall IGNORECASE p t2).
Proof.
  intros Hp H. unfold findall. rewrite (finditer_same_letters Hp H).
  induction (finditer IGNORECASE p t2) as [|m ms IH]; cbn [map]; constructor; [|exact IH].
  destruct (ngroups p =? 0).
  - apply same_letters_slice. exact H.
  - unfold m_group. destruct (find _ (m_groups m)) as [[n [i j]]|].
    + apply same_letters_slice. exact H.
    + constructor.
Qed.

Lemma entries_same_letters (category : text) (l1 l2 : list text) :
  Forall2 same_letters l1 l2 ->
  Forall2 same_letters (map (entry_of category) l1) (map (entry_of category) l2).
Proof.
  intros H. induction H as [|x1 x2 l1 l2 Hx _ IH]; cbn [map]; constructor; [|exact IH].
  unfold entry_of. repeat (apply same_letters_app; [apply same_letters_refl|]). exact Hx.
Qed.

Lemma patterns_case_blind (category : text) (ps : list regex) :
  (forall p, In p ps -> In p all_patterns) ->
  forall t1 t2,
    same_letters t1 t2 ->
    same_letters (text_after_patterns ps t1) (text_after_patterns ps t2)
    /\ Forall2 same_letters (entries_patterns category ps t1) (entries_patterns category ps t2).
Proof.
  induction ps as [|p ps IH]; intros Hall t1 t2 H; [split; [exact H|constructor]|].
  rewrite !text_after_patterns_cons. cbn [entries_patterns].
  assert (Hp : In p all_patterns) by (apply Hall; left; reflexivity).
  assert (Hs : same_letters (sub IGNORECASE p REDACTED t1) (sub IGNORECASE p REDACTED t2)).
  { unfold sub. rewrite (finditer_same_letters Hp H). apply splice_same_letters. exact H. }
  destruct (IH (fun q Hq => Hall q (or_intror Hq)) _ _ Hs) as [K1 K2].
  split; [exact K1|]. apply Forall2_app; [|exact K2].
  apply entries_same_letters. apply findall_same_letters; assumption.
Qed.

Lemma table_case_blind (tbl : list (text * list regex)) :
  (forall p, In p (List.concat (map snd tbl)) -> In p all_patterns) ->
  forall t1 t2,
    same_letters t1 t2 ->
    same_letters (text_after_table tbl t1) (text_after_table tbl t2)
    /\ Forall2 same_letters (entries_table tbl t1) (entries_table tbl t2).
Proof.
  induction tbl as [|[category ps] tbl IH]; intros Hall t1 t2 H; [split; [exact H|constructor]|].
  rewrite !text_after_table_cons. cbn [entries_table].
  cbn [map snd List.concat] in Hall.
  destruct (@patterns_case_blind category ps
              (fun p Hp => Hall p (in_or_app _ _ _ (or_introl Hp))) t1 t2 H) as [P1 P2].
  destruct (IH (fun p Hp => Hall p (in_or_app _ _ _ (or_intror Hp))) _ _ P1) as [K1 K2].
  split; [exact K1|]. apply Forall2_app; assumption.
Qed.

(** X19: the redaction does not look at the case of ASCII letters: two
    texts that differ in it only are replaced at the same places, so the
    texts [_redact_text] returns differ in the case of letters only, and so
    do the entries it logs, one by one. *)
Theorem redaction_is_case_blind (t1 t2 : text) :
  same_letters t1 t2 ->
  exists r1 rs1 r2 rs2,
    _redact_text t1 = Some (r1, rs1)
    /\ _redact_text t2 = Some (r2, rs2)
    /\ same_letters r1 r2
    /\ Forall2 same_letters rs1 rs2.
Proof.
  intros H. exists (redacted t1), (redactions t1), (redacted t2), (redactions t2).
  split; [apply _redact_text_eq|]. split; [apply _redact_text_eq|].
  unfold redacted, redactions. apply table_case_blind; [|exact H].
  intros p Hp. exact Hp.
Qed.

(** ** A match inside a larger text *)

Lemma embedded_agree (x pre post : text) :
  boundary (pre ++ x ++ post) (List.length pre) = true ->
  boundary (pre ++ x ++ post) (List.length pre + List.length x) = true ->
  agree x 0 (pre ++ x ++ post) (List.length pre) (List.length x).
Proof.
  intros B1 B2.
  assert (Hn : forall k, k < List.length x ->
                 nth_error (pre ++ x ++ post) (List.length pre + k) = nth_error x k).
  { intros k Hk. rewrite nth_error_app2 by lia.
    replace (List.length pre + k - List.length pre) with k by lia.
    apply nth_error_app1. exact Hk. }
  split.
  - intros k Hk. rewrite (Hn k Hk). cbn [Nat.add].
    destruct (nth_error x k) as [c|] eqn:E; [eauto|].
    apply nth_error_None in E. lia.
  - intros k Hk Hb. cbn [Nat.add] in Hb.
    destruct k as [|k]; [rewrite Nat.add_0_r; exact B1|].
    destruct (Nat.eq_dec (S k) (List.length x)) as [E|Hne]; [rewrite E; exact B2|].
    unfold boundary in *. rewrite Nat.add_succ_r. cbn [word_before] in *.
    unfold word_at in *. rewrite <- Nat.add_succ_r.
    rewrite (Hn k) by lia. rewrite (Hn (S k)) by lia. exact Hb.
Qed.

(** X20: what a pattern of the table matches as a whole is found wherever
    it stands between two word boundaries: a text that holds it there is
    never returned by [_redact_text] without an entry. *)
Theorem embedded_match_is_logged (category : text) (ps : list text) (pattern : text)
        (r : regex) (x pre post : text) (m : nat * (nat * list (nat * (nat * nat)))) :
  In (category, ps) _init_redaction_patterns ->
  In pattern ps ->
  re_compile pattern = Some r ->
  search IGNORECASE r x = Some m ->
  m_start m = 0 ->
  m_end m = List.length x ->
  boundary (pre ++ x ++ post) (List.length pre) = true ->
  boundary (pre ++ x ++ post) (List.length pre + List.length x) = true ->
  exists t' rs, _redact_text (pre ++ x ++ post) = Some (t', rs) /\ rs <> [].
Proof.
  intros Hc Hp Hr Hs Hs0 Hs1 B1 B2.
  assert (Hin : In r all_patterns) by (eapply table_pattern_compiled; eassumption).
  pose proof all_patterns_well_behaved as Hall. rewrite Forall_forall in Hall.
  pose proof (Hall r Hin) as Hw.
  set (t := pre ++ x ++ post) in *.
  exists (redacted t), (redactions t). split; [apply _redact_text_eq|].
  intros Hnil.
  assert (Hm : In m (finditer IGNORECASE r x)).
  { unfold search in Hs. destruct (finditer IGNORECASE r x); [discriminate|].
    injection Hs as ->. left. reflexivity. }
  unfold finditer in Hm. apply scan_sound in Hm.
  unfold m_start in Hs0. unfold m_end in Hs1. rewrite Hs0 in Hm.
  destruct (@rx_run_transfer _ IGNORECASE r x t 0 (List.length pre) (List.length x)
              [] [] (snd m) (embedded_agree x pre post B1 B2) Hm) as [caps' Hrun].
  { rewrite Hs1. lia. }
  assert (Hq : finditer IGNORECASE r t = []).
  { unfold redactions in Hnil. apply (unlogged_table_quiet _ _ Hnil). exact Hin. }
  assert (Hnone : match_at IGNORECASE t r (List.length pre) = None).
  { apply own_gap; [exact Hw|]. rewrite Hq. intros m0 []. }
  unfold match_at in Hnone.
  destruct (rx_run IGNORECASE t r (List.length pre, [])); [contradiction|discriminate].
Qed.

End CaseBlind.

Lemma redaction_is_case_blind_witness :
  exists r1 rs1 r2 rs2,
    _redact_text (db := plain_db) (str "ask the va") = Some (r1, rs1)
    /\ _redact_text (db := plain_db) (str "Ask The VA") = Some (r2, rs2)
    /\ same_letters r1 r2
    /\ Forall2 same_letters rs1 rs2.
Proof.
  apply (@redaction_is_case_blind plain_db (str "ask the va") (str "Ask The VA")).
  unfold same_letters. vm_compute. repeat constructor.
Defined.

Lemma embedded_match_is_logged_witness :
  exists t' rs,
    _redact_text (db := plain_db) (str "call " ++ str "555-123-4567" ++ str " now")
    = Some (t', rs)
    /\ rs <> [].
Proof.
  apply (@embedded_match_is_logged plain_db
           (fst (nth 1 _init_redaction_patterns ([], [])))
           (snd (nth 1 _init_redaction_patterns ([], [])))
           (pattern_of "contact_info" 1)
           (match re_compile (pattern_of "contact_info" 1) with
            | Some r => r
            | None => REmpty
            end)
           (str "555-123-4567") (str "call ") (str " now") (0, (12, []))).
  - right. left. reflexivity.
  - right. left. reflexivity.
  - vm_compute. reflexivity.
  - vm_compute. reflexivity.
  - reflexivity.
  - reflexivity.
  - vm_compute. reflexivity.
  - vm_compute. reflexivity.
Defined.

(** ** Answers within the limits of the interpreter *)

Lemma suffix_refl (s : text) : suffix s s.
Proof. exists []. reflexivity. Qed.

Lemma suffix_cons (c : char) (r s : text) : suffix r s -> suffix r (c :: s).
Proof. intros [p ->]. exists (c :: p). reflexivity. Qed.

Lemma suffix_trans (a b c : text) : suffix a b -> suffix b c -> suffix a c.
Proof. intros [p ->] [q ->]. exists (q ++ p). apply app_assoc. Qed.

Lemma suffix_tail (c : char) (r s : text) : suffix (c :: r) s -> suffix r s.
Proof. intros H. apply (suffix_trans (suffix_cons c (suffix_refl r)) H). Qed.










Section Within.
Context {lim : Limits}.


















End Within.

Section WithinParse.
Context {db : UnicodeDB} {lim : Limits}.


End WithinParse.


(** ** Answers beyond the limits *)

Section Raising.
Context {lim : Limits}.

Lemma brackets_too_deep (n : nat) :
  forall fuel rest,
    2 * n < fuel ->
    scan_once fuel n (repeat (chr "[") (S n) ++ rest) = Raise (Builtin RecursionError).
Proof.
  induction n as [|n IH]; intros fuel rest Hf.
  - destruct fuel as [|fuel]; [lia|]. reflexivity.
  - destruct fuel as [|[|fuel]]; try lia.
    change (repeat (chr "[") (S (S n)) ++ rest)
      with (chr "[" :: chr "[" :: (repeat (chr "[") n ++ rest)).
    cbn [scan_once]. 
    change (chr "[" =? dquote)%N with false. change (chr "[" =? chr "{")%N with false.
    change (chr "[" =? chr "[")%N with true. cbv iota.
    cbn [skip_ws]. change (is_json_ws (chr "[")) with false. cbv iota.
    change (chr "[" =? chr "]")%N with false. cbv iota.
    cbn [parse_elements].
    change (chr "[" :: repeat (chr "[") n ++ rest) with (repeat (chr "[") (S n) ++ rest).
    rewrite IH by lia. reflexivity.
Qed.

Lemma json_loads_deep_answer :
  json_loads (deep_answer json_max_depth) = Raise (Builtin RecursionError).
Proof.
  unfold json_loads. generalize json_max_depth. intros depth.
  assert (Hl : List.length (deep_answer depth) = depth + 6).
  { unfold deep_answer, quoted. rewrite !length_app, repeat_length. simpl. lia. }
  rewrite Hl.
  replace (2 * (depth + 6) + 2) with (S (S (S (2 * depth + 11)))) by lia.
  change (deep_answer depth)
    with (chr "{" :: dquote :: chr "a" :: dquote :: chr ":"
            :: repeat (chr "[") depth ++ str "}").
  change (starts_with_bom (chr "{" :: ?x)) with false. cbv iota.
  destruct depth as [|depth]; [reflexivity|].
  cbn [skip_ws]. change (is_json_ws (chr "{")) with false. cbv iota.
  cbn [scan_once].
  change (chr "{" =? dquote)%N with false. change (chr "{" =? chr "{")%N with true.
  cbv iota. cbn [skip_ws]. change (is_json_ws dquote) with false. cbv iota.
  change (dquote =? chr "}")%N with false. cbv iota.
  cbn [parse_members]. change (dquote =? dquote)%N with true. cbv iota.
  change (scanstring (chr "a" :: dquote :: ?x) []) with (Some (str "a", x)).
  cbv iota. cbn [skip_ws]. change (is_json_ws (chr ":")) with false. cbv iota.
  change (chr ":" =? chr ":")%N with true. cbv iota.
  change (repeat (chr "[") (S depth) ++ str "}")
    with (chr "[" :: repeat (chr "[") depth ++ str "}").
  cbn [skip_ws]. change (is_json_ws (chr "[")) with false. cbv iota.
  change (chr "[" :: repeat (chr "[") depth ++ str "}")
    with (repeat (chr "[") (S depth) ++ str "}").
  rewrite brackets_too_deep by lia. reflexivity.
Qed.

Lemma take_digits_ones (n : nat) :
  take_digits (repeat (chr "1") n ++ str "}") = (repeat (chr "1") n, str "}").
Proof.
  induction n as [|n IH]; [reflexivity|].
  change (repeat (chr "1") (S n) ++ str "}") with (chr "1" :: (repeat (chr "1") n ++ str "}")).
  cbn [take_digits]. change (ascii_digit (chr "1")) with true. cbv iota.
  rewrite IH. reflexivity.
Qed.

Lemma json_loads_integer_answer (n : nat) :
  1 <= json_max_depth ->
  json_loads (integer_answer (S n))
  = if too_many_digits (repeat (chr "1") (S n)) then Raise (Builtin ValueError)
    else Ok (PDict [(str "n", PInt (Z.of_N (digits_value (repeat (chr "1") (S n)))))]).
Proof.
  unfold json_loads. generalize json_max_depth. intros [|depth] Hd; [lia|].
  assert (Hl : List.length (integer_answer (S n)) = S n + 7).
  { unfold integer_answer, quoted. rewrite !length_app, repeat_length. simpl. lia. }
  rewrite Hl.
  replace (2 * (S n + 7) + 2) with (S (S (S (2 * n + 15)))) by lia.
  pose proof (take_digits_ones n) as H.
  change (integer_answer (S n))
    with (chr "{" :: dquote :: chr "n" :: dquote :: chr ":" :: chr " " :: chr "1"
            :: (repeat (chr "1") n ++ str "}")).
  change (repeat (chr "1") (S n)) with (chr "1" :: repeat (chr "1") n).
  revert H. generalize (repeat (chr "1") n ++ str "}"). intros rest.
  generalize (repeat (chr "1") n). intros ones H.
  generalize (2 * n + 15). intros fuel.
  cbn -[too_many_digits digits_value Z.of_N dict_set].
  rewrite H.
  cbn -[too_many_digits digits_value Z.of_N dict_set].
  destruct (too_many_digits _); reflexivity.
Qed.

End Raising.

Section RaisingParse.
Context {db : UnicodeDB} {lim : Limits}.

Lemma parse_braced (body : text) :
  _parse_extraction_response (chr "{" :: body ++ [chr "}"])
  = match json_loads (chr "{" :: body ++ [chr "}"]) with
    | Ok v => Ok v
    | Raise (Builtin JSONDecodeError) =>
        Ok (_manual_parse_response (chr "{" :: body ++ [chr "}"]))
    | Raise e => Raise e
    end.
Proof.
  rewrite parse_eq.
  destruct (@search_brace _ [] body []) as (m & Hs & Ht); [intros []|intros []|].
  cbn [app] in Hs, Ht. rewrite Hs, Ht. reflexivity.
Qed.

(** X22: whatever the limits of the interpreter, there is an answer on
    which [_parse_extraction_response] raises: an object whose member opens
    as many arrays as the decoder can enter makes [json.loads] raise
    [RecursionError] at the last of them, and the handler does not catch
    it. *)
Theorem some_answer_is_too_deep :
  _parse_extraction_response (deep_answer json_max_depth) = Raise (Builtin RecursionError).
Proof.
  pose proof json_loads_deep_answer as H. revert H. unfold deep_answer.
  change (str "{" ++ quoted "a" ++ str ":" ++ repeat (chr "[") json_max_depth ++ str "}")
    with (chr "{" :: (quoted "a" ++ str ":" ++ repeat (chr "[") json_max_depth) ++ [chr "}"]).
  intros H. rewrite parse_braced, H. reflexivity.
Qed.

(** X23: on an answer whose only member is an integer written with digits
    1, [_parse_extraction_response] returns the object when the numeral is
    within the limit of [int] and raises [ValueError] when it is longer. *)
Theorem long_integer_is_not_caught (n : nat) :
  1 <= json_max_depth ->
  _parse_extraction_response (integer_answer (S n))
  = if too_many_digits (repeat (chr "1") (S n)) then Raise (Builtin ValueError)
    else Ok (PDict [(str "n", PInt (Z.of_N (digits_value (repeat (chr "1") (S n)))))]).
Proof.
  intros Hd. pose proof (json_loads_integer_answer n Hd) as H. revert H.
  unfold integer_answer.
  change (str "{" ++ quoted "n" ++ str ": " ++ repeat (chr "1") (S n) ++ str "}")
    with (chr "{" :: (quoted "n" ++ str ": " ++ repeat (chr "1") (S n)) ++ [chr "}"]).
  intros H. rewrite parse_braced, H.
  destruct (too_many_digits _); reflexivity.
Qed.

End RaisingParse.

Lemma long_integer_is_not_caught_witness :
  _parse_extraction_response (db := plain_db) (lim := cpython_limits 1) (integer_answer 3)
  = Ok (PDict [(str "n", PInt 111)]).
Proof.
  apply (@long_integer_is_not_caught plain_db (cpython_limits 1) 2).
  vm_compute. lia.
Defined.

(** ** A request whose answer the decoder refuses *)

(** The service answers with the literal of the long integer: the
    [ValueError] of [json.loads] leaves the parser, the extractor wraps it
    and the view answers 500. *)
Example long_integer_answer_is_reported :
  App.process_rfq (db := plain_db) (lim := sample_limits) (outside := numeric_outside)
    (Ok (PDict [(str "content", PStr (str "Paint the hangar."))])) epoch
  = {| status := 500;
       body := PDict [ (str "success", PBool false);
                       (str "error",
                        PStr (str "AI extraction failed: "
                              ++ builtin_str (Outside := numeric_outside) ValueError)) ] |}.
Proof. vm_compute. reflexivity. Qed.
